(** * Action handlers of the browser-automation engine

    A shallow embedding of the method handlers that execute one semantic
    action (click, fill/type, press, scroll, chunked scroll) on a page
    element, and of the navigation watcher that runs after click and press.

    Modelling decisions, in one place:
    - JavaScript strings are [string]s whose characters are read as code
      units below 256.
    - JavaScript numbers are [JsNumber]s: NaN, the two infinities, or an exact
      rational.  The rounding of binary64 arithmetic and the sign of zero are
      not modelled.
    - The browser is an oracle ([World]): every answer it gives may depend on
      the history of events so far.  A handler is a computation that reads
      the history, emits events and either returns or throws.
    - The evaluation script ([Evals]) computes on what it imports, which is
      given as arguments; a function is the value it returns or writes, or
      the error it throws. *)

From Stdlib Require Import String Ascii List Bool ZArith QArith Qround Lia Lqa.
From Stdlib Require Import DecimalString.
Import ListNotations.
Local Open Scope string_scope.

(** ** JavaScript strings *)

Module JsString.

Definition code (c : ascii) : N := N_of_ascii c.

(** WhiteSpace and LineTerminator code units below 256: TAB, LF, VT, FF, CR,
    SP and NBSP. *)
Definition isWhiteSpace (c : ascii) : bool :=
  let n := code c in
  ((9 <=? n) && (n <=? 13) || (n =? 32) || (n =? 160))%N.

Fixpoint trimStart (s : string) : string :=
  match s with
  | String c r => if isWhiteSpace c then trimStart r else s
  | EmptyString => EmptyString
  end.

Fixpoint trimEnd (s : string) : string :=
  match s with
  | String c r =>
      match trimEnd r with
      | EmptyString => if isWhiteSpace c then EmptyString else String c EmptyString
      | r' => String c r'
      end
  | EmptyString => EmptyString
  end.

(** [String.prototype.trim] *)
Definition trim (s : string) : string := trimEnd (trimStart s).

Fixpoint drop (n : nat) (s : string) : string :=
  match n, s with
  | S k, String _ r => drop k r
  | _, _ => s
  end.

(** [String.prototype.replace] with a string pattern: only the first
    occurrence is replaced. *)
Fixpoint replace (pat rep s : string) : string :=
  if String.prefix pat s then rep ++ drop (String.length pat) s
  else match s with
       | String c r => String c (replace pat rep r)
       | EmptyString => EmptyString
       end.

Definition lowerChar (c : ascii) : ascii :=
  let n := code c in
  if ((65 <=? n) && (n <=? 90) || (192 <=? n) && (n <=? 222) && negb (n =? 215))%N
  then ascii_of_N (n + 32) else c.

(** [String.prototype.toLowerCase] *)
Fixpoint toLowerCase (s : string) : string :=
  match s with
  | String c r => String (lowerChar c) (toLowerCase r)
  | EmptyString => EmptyString
  end.

(** The characters of a string, as [for (const char of text)] yields them. *)
Fixpoint chars (s : string) : list string :=
  match s with
  | String c r => String c EmptyString :: chars r
  | EmptyString => []
  end.

Definition dquote : string := String (ascii_of_nat 34) EmptyString.

(** [sub] occurs in [s]. *)
Definition contains (s sub : string) : Prop :=
  exists pre post, s = pre ++ sub ++ post.

End JsString.

(** ** JavaScript numbers *)

Inductive JsNumber :=
| NaN
| Infinity (negative : bool)
| Finite (q : Q).

Module JsNum.

Local Open Scope Q_scope.

Definition isNaN (x : JsNumber) : bool :=
  match x with NaN => true | _ => false end.

Definition isNegative (q : Q) : bool :=
  match q ?= 0 with Lt => true | _ => false end.

Definition isZero (q : Q) : bool :=
  match q ?= 0 with Eq => true | _ => false end.

Definition neg (x : JsNumber) : JsNumber :=
  match x with
  | NaN => NaN
  | Infinity s => Infinity (negb s)
  | Finite q => Finite (- q)
  end.

Definition add (x y : JsNumber) : JsNumber :=
  match x, y with
  | NaN, _ | _, NaN => NaN
  | Infinity s, Infinity s' => if Bool.eqb s s' then Infinity s else NaN
  | Infinity s, Finite _ | Finite _, Infinity s => Infinity s
  | Finite a, Finite b => Finite (a + b)
  end.

Definition sub (x y : JsNumber) : JsNumber := add x (neg y).

Definition mul (x y : JsNumber) : JsNumber :=
  match x, y with
  | NaN, _ | _, NaN => NaN
  | Infinity s, Infinity s' => Infinity (xorb s s')
  | Infinity s, Finite q | Finite q, Infinity s =>
      if isZero q then NaN else Infinity (xorb s (isNegative q))
  | Finite a, Finite b => Finite (a * b)
  end.

Definition div (x y : JsNumber) : JsNumber :=
  match x, y with
  | NaN, _ | _, NaN => NaN
  | Infinity _, Infinity _ => NaN
  | Infinity s, Finite q => Infinity (xorb s (isNegative q))
  | Finite _, Infinity _ => Finite 0
  | Finite a, Finite b =>
      if isZero b then (if isZero a then NaN else Infinity (isNegative a))
      else Finite (a / b)
  end.

(** [Math.min] and [Math.max] *)
Definition min (x y : JsNumber) : JsNumber :=
  match x, y with
  | NaN, _ | _, NaN => NaN
  | Infinity true, _ | _, Infinity true => Infinity true
  | Infinity false, z | z, Infinity false => z
  | Finite a, Finite b => match a ?= b with Gt => y | _ => x end
  end.

Definition max (x y : JsNumber) : JsNumber :=
  match x, y with
  | NaN, _ | _, NaN => NaN
  | Infinity false, _ | _, Infinity false => Infinity false
  | Infinity true, z | z, Infinity true => z
  | Finite a, Finite b => match a ?= b with Lt => y | _ => x end
  end.

(** Equality of the numbers denoted: NaN only to itself here, finite values
    up to the value of the fraction. *)
Definition same (x y : JsNumber) : Prop :=
  match x, y with
  | NaN, NaN => True
  | Infinity s, Infinity s' => s = s'
  | Finite a, Finite b => a == b
  | _, _ => False
  end.

Definition positive (x : JsNumber) : Prop :=
  match x with
  | Finite q => 0 < q
  | Infinity s => s = false
  | NaN => False
  end.

Definition negative (x : JsNumber) : Prop :=
  match x with
  | Finite q => q < 0
  | Infinity s => s = true
  | NaN => False
  end.

(** [lo <= x <= hi] for a finite [x]. *)
Definition between (lo hi : Q) (x : JsNumber) : Prop :=
  match x with
  | Finite q => lo <= q /\ q <= hi
  | _ => False
  end.

Definition isDigit (c : ascii) : bool :=
  let n := JsString.code c in ((48 <=? n) && (n <=? 57))%N.

Definition digitValue (c : ascii) : Z := Z.of_N (JsString.code c) - 48.

(** The longest run of decimal digits at the front, and the rest. *)
Fixpoint spanDigits (s : string) : list Z * string :=
  match s with
  | String c r =>
      if isDigit c
      then let (ds, rest) := spanDigits r in (digitValue c :: ds, rest)
      else ([], s)
  | EmptyString => ([], EmptyString)
  end.

Definition digitsValue (ds : list Z) : Z :=
  fold_left (fun acc d => 10 * acc + d)%Z ds 0%Z.

(** ExponentPart: [e] or [E], an optional sign, at least one digit; [0] when
    the text does not start with one. *)
Definition exponentPart (s : string) : Z :=
  match s with
  | String c r =>
      if (Ascii.eqb c "e" || Ascii.eqb c "E")%char then
        let (sign, r') :=
          match r with
          | String "-" t => (true, t)
          | String "+" t => (false, t)
          | _ => (false, r)
          end in
        match fst (spanDigits r') with
        | [] => 0%Z
        | ds => if sign then (- digitsValue ds)%Z else digitsValue ds
        end
      else 0%Z
  | EmptyString => 0%Z
  end.

(** The global [parseFloat]: leading white space is skipped, the longest
    prefix that is a StrDecimalLiteral is read, NaN when there is none. *)
Definition parseFloat (input : string) : JsNumber :=
  let s := JsString.trimStart input in
  let (negative, s1) :=
    match s with
    | String "-" r => (true, r)
    | String "+" r => (false, r)
    | _ => (false, s)
    end in
  if String.prefix "Infinity" s1 then Infinity negative
  else
    let (ip, s2) := spanDigits s1 in
    let (fp, s3) :=
      match s2 with
      | String "." r => spanDigits r
      | _ => ([], s2)
      end in
    match (ip ++ fp)%list with
    | [] => NaN
    | ds =>
        let m := digitsValue ds in
        let e := (exponentPart s3 - Z.of_nat (List.length fp))%Z in
        Finite (inject_Z (if negative then - m else m) * (10 ^ e))
    end.

End JsNum.

(** ** [parsePercent] (the helper inside [scrollElementToPercentage]) *)

Definition parsePercent (val : string) : JsNumber :=
  let cleaned := JsString.replace "%" "" (JsString.trim val) in
  let num := JsNum.parseFloat cleaned in
  if JsNum.isNaN num then Finite 0%Q
  else JsNum.max (Finite 0%Q) (JsNum.min num (Finite 100%Q)).

(** ** Values exchanged with the browser *)

Inductive ErrorClass := TimeoutError | PlaywrightCommandException | OtherError.

(** A thrown JavaScript error: its class (what [instanceof] tests), its
    [message] and its [stack]. *)
Record Exn := { className : ErrorClass; message : string; stack : string }.

(** [new PlaywrightCommandException(msg)]; the stack the runtime attaches is
    not modelled. *)
Definition newPlaywrightCommandException (msg : string) : Exn :=
  {| className := PlaywrightCommandException; message := msg; stack := "" |}.

Definition isTimeoutError (e : Exn) : bool :=
  match className e with TimeoutError => true | _ => false end.

(** Playwright locators, by how they were built. *)
Inductive Locator :=
| Handle (name : string)                        (* a locator of the caller *)
| PageLocator (selector : string)               (* page.locator(sel) *)
| SubLocator (parent : Locator) (selector : string)   (* l.locator(sel) *)
| First (l : Locator).                          (* l.first() *)

(** The options of [locator.click]: the two the handlers set themselves, and
    the others, passed through as they are. *)
Record ClickOptions := {
  force : option bool;
  timeout : option Z;
  otherOptions : list (string * string)
}.

Definition noOptions : ClickOptions :=
  {| force := None; timeout := None; otherOptions := [] |}.

Definition withTimeout (o : ClickOptions) (ms : Z) : ClickOptions :=
  {| force := force o; timeout := Some ms; otherOptions := otherOptions o |}.

Definition withForce (o : ClickOptions) (b : bool) : ClickOptions :=
  {| force := Some b; timeout := timeout o; otherOptions := otherOptions o |}.

(** An element of [ctx.args]. *)
Inductive Arg :=
| AUndefined
| ANull
| AString (s : string)
| AOptions (o : ClickOptions).

(** [a?.toString()]: [None] is [undefined]. *)
Definition toStringOpt (a : Arg) : option string :=
  match a with
  | AUndefined | ANull => None
  | AString s => Some s
  | AOptions _ => Some "[object Object]"
  end.

(** [args[0]], [undefined] when there is none. *)
Definition arg0 (args : list Arg) : Arg := hd AUndefined args.

(** [x || d] on an optional string: the empty string is falsy too. *)
Definition orElse (x : option string) (d : string) : string :=
  match x with
  | Some s => if String.eqb s "" then d else s
  | None => d
  end.

(** [x ?? d] *)
Definition coalesce (x : option string) (d : string) : string :=
  match x with Some s => s | None => d end.

(** A DOM element as the in-page scripts read it. *)
Record Element := {
  tagName : string;
  boundingHeight : Q;        (* getBoundingClientRect().height *)
  scrollHeight : Q;
  clientHeight : Q;
  scrollLeft : Q
}.

(** What [getNodeFromXpath] returns when it finds a node; [element] is the
    node read as an [HTMLElement]. *)
Record Node := { nodeType : Z; element : Element }.

Definition ELEMENT_NODE : Z := 1.

Record Page := { pageName : string; url : string }.

Record ScrollOptions := { top : JsNumber; left : JsNumber; behavior : string }.

Inductive AuxValue :=
| AuxString (s : string)
| AuxJson (args : list Arg).     (* JSON.stringify(args), not expanded *)

Record LogLine := {
  category : string;
  logMessage : string;
  level : Z;
  auxiliary : list (string * AuxValue * string)    (* key, value, type *)
}.

(** What a handler does to the outside: log lines, and calls on the page with
    the outcome the browser gave ([None]: the call resolved). *)
Inductive Event :=
| Log (l : LogLine)
| ConsoleWarn (msg : string)
| WindowScrollBy (o : ScrollOptions)
| ElementScrollBy (el : Element) (o : ScrollOptions)
| WindowScrollTo (o : ScrollOptions)
| ElementScrollTo (el : Element) (o : ScrollOptions)
| WaitForElementScrollEnd (el : Element) (outcome : option Exn)
| ScrollIntoView (l : Locator) (outcome : option Exn)
| Fill (l : Locator) (value : string) (outcome : option Exn)
| Click (l : Locator) (o : ClickOptions) (outcome : option Exn)
| KeyboardType (text : string) (delay : JsNumber) (outcome : option Exn)
| KeyboardPress (key : string) (outcome : option Exn)
| AwaitNewPage (timerMs : Z) (winner : option Page)
| ClosePage (p : Page) (outcome : option Exn)
| Goto (target : string) (outcome : option Exn)
| WaitForLoadState (state : string) (outcome : option Exn)
| WaitForSettledDom (timeoutMs : option Z) (outcome : option Exn).

Definition Trace := list Event.

Inductive Result (A : Type) :=
| Returned (a : A)
| Thrown (e : Exn).
Arguments Returned {A} a.
Arguments Thrown {A} e.

(** The browser, the page and the session, as an oracle: each answer is a
    function of the history of events, the latest first.  Reads of the page
    are not events, so the page does not change between two reads with no
    call in between. *)
Record World := {
  (* inside the page *)
  w_getNodeFromXpath : Trace -> string -> Result (option Node);
  w_visualViewportHeight : Trace -> Q;
  w_innerHeight : Trace -> Q;
  w_bodyScrollHeight : Trace -> Q;
  w_scrollX : Trace -> Q;
  w_scrollingElement : Trace -> option Element;
  w_documentElement : Trace -> Element;
  w_waitForElementScrollEnd : Trace -> Element -> option Exn;
  w_random : Trace -> Q;
  (* from the driver *)
  w_pageUrl : Trace -> string;
  w_isRadio : Trace -> Locator -> Result bool;
  w_inputId : Trace -> Locator -> Result string;
  w_count : Trace -> Locator -> Result nat;
  w_scrollIntoView : Trace -> Locator -> option Exn;
  w_fill : Trace -> Locator -> string -> option Exn;
  w_click : Trace -> Locator -> ClickOptions -> option Exn;
  w_keyboardType : Trace -> string -> JsNumber -> option Exn;
  w_keyboardPress : Trace -> string -> option Exn;
  (* the session's next "page" event: after how long, and the page *)
  w_newPage : Trace -> option (Z * Page);
  w_closePage : Trace -> Page -> option Exn;
  w_goto : Trace -> string -> option Exn;
  w_waitForLoadState : Trace -> string -> option Exn;
  w_waitForSettledDom : Trace -> option Z -> option Exn
}.

(** ** Handlers as computations *)

(** A computation reads the world and the history (the events so far, the
    latest first), and gives the events it emitted, in the order it emitted
    them, with its result. *)
Definition M (A : Type) : Type := World -> Trace -> Trace * Result A.

(** The history once [emitted] has happened after [h]. *)
Definition after (emitted h : Trace) : Trace := rev_append emitted h.

Definition ret {A} (a : A) : M A := fun _ _ => ([], Returned a).

Definition throw {A} (e : Exn) : M A := fun _ _ => ([], Thrown e).

Definition bind {A B} (m : M A) (k : A -> M B) : M B :=
  fun w h =>
    let (ev1, r) := m w h in
    match r with
    | Returned a => let (ev2, r') := k a w (after ev1 h) in ((ev1 ++ ev2)%list, r')
    | Thrown e => (ev1, Thrown e)
    end.

(** [try { m } catch (e) { handler e }] *)
Definition tryCatch {A} (m : M A) (handler : Exn -> M A) : M A :=
  fun w h =>
    let (ev1, r) := m w h in
    match r with
    | Returned a => (ev1, Returned a)
    | Thrown e => let (ev2, r') := handler e w (after ev1 h) in ((ev1 ++ ev2)%list, r')
    end.

Definition emit (ev : Event) : M unit := fun _ _ => ([ev], Returned tt).

(** A read of the world: no event. *)
Definition read {A} (f : World -> Trace -> A) : M A :=
  fun w h => ([], Returned (f w h)).

(** A read that may throw. *)
Definition query {A} (f : World -> Trace -> Result A) : M A :=
  fun w h => ([], f w h).

(** A call on the page: the event records the outcome, a failure is thrown. *)
Definition call (f : World -> Trace -> option Exn) (ev : option Exn -> Event) : M unit :=
  fun w h =>
    let o := f w h in
    ([ev o], match o with None => Returned tt | Some e => Thrown e end).

Declare Scope action_scope.
Delimit Scope action_scope with action.
Notation "x <- m ;; k" := (bind m (fun x => k))
  (at level 100, m at next level, right associativity) : action_scope.
Notation "m ;; k" := (bind m (fun _ => k))
  (at level 100, right associativity) : action_scope.
Notation "'try' m 'catch' e => h" := (tryCatch m (fun e => h))
  (at level 100, e name, m at level 200, h at level 200) : action_scope.

Fixpoint forEach {A} (l : list A) (body : A -> M unit) : M unit :=
  match l with
  | [] => ret tt
  | x :: r => bind (body x) (fun _ => forEach r body)
  end.

Definition run {A} (m : M A) (w : World) : Trace * Result A := m w [].

Record MethodHandlerContext := {
  method : string;
  locator : Locator;
  xpath : string;
  args : list Arg;
  initialUrl : string;
  domSettleTimeoutMs : option Z
}.

Definition logger (l : LogLine) : M unit := emit (Log l).

Definition aux (key value : string) : string * AuxValue * string :=
  (key, AuxString value, "string").

(** The records every catch block logs: message, stack, and the rest. *)
Definition errorLog (msg : string) (e : Exn)
    (more : list (string * AuxValue * string)) : LogLine :=
  {| category := "action"; logMessage := msg; level := 1;
     auxiliary := (aux "error" (message e) :: aux "trace" (stack e) :: more)%list |}.

Local Open Scope action_scope.

(** ** Chunked scroll *)

(** The guard [!elementNode || elementNode.nodeType !== Node.ELEMENT_NODE]
    and, past it, [elementNode as HTMLElement]: [None] when the guard holds. *)
Definition asElement (elementNode : option Node) : option Element :=
  match elementNode with
  | None => None
  | Some n => if (nodeType n =? ELEMENT_NODE)%Z then Some (element n) else None
  end.

Definition smooth (t l : JsNumber) : ScrollOptions :=
  {| top := t; left := l; behavior := "smooth" |}.

(** [document.scrollingElement || document.documentElement] *)
Definition scrollingRoot (w : World) (h : Trace) : Element :=
  match w_scrollingElement w h with
  | Some el => el
  | None => w_documentElement w h
  end.

Definition nextChunkLog (ctx : MethodHandlerContext) : LogLine :=
  {| category := "action"; logMessage := "scrolling to next chunk"; level := 2;
     auxiliary := [aux "xpath" (xpath ctx)] |}.

Definition scrollToNextChunk (ctx : MethodHandlerContext) : M unit :=
  logger (nextChunkLog ctx) ;;
  try
    (elementNode <- query (fun w h => w_getNodeFromXpath w h (xpath ctx)) ;;
     match asElement elementNode with
     | None => emit (ConsoleWarn "Could not locate element to scroll by its height.")
     | Some element =>
         let tagName := JsString.toLowerCase (tagName element) in
         if String.eqb tagName "html" || String.eqb tagName "body" then
           height <- read w_visualViewportHeight ;;
           emit (WindowScrollBy (smooth (Finite height) (Finite 0))) ;;
           scrollingEl <- read scrollingRoot ;;
           call (fun w h => w_waitForElementScrollEnd w h scrollingEl)
                (WaitForElementScrollEnd scrollingEl)
         else
           let height := boundingHeight element in
           emit (ElementScrollBy element (smooth (Finite height) (Finite 0))) ;;
           call (fun w h => w_waitForElementScrollEnd w h element)
                (WaitForElementScrollEnd element)
     end)
  catch e =>
    (logger (errorLog "error scrolling to next chunk" e [aux "xpath" (xpath ctx)]) ;;
     throw (newPlaywrightCommandException (message e))).

Definition previousChunkLog (ctx : MethodHandlerContext) : LogLine :=
  {| category := "action"; logMessage := "scrolling to previous chunk"; level := 2;
     auxiliary := [aux "xpath" (xpath ctx)] |}.

Definition scrollToPreviousChunk (ctx : MethodHandlerContext) : M unit :=
  logger (previousChunkLog ctx) ;;
  try
    (elementNode <- query (fun w h => w_getNodeFromXpath w h (xpath ctx)) ;;
     match asElement elementNode with
     | None => emit (ConsoleWarn "Could not locate element to scroll by its height.")
     | Some element =>
         let tagName := JsString.toLowerCase (tagName element) in
         if String.eqb tagName "html" || String.eqb tagName "body" then
           height <- read w_visualViewportHeight ;;
           emit (WindowScrollBy (smooth (JsNum.neg (Finite height)) (Finite 0))) ;;
           scrollingEl <- read scrollingRoot ;;
           call (fun w h => w_waitForElementScrollEnd w h scrollingEl)
                (WaitForElementScrollEnd scrollingEl)
         else
           let height := boundingHeight element in
           emit (ElementScrollBy element (smooth (JsNum.neg (Finite height)) (Finite 0))) ;;
           call (fun w h => w_waitForElementScrollEnd w h element)
                (WaitForElementScrollEnd element)
     end)
  catch e =>
    (logger (errorLog "error scrolling to previous chunk" e [aux "xpath" (xpath ctx)]) ;;
     throw (newPlaywrightCommandException (message e))).

(** ** Scroll into view *)

Definition scrollElementIntoView (ctx : MethodHandlerContext) : M unit :=
  logger {| category := "action"; logMessage := "scrolling element into view"; level := 2;
            auxiliary := [aux "xpath" (xpath ctx)] |} ;;
  try call (fun w h => w_scrollIntoView w h (locator ctx)) (ScrollIntoView (locator ctx))
  catch e =>
    (logger (errorLog "error scrolling element into view" e [aux "xpath" (xpath ctx)]) ;;
     throw (newPlaywrightCommandException (message e))).

(** ** Percentage scroll *)

(** [const [yArg = "0%"] = args]: the default stands in for [undefined] only. *)
Definition yArgOf (args : list Arg) : Arg :=
  match arg0 args with
  | AUndefined => AString "0%"
  | a => a
  end.

(** The TypeError of [val.trim()] on what is not a string (the wording of
    the message is the engine's). *)
Definition trimTypeError (a : Arg) : Exn :=
  {| className := OtherError;
     message := match a with
                | ANull => "Cannot read properties of null (reading 'trim')"
                | _ => "val.trim is not a function"
                end;
     stack := "" |}.

Definition percentageScript (xpath : string) (yArg : Arg) : M unit :=
  elementNode <- query (fun w h => w_getNodeFromXpath w h xpath) ;;
  match asElement elementNode with
  | None => emit (ConsoleWarn "Could not locate element to scroll on.")
  | Some element =>
      yPct <- match yArg with
              | AString s => ret (parsePercent s)
              | a => throw (trimTypeError a)
              end ;;
      if String.eqb (JsString.toLowerCase (tagName element)) "html" then
        scrollHeight <- read w_bodyScrollHeight ;;
        viewportHeight <- read w_innerHeight ;;
        let scrollTop :=
          JsNum.mul (JsNum.sub (Finite scrollHeight) (Finite viewportHeight))
                    (JsNum.div yPct (Finite 100)) in
        scrollX <- read w_scrollX ;;
        emit (WindowScrollTo (smooth scrollTop (Finite scrollX)))
      else
        let scrollHeight := scrollHeight element in
        let clientHeight := clientHeight element in
        let scrollTop :=
          JsNum.mul (JsNum.sub (Finite scrollHeight) (Finite clientHeight))
                    (JsNum.div yPct (Finite 100)) in
        emit (ElementScrollTo element (smooth scrollTop (Finite (scrollLeft element))))
  end.

Definition percentageLog (ctx : MethodHandlerContext) : LogLine :=
  {| category := "action";
     logMessage := "scrolling element vertically to specified percentage";
     level := 2;
     auxiliary := [aux "xpath" (xpath ctx);
                   ("coordinate", AuxJson (args ctx), "string")] |}.

Definition scrollElementToPercentage (ctx : MethodHandlerContext) : M unit :=
  logger (percentageLog ctx) ;;
  try percentageScript (xpath ctx) (yArgOf (args ctx))
  catch e =>
    (logger (errorLog "error scrolling element vertically to percentage" e
               [aux "xpath" (xpath ctx); ("args", AuxJson (args ctx), "object")]) ;;
     throw (newPlaywrightCommandException (message e))).

(** ** Text input *)

Definition fillOrType (ctx : MethodHandlerContext) : M unit :=
  try
    (call (fun w h => w_fill w h (locator ctx) "") (Fill (locator ctx) "") ;;
     call (fun w h => w_click w h (locator ctx) noOptions) (Click (locator ctx) noOptions) ;;
     let text := orElse (toStringOpt (arg0 (args ctx))) "" in
     forEach (JsString.chars text) (fun char =>
       r <- read w_random ;;
       let delay := JsNum.add (JsNum.mul (Finite r) (Finite 50)) (Finite 25) in
       call (fun w h => w_keyboardType w h char delay) (KeyboardType char delay)))
  catch e =>
    (logger (errorLog "error filling element" e [aux "xpath" (xpath ctx)]) ;;
     throw (newPlaywrightCommandException (message e))).

(** ** Navigation watcher *)

Definition NEW_TAB_TIMER_MS : Z := 1500.

(** The promise that [context.once("page", ...)] and
    [setTimeout(..., 1500)] both resolve: the first to fire wins, the page
    when its event comes before the timer.  [signal] is the next page event
    of the session, with its delay in ms; an event at 1500 ms or later finds
    the promise resolved with [null]. *)
Definition raceNewPage (signal : option (Z * Page)) : option Page :=
  match signal with
  | Some (after, page) => if (after <? NEW_TAB_TIMER_MS)%Z then Some page else None
  | None => None
  end.

Definition navigationCheckLog (actionDescription xpath : string) : LogLine :=
  {| category := "action";
     logMessage := actionDescription ++ ", checking for page navigation";
     level := 1; auxiliary := [aux "xpath" xpath] |}.

Definition actionCompleteLog (actionDescription : string) (newOpenedTab : option Page)
    : LogLine :=
  {| category := "action"; logMessage := actionDescription ++ " complete"; level := 1;
     auxiliary := [aux "newOpenedTab"
                     (match newOpenedTab with
                      | Some _ => "opened a new tab"
                      | None => "no new tabs opened"
                      end)] |}.

Definition newTabLog (tab : Page) : LogLine :=
  {| category := "action"; logMessage := "new page detected (new tab) with URL";
     level := 1; auxiliary := [aux "url" (url tab)] |}.

Definition settleTimeoutLog (e : Exn) : LogLine :=
  {| category := "action"; logMessage := "wait for settled DOM timeout hit"; level := 1;
     auxiliary := [aux "trace" (stack e); aux "message" (message e)] |}.

Definition navigationDoneLog : LogLine :=
  {| category := "action";
     logMessage := "finished waiting for (possible) page navigation";
     level := 1; auxiliary := [] |}.

Definition urlChangedLog (current : string) : LogLine :=
  {| category := "action"; logMessage := "new page detected with URL"; level := 1;
     auxiliary := [aux "url" current] |}.

Definition handlePossiblePageNavigation (actionDescription xpath initialUrl : string)
    (domSettleTimeoutMs : option Z) : M unit :=
  logger (navigationCheckLog actionDescription xpath) ;;
  newOpenedTab <- read (fun w h => raceNewPage (w_newPage w h)) ;;
  emit (AwaitNewPage NEW_TAB_TIMER_MS newOpenedTab) ;;
  logger (actionCompleteLog actionDescription newOpenedTab) ;;
  match newOpenedTab with
  | Some tab =>
      logger (newTabLog tab) ;;
      call (fun w h => w_closePage w h tab) (ClosePage tab) ;;
      call (fun w h => w_goto w h (url tab)) (Goto (url tab)) ;;
      call (fun w h => w_waitForLoadState w h "domcontentloaded")
           (WaitForLoadState "domcontentloaded")
  | None => ret tt
  end ;;
  (try call (fun w h => w_waitForSettledDom w h domSettleTimeoutMs)
            (WaitForSettledDom domSettleTimeoutMs)
   catch e => logger (settleTimeoutLog e)) ;;
  logger navigationDoneLog ;;
  current <- read w_pageUrl ;;
  if String.eqb current initialUrl then ret tt
  else logger (urlChangedLog current).

(** ** Key press *)

(** [args[0]?.toString() ?? ""] *)
Definition keyOf (ctx : MethodHandlerContext) : string :=
  coalesce (toStringOpt (arg0 (args ctx))) "".

Definition pressErrorLog (ctx : MethodHandlerContext) (e : Exn) : LogLine :=
  errorLog "error pressing key" e
    [aux "key" (coalesce (toStringOpt (arg0 (args ctx))) "unknown")].

Definition pressKey (ctx : MethodHandlerContext) : M unit :=
  try
    (let key := keyOf ctx in
     call (fun w h => w_keyboardPress w h key) (KeyboardPress key) ;;
     handlePossiblePageNavigation "press" (xpath ctx) (initialUrl ctx)
       (domSettleTimeoutMs ctx))
  catch e =>
    (logger (pressErrorLog ctx e) ;;
     throw (newPlaywrightCommandException (message e))).

(** ** Click *)

(** What [{...s}] copies of a string: its characters, under their indices
    from [i] on. *)
Fixpoint spreadString (i : nat) (cs : list string) : list (string * string) :=
  match cs with
  | [] => []
  | c :: r => (NilZero.string_of_uint (Nat.to_uint i), c) :: spreadString (S i) r
  end.

(** [(args[0] ?? {}) as Record<string, unknown>], as the two spreads
    [{...clickArg, ...}] read it: the options the caller gave; nothing for
    [undefined] and [null]; the characters of a string. *)
Definition clickArgOf (args : list Arg) : ClickOptions :=
  match arg0 args with
  | AOptions o => o
  | AString s =>
      {| force := None; timeout := None;
         otherOptions := spreadString 0 (JsString.chars s) |}
  | AUndefined | ANull => noOptions
  end.

Definition labelFor (inputId : string) : Locator :=
  PageLocator ("label[for=" ++ JsString.dquote ++ inputId ++ JsString.dquote ++ "]").

Definition ancestorLabel (xpath : string) : Locator :=
  First (PageLocator ("xpath=" ++ xpath ++ "/ancestor::label")).

Definition followingSiblingLabel (l : Locator) : Locator :=
  First (SubLocator l "xpath=following-sibling::label").

Definition precedingSiblingLabel (l : Locator) : Locator :=
  First (SubLocator l "xpath=preceding-sibling::label").

Definition count (l : Locator) : M nat := query (fun w h => w_count w h l).

(** The locator a click goes to: for a radio input its label when there is
    one, else the locator itself. *)
Definition resolveClickTarget (ctx : MethodHandlerContext) : M Locator :=
  isRadio <- query (fun w h => w_isRadio w h (locator ctx)) ;;
  if isRadio : bool then
    inputId <- query (fun w h => w_inputId w h (locator ctx)) ;;
    let labelLocator : option Locator :=
      if String.eqb inputId "" then None else Some (labelFor inputId) in
    labelLocator <-
      match labelLocator with
      | None => ret (ancestorLabel (xpath ctx))
      | Some l =>
          n <- count l ;;
          if (n <? 1)%nat then ret (ancestorLabel (xpath ctx)) else ret l
      end ;;
    n <- count labelLocator ;;
    labelLocator <-
      (if (n <? 1)%nat then
         n <- count (followingSiblingLabel (locator ctx)) ;;
         if (n <? 1)%nat then ret (precedingSiblingLabel (locator ctx))
         else ret (followingSiblingLabel (locator ctx))
       else ret labelLocator) ;;
    n <- count labelLocator ;;
    if (0 <? n)%nat then ret labelLocator else ret (locator ctx)
  else ret (locator ctx).

Definition retryLog : LogLine :=
  {| category := "action";
     logMessage := "First click attempt timed out, retrying with force...";
     level := 2; auxiliary := [] |}.

(** The click with a 5s bound, and the forced retry after a timeout. *)
Definition clickWithRetry (xpath : string) (finalLocator : Locator)
    (clickArg : ClickOptions) : M unit :=
  try call (fun w h => w_click w h finalLocator (withTimeout clickArg 5000))
           (Click finalLocator (withTimeout clickArg 5000))
  catch error =>
    if isTimeoutError error then
      logger retryLog ;;
      try call (fun w h => w_click w h finalLocator (withForce clickArg true))
               (Click finalLocator (withForce clickArg true))
      catch forceError =>
        throw (newPlaywrightCommandException
                 ("Failed to click element at [" ++ xpath ++ "]. " ++
                  "Timeout after 5s, then force-click also failed. " ++
                  "Original timeout error: " ++ message error ++ ", " ++
                  "Force-click error: " ++ message forceError))
    else
      throw (newPlaywrightCommandException
               ("Failed to click element at [" ++ xpath ++ "]. " ++
                "Error: " ++ message error)).

Definition clickLog (pageUrl : string) : LogLine :=
  {| category := "action"; logMessage := "page URL before click"; level := 2;
     auxiliary := [aux "url" pageUrl] |}.

Definition clickErrorLog (ctx : MethodHandlerContext) (e : Exn) : LogLine :=
  errorLog "error performing click" e
    [aux "xpath" (xpath ctx); aux "method" "click";
     ("args", AuxJson (args ctx), "object")].

(** The outer [try] block of [clickElement]: find the target, click it. *)
Definition clickAttempt (ctx : MethodHandlerContext) : M unit :=
  try
    (finalLocator <- resolveClickTarget ctx ;;
     clickWithRetry (xpath ctx) finalLocator (clickArgOf (args ctx)))
  catch e =>
    (logger (clickErrorLog ctx e) ;;
     throw (newPlaywrightCommandException
              ("Could not complete click action at [" ++ xpath ctx ++ "]. Reason: " ++
               message e))).

Definition clickElement (ctx : MethodHandlerContext) : M unit :=
  (pageUrl <- read w_pageUrl ;; logger (clickLog pageUrl)) ;;
  clickAttempt ctx ;;
  handlePossiblePageNavigation "click" (xpath ctx) (initialUrl ctx)
    (domSettleTimeoutMs ctx).

(** ** Dispatch *)

(** [methodHandlerMap]: the handler of a method name, [None] when the map has
    no such key. *)
Definition methodHandlerMap (name : string) : option (MethodHandlerContext -> M unit) :=
  if String.eqb name "scrollIntoView" then Some scrollElementIntoView
  else if String.eqb name "scrollTo" then Some scrollElementToPercentage
  else if String.eqb name "scroll" then Some scrollElementToPercentage
  else if String.eqb name "mouse.wheel" then Some scrollElementToPercentage
  else if String.eqb name "fill" then Some fillOrType
  else if String.eqb name "type" then Some fillOrType
  else if String.eqb name "press" then Some pressKey
  else if String.eqb name "click" then Some clickElement
  else if String.eqb name "nextChunk" then Some scrollToNextChunk
  else if String.eqb name "prevChunk" then Some scrollToPreviousChunk
  else None.

(** ** Scripted worlds, for the examples *)

Module Script.

Fixpoint locatorEqb (a b : Locator) : bool :=
  match a, b with
  | Handle x, Handle y => String.eqb x y
  | PageLocator x, PageLocator y => String.eqb x y
  | SubLocator p x, SubLocator q y => locatorEqb p q && String.eqb x y
  | First x, First y => locatorEqb x y
  | _, _ => false
  end.

Definition blank : Element :=
  {| tagName := "HTML"; boundingHeight := 0; scrollHeight := 0; clientHeight := 0;
     scrollLeft := 0 |}.

(** A page whose answers do not change: [node] is what every path resolves
    to, [labels] the locators that match an element, [clicks] the outcome of
    a click by its options, [tab] the next page event. *)
Definition world (node : option Node) (radio : bool) (id : string)
    (labels : list Locator) (clicks : ClickOptions -> option Exn)
    (tab : option (Z * Page)) (settle : option Exn) : World :=
  {| w_getNodeFromXpath := fun _ _ => Returned node;
     w_visualViewportHeight := fun _ => 600;
     w_innerHeight := fun _ => 600;
     w_bodyScrollHeight := fun _ => 2600;
     w_scrollX := fun _ => 7;
     w_scrollingElement := fun _ => None;
     w_documentElement := fun _ => blank;
     w_waitForElementScrollEnd := fun _ _ => None;
     w_random := fun _ => 1 # 2;
     w_pageUrl := fun _ => "https://example.test/";
     w_isRadio := fun _ _ => Returned radio;
     w_inputId := fun _ _ => Returned id;
     w_count := fun _ l => Returned (if existsb (locatorEqb l) labels then 1%nat else 0%nat);
     w_scrollIntoView := fun _ _ => None;
     w_fill := fun _ _ _ => None;
     w_click := fun _ _ o => clicks o;
     w_keyboardType := fun _ _ _ => None;
     w_keyboardPress := fun _ _ => None;
     w_newPage := fun _ => tab;
     w_closePage := fun _ _ => None;
     w_goto := fun _ _ => None;
     w_waitForLoadState := fun _ _ => None;
     w_waitForSettledDom := fun _ _ => settle |}.

Definition quiet : World := world None false "" [] (fun _ => None) None None.

Definition ctx (args : list Arg) : MethodHandlerContext :=
  {| method := "act"; locator := Handle "target"; xpath := "/html/body/div[1]";
     args := args; initialUrl := "https://example.test/"; domSettleTimeoutMs := None |}.

Definition div (h sh ch sl : Q) : option Node :=
  Some {| nodeType := ELEMENT_NODE;
          element := {| tagName := "DIV"; boundingHeight := h; scrollHeight := sh;
                        clientHeight := ch; scrollLeft := sl |} |}.

Definition tagged (tag : string) : option Node :=
  Some {| nodeType := ELEMENT_NODE;
          element := {| tagName := tag; boundingHeight := 40; scrollHeight := 900;
                        clientHeight := 300; scrollLeft := 5 |} |}.

Definition timeoutError (msg : string) : Exn :=
  {| className := TimeoutError; message := msg; stack := "" |}.

Definition otherError (msg : string) : Exn :=
  {| className := OtherError; message := msg; stack := "" |}.

(** Every click with a time bound times out, every other click fails. *)
Definition stubborn : World :=
  world None false "" []
    (fun o => match timeout o with
              | Some _ => Some (timeoutError "Timeout 5000ms exceeded.")
              | None => Some (otherError "Element is not attached to the DOM")
              end)
    None None.



(** Clicks succeed, the DOM does not settle in time. *)
Definition slowToSettle : World :=
  world None false "" [] (fun _ => None) None
    (Some (timeoutError "Timeout 30000ms exceeded.")).

(** A new page opens 100 ms after the action. *)
Definition opensTab : World :=
  world None false "" [] (fun _ => None)
    (Some (100%Z, {| pageName := "tab"; url := "https://new.test/" |})) None.

End Script.

(** ** The percentage parser as the documentation words it *)

(** Removes a final [%], and nothing else. *)
Fixpoint stripTrailingPercent (s : string) : string :=
  match s with
  | String c r =>
      match r with
      | EmptyString => if Ascii.eqb c "%" then EmptyString else s
      | _ => String c (stripTrailingPercent r)
      end
  | EmptyString => EmptyString
  end.

(** [parsePercent] with "strip white space and a trailing [%]" read to the
    letter; to be compared with [parsePercent]. *)
Definition parsePercentAsDescribed (val : string) : JsNumber :=
  let cleaned := stripTrailingPercent (JsString.trim val) in
  let num := JsNum.parseFloat cleaned in
  if JsNum.isNaN num then Finite 0%Q
  else JsNum.max (Finite 0%Q) (JsNum.min num (Finite 100%Q)).

(** No [%] stands before the last character. *)
Fixpoint percentOnlyAtEnd (s : string) : bool :=
  match s with
  | String c r =>
      if Ascii.eqb c "%" then String.eqb r "" else percentOnlyAtEnd r
  | EmptyString => true
  end.

(** ** Vocabulary of the statements *)

(** Unfolds the plumbing of a computation, leaving the reads of the world
    and the case distinctions of the handler. *)
Ltac exec :=
  cbv beta iota delta
    [bind tryCatch emit query read call ret throw after rev_append logger count app].

(** The path identifier resolved to no node, or to a node that is no
    element. *)
Definition unresolved (node : option Node) : Prop :=
  node = None \/ exists n, node = Some n /\ nodeType n <> ELEMENT_NODE.

(** What follows the scroll of a chunk handler: the wait for the end of the
    scroll and, when it fails, the log of the catch block. *)
Definition chunkTail (msg : string) (ctx : MethodHandlerContext) (target : Element)
    (outcome : option Exn) : Trace * Result unit :=
  match outcome with
  | None => ([WaitForElementScrollEnd target None], Returned tt)
  | Some e =>
      ([WaitForElementScrollEnd target (Some e);
        Log (errorLog msg e [aux "xpath" (xpath ctx)])],
       Thrown (newPlaywrightCommandException (message e)))
  end.

(** The test of the chunk handlers: the tag is [html] or [body]. *)
Definition isRoot (el : Element) : bool :=
  let tag := JsString.toLowerCase (tagName el) in
  String.eqb tag "html" || String.eqb tag "body".



(** The options a click is given besides those the handler sets, by the
    arguments of the caller: the record that is the first argument; nothing
    when there is no first argument, or it is [undefined] or [null]; for a
    string, its characters under the keys ["0"], ["1"], ... *)
Inductive callerOptions : list Arg -> ClickOptions -> Prop :=
| noArgument :
    callerOptions [] {| force := None; timeout := None; otherOptions := [] |}
| undefinedArgument rest :
    callerOptions (AUndefined :: rest)
      {| force := None; timeout := None; otherOptions := [] |}
| nullArgument rest :
    callerOptions (ANull :: rest)
      {| force := None; timeout := None; otherOptions := [] |}
| recordArgument o rest :
    callerOptions (AOptions o :: rest) o
| stringArgument s rest :
    callerOptions (AString s :: rest)
      {| force := None; timeout := None;
         otherOptions :=
           combine (map (fun i => NilZero.string_of_uint (Nat.to_uint i))
                        (seq 0 (List.length (JsString.chars s))))
                   (JsString.chars s) |}.

Definition isLog (ev : Event) : bool :=
  match ev with Log _ => true | _ => false end.

Definition isClick (ev : Event) : bool :=
  match ev with Click _ _ _ => true | _ => false end.

(** The calls on the page among the events: everything but the log lines. *)
Definition callsOf (evs : Trace) : Trace := filter (fun ev => negb (isLog ev)) evs.

(** The clicks among the events. *)
Definition clicksOf (evs : Trace) : Trace := filter isClick evs.

(** Every event a computation emits satisfies [P], whatever the world. *)
Definition emitsOnly {A} (P : Event -> Prop) (m : M A) : Prop :=
  forall w h, Forall P (fst (m w h)).

(** The end of the watcher: the settle wait with its catch block, and the
    closing log lines.  It never throws. *)
Definition settlePhase (initialUrl : string) (t : option Z) (w : World) (h : Trace)
    : Trace :=
  let o := w_waitForSettledDom w h t in
  let waited :=
    match o with
    | None => [WaitForSettledDom t None]
    | Some e => [WaitForSettledDom t (Some e); Log (settleTimeoutLog e)]
    end in
  let h' := after (waited ++ [Log navigationDoneLog])%list h in
  (waited ++ Log navigationDoneLog ::
   (if String.eqb (w_pageUrl w h') initialUrl then []
    else [Log (urlChangedLog (w_pageUrl w h'))]))%list.

(** The watcher as [pressKey] and [clickElement] call it. *)
Definition watch (actionDescription : string) (ctx : MethodHandlerContext) : M unit :=
  handlePossiblePageNavigation actionDescription (xpath ctx) (initialUrl ctx)
    (domSettleTimeoutMs ctx).


(** ** More vocabulary: what the handlers do besides *)

(** The events of the navigation watcher. *)
Definition isNavigationEvent (ev : Event) : bool :=
  match ev with
  | AwaitNewPage _ _ | ClosePage _ _ | Goto _ _ | WaitForLoadState _ _
  | WaitForSettledDom _ _ => true
  | _ => false
  end.

(** The texts of the keystrokes among the events. *)
Fixpoint typedTexts (evs : Trace) : list string :=
  match evs with
  | KeyboardType text _ _ :: r => text :: typedTexts r
  | _ :: r => typedTexts r
  | [] => []
  end.

(** The event is a keystroke of [keyboard.type]. *)
Definition isKeystroke (ev : Event) : bool :=
  match ev with KeyboardType _ _ _ => true | _ => false end.

(** The outcome of a call; [None] also for what is no call. *)
Definition outcomeOf (ev : Event) : option Exn :=
  match ev with
  | WaitForElementScrollEnd _ o | ScrollIntoView _ o | Fill _ _ o | Click _ _ o
  | KeyboardType _ _ o | KeyboardPress _ o | ClosePage _ o | Goto _ o
  | WaitForLoadState _ o | WaitForSettledDom _ o => o
  | _ => None
  end.

(** A log line of a catch block: category [action], level 1, and the
    message of the error in front. *)
Definition reportsError (l : LogLine) (msg : string) : Prop :=
  category l = "action" /\ level l = 1%Z
  /\ hd_error (auxiliary l) = Some ("error", AuxString msg, "string").

(** Scripted worlds in which calls fail. *)
Module Faulty.

(** As [Script.world], with the outcomes of the calls that [Script.world]
    lets succeed: [intoView], [fill], [typing] by text, [press], and of
    closing a new page, navigating and waiting for the load state; [radio] is
    the answer of the radio probe. *)
Definition world (node : option Node) (radio : Result bool)
    (intoView fill : option Exn) (typing : string -> option Exn) (press : option Exn)
    (tab : option (Z * Page)) (close goto load : option Exn) : World :=
  {| w_getNodeFromXpath := fun _ _ => Returned node;
     w_visualViewportHeight := fun _ => 600;
     w_innerHeight := fun _ => 600;
     w_bodyScrollHeight := fun _ => 2600;
     w_scrollX := fun _ => 7;
     w_scrollingElement := fun _ => None;
     w_documentElement := fun _ => Script.blank;
     w_waitForElementScrollEnd := fun _ _ => None;
     w_random := fun _ => 1 # 2;
     w_pageUrl := fun _ => "https://example.test/";
     w_isRadio := fun _ _ => radio;
     w_inputId := fun _ _ => Returned "";
     w_count := fun _ _ => Returned 0%nat;
     w_scrollIntoView := fun _ _ => intoView;
     w_fill := fun _ _ _ => fill;
     w_click := fun _ _ _ => None;
     w_keyboardType := fun _ text _ => typing text;
     w_keyboardPress := fun _ _ => press;
     w_newPage := fun _ => tab;
     w_closePage := fun _ _ => close;
     w_goto := fun _ _ => goto;
     w_waitForLoadState := fun _ _ => load;
     w_waitForSettledDom := fun _ _ => None |}.

Definition newTab : Page := {| pageName := "tab"; url := "https://new.test/" |}.

(** The element leaves the page before it can be scrolled into view. *)
Definition detached : World :=
  world None (Returned false) (Some (Script.otherError "Element is not attached to the DOM"))
    None (fun _ => None) None None None None None.

(** A click opens a tab whose URL the original page fails to load. *)
Definition deadLink : World :=
  world None (Returned false) None None (fun _ => None) None
    (Some (100%Z, newTab)) None (Some (Script.timeoutError "Timeout 30000ms exceeded."))
    None.

(** The keyboard accepts every character but [b]. *)
Definition stuckKey : World :=
  world None (Returned false) None None
    (fun text => if String.eqb text "b" then Some (Script.otherError "Unknown key: b")
                 else None)
    None None None None None.

(** The radio probe finds the element gone. *)
Definition goneBeforeProbe : World :=
  world None (Thrown (Script.otherError "Execution context was destroyed")) None None
    (fun _ => None) None None None None None.

End Faulty.

(** * The evaluation script ([evals/index.eval.ts]) *)

Module Evals.

(** ** JavaScript values the script uses *)

(** [Math.round]: the nearest integer, a half goes up. *)
Definition round (x : JsNumber) : JsNumber :=
  match x with
  | Finite q => Finite (inject_Z (Qfloor (q + (1 # 2))))
  | _ => x
  end.

(** The number of a count ([.length]). *)
Definition ofNat (n : nat) : JsNumber := Finite (inject_Z (Z.of_nat n)).

(** [Math.round((success / total) * 100)] *)
Definition percentage (success total : nat) : JsNumber :=
  round (JsNum.mul (JsNum.div (ofNat success) (ofNat total)) (Finite 100)).

(** A plain object used as a map: its own properties.  An object that is
    given ([tasksByName]) lists them in the order of [Object.keys]; an object
    that is built here lists them in the order in which they were added,
    which is the order of enumeration but for keys that look like integers.
    The objects built here are read by [get] and [getOwn] only, and the one
    loop over the entries of such an object builds another. *)
Definition JsObject (A : Type) : Type := list (string * A).

(** The properties every plain object inherits from [Object.prototype]; all
    of them are truthy, and none has a property of the names read below. *)
Definition objectPrototype : list string :=
  ["constructor"; "__defineGetter__"; "__defineSetter__"; "hasOwnProperty";
   "__lookupGetter__"; "__lookupSetter__"; "isPrototypeOf"; "propertyIsEnumerable";
   "toString"; "valueOf"; "__proto__"; "toLocaleString"].

Inductive Property (A : Type) :=
| Own (a : A)
| Inherited
| Absent.
Arguments Own {A} a.
Arguments Inherited {A}.
Arguments Absent {A}.

Definition getOwn {A} (o : JsObject A) (key : string) : option A :=
  option_map snd (find (fun kv => String.eqb (fst kv) key) o).

(** [o[key]] *)
Definition get {A} (o : JsObject A) (key : string) : Property A :=
  match getOwn o key with
  | Some a => Own a
  | None => if existsb (String.eqb key) objectPrototype then Inherited else Absent
  end.

Fixpoint set {A} (o : JsObject A) (key : string) (v : A) : JsObject A :=
  match o with
  | [] => [(key, v)]
  | (k, a) :: r => if String.eqb k key then (k, v) :: r else (k, a) :: set r key v
  end.

(** [o[key] = v] for a value [v] that is no object: the setter of
    [__proto__] ignores it. *)
Definition assign {A} (o : JsObject A) (key : string) (v : A) : JsObject A :=
  if String.eqb key "__proto__" then o else set o key v.

(** [Object.keys(o)] *)
Definition keys {A} (o : JsObject A) : list string := map fst o.

(** [[...new Set(l)]]: the first occurrence of each element. *)
Fixpoint distinct (l : list string) : list string :=
  match l with
  | [] => []
  | x :: r => x :: filter (fun y => negb (String.eqb y x)) (distinct r)
  end.

(** [l.includes(x)] *)
Definition includes (l : list string) (x : string) : bool := existsb (String.eqb x) l.

Definition typeError (msg : string) : Exn :=
  {| className := OtherError; message := msg; stack := "" |}.

(** Callbacks that can throw, run over an array in order. *)
Definition andThen {A B} (r : Result A) (k : A -> Result B) : Result B :=
  match r with
  | Returned a => k a
  | Thrown e => Thrown e
  end.

Fixpoint mapR {A B} (f : A -> Result B) (l : list A) : Result (list B) :=
  match l with
  | [] => Returned []
  | a :: r =>
      andThen (f a) (fun b => andThen (mapR f r) (fun bs => Returned (b :: bs)))
  end.

Fixpoint filterR {A} (p : A -> Result bool) (l : list A) : Result (list A) :=
  match l with
  | [] => Returned []
  | a :: r =>
      andThen (p a) (fun keep =>
      andThen (filterR p r) (fun kept => Returned (if keep : bool then a :: kept else kept)))
  end.

Fixpoint someR {A} (p : A -> Result bool) (l : list A) : Result bool :=
  match l with
  | [] => Returned false
  | a :: r => andThen (p a) (fun found => if found : bool then Returned true else someR p r)
  end.

Fixpoint foldR {A B} (f : B -> A -> Result B) (l : list A) (b : B) : Result B :=
  match l with
  | [] => Returned b
  | a :: r => andThen (f b a) (foldR f r)
  end.

(** ** What the script reads of its types *)

(** A value of [tasksByName]. *)
Record Task := { categories : list string; extractMethod : option string }.

(** An entry of [tasksConfig]: its [name] and [categories]. *)
Record TaskConfig := { configName : string; configCategories : list string }.

Record Input := { name : string; modelName : string }.

(** The truthiness of [output._success]. *)
Record Output := { _success : bool }.

(** A [SummaryResult], of which [generateSummary] reads [input] and
    [output]. *)
Record SummaryResult := { input : Input; output : Output }.

(** An element of [passed] and [failed]: [eval], [model], [categories]. *)
Record Verdict :=
  { eval : string; model : string; verdictCategories : option (list string) }.

Record Counts := { total : nat; success : nat }.

(** The object written to [eval-summary.json]; [categoryRates] and
    [modelRates] are its [categories] and [models]. *)
Record Summary :=
  { experimentName : string;
    passed : list Verdict;
    failed : list Verdict;
    categoryRates : JsObject JsNumber;
    modelRates : JsObject JsNumber }.

(** What [generateSummary] does to the outside: the call of
    [fs.writeFileSync] with its outcome, and the line on the console.  The
    text that [JSON.stringify] makes of the summary is not modelled: the
    write carries the summary. *)
Inductive Effect :=
| WriteFileSync (path : string) (data : Summary) (outcome : option Exn)
| ConsoleLog (line : string).

(** [metadata] of a testcase: [model], [test], [categories]. *)
Record Metadata :=
  { metadataModel : string; test : string; metadataCategories : option (list string) }.

(** A testcase: [input], [name], [tags], [metadata], [expected]. *)
Record Testcase :=
  { testcaseInput : Input;
    testcaseName : string;
    tags : list string;
    metadata : Metadata;
    expected : bool }.

Section Imports.

(** What the module imports from [./taskConfig], [./args] and [./env];
    [filterByCategory] and [filterByEvalName] are a string or [null]. *)
Variable tasksByName : JsObject Task.
Variable MODELS : list string.
Variable tasksConfig : list TaskConfig.
Variable DEFAULT_EVAL_CATEGORIES : list string.
Variable filterByCategory : option string.
Variable filterByEvalName : option string.
Variable env : string.

(** [tasksByName[name].categories]: [undefined] on an inherited property, a
    TypeError on no property at all. *)
Definition categoriesOf (name : string) : Result (option (list string)) :=
  match get tasksByName name with
  | Own task => Returned (Some (categories task))
  | Inherited => Returned None
  | Absent =>
      Thrown (typeError "Cannot read properties of undefined (reading 'categories')")
  end.

(** ** [generateSummary] *)

Definition succeeded (r : SummaryResult) : bool := _success (output r).

Definition verdict (r : SummaryResult) : Result Verdict :=
  andThen (categoriesOf (name (input r))) (fun taskCategories =>
  Returned {| eval := name (input r); model := modelName (input r);
              verdictCategories := taskCategories |}).

(** The body of the loop over [taskCategories]: an inherited property is
    truthy, so it is not replaced, and takes the sums in place of the
    object's own. *)
Definition addToCategory (taskResults successCount : nat)
    (categorySuccessCounts : JsObject Counts) (cat : string) : JsObject Counts :=
  match get categorySuccessCounts cat with
  | Own counts =>
      set categorySuccessCounts cat
        {| total := total counts + taskResults; success := success counts + successCount |}
  | Inherited => categorySuccessCounts
  | Absent =>
      set categorySuccessCounts cat
        {| total := 0 + taskResults; success := 0 + successCount |}
  end.

(** The body of the loop over [Object.keys(tasksByName)]. *)
Definition countTask (results : list SummaryResult)
    (categorySuccessCounts : JsObject Counts) (taskName : string)
    : Result (JsObject Counts) :=
  andThen (categoriesOf taskName) (fun taskCategories =>
  let taskResults := filter (fun r => String.eqb (name (input r)) taskName) results in
  let successCount := length (filter succeeded taskResults) in
  match taskCategories with
  | Some taskCategories =>
      Returned (fold_left (addToCategory (length taskResults) successCount)
                          taskCategories categorySuccessCounts)
  | None => Thrown (typeError "taskCategories is not iterable")
  end).

(** The summary that [generateSummary] writes to [eval-summary.json];
    [Thrown] when it throws before it writes. *)
Definition generateSummary (results : list SummaryResult) (experimentName : string)
    : Result Summary :=
  andThen (mapR verdict (filter succeeded results)) (fun passed =>
  andThen (mapR verdict (filter (fun r => negb (succeeded r)) results)) (fun failed =>
  andThen (foldR (countTask results) (keys tasksByName) []) (fun categorySuccessCounts =>
  let categories :=
    fold_left (fun categories (entry : string * Counts) =>
                 let (cat, counts) := entry in
                 assign categories cat (percentage (success counts) (total counts)))
              categorySuccessCounts [] in
  let allModels := distinct (map (fun r => modelName (input r)) results) in
  let models :=
    fold_left (fun models model =>
                 let modelResults :=
                   filter (fun r => String.eqb (modelName (input r)) model) results in
                 let successCount := length (filter succeeded modelResults) in
                 assign models model (percentage successCount (length modelResults)))
              allModels [] in
  Returned {| experimentName := experimentName; passed := passed; failed := failed;
              categoryRates := categories; modelRates := models |}))).

(** [generateSummary] as a whole: the summary above is computed, written
    with [fs.writeFileSync], and the console line follows a write that
    succeeded.  [writeFileSync] is the file system: the outcome of writing a
    summary under a name, an error when the write fails. *)
Definition runGenerateSummary (writeFileSync : string -> Summary -> option Exn)
    (results : list SummaryResult) (experimentName : string)
    : list Effect * Result unit :=
  match generateSummary results experimentName with
  | Thrown e => ([], Thrown e)
  | Returned formattedSummary =>
      match writeFileSync "eval-summary.json" formattedSummary with
      | Some e => ([WriteFileSync "eval-summary.json" formattedSummary (Some e)], Thrown e)
      | None =>
          ([WriteFileSync "eval-summary.json" formattedSummary None;
            ConsoleLog "Evaluation summary written to eval-summary.json"],
           Returned tt)
      end
  end.

(** ** [generateFilteredTestcases] *)

(** [tasksConfig.find((t) => t.name === testName)?.categories] *)
Definition configuredCategories (testName : string) : option (list string) :=
  option_map configCategories
    (find (fun t => String.eqb (configName t) testName) tasksConfig).

Definition testcase (model testName : string) : Testcase :=
  {| testcaseInput := {| name := testName; modelName := model |};
     testcaseName := testName;
     tags := model :: testName
             :: map (fun x => "category/" ++ x)
                    (match configuredCategories testName with
                     | Some l => l
                     | None => []
                     end);
     metadata := {| metadataModel := model; test := testName;
                    metadataCategories := configuredCategories testName |};
     expected := true |}.

(** [tasksByName[testcase.name].categories.includes(category)] *)
Definition inCategory (testcase : Testcase) (category : string) : Result bool :=
  andThen (categoriesOf (testcaseName testcase)) (fun taskCategories =>
  match taskCategories with
  | Some taskCategories => Returned (includes taskCategories category)
  | None => Thrown (typeError "Cannot read properties of undefined (reading 'includes')")
  end).

(** The truthiness of a string or [null]. *)
Definition given (filter : option string) : option string :=
  match filter with
  | Some s => if String.eqb s "" then None else Some s
  | None => None
  end.

(** The testcases [generateFilteredTestcases] returns; the listing it
    prints is left out. *)
Definition generateFilteredTestcases : Result (list Testcase) :=
  let allTestcases :=
    flat_map (fun model => map (fun testName => testcase model testName)
                               (keys tasksByName)) MODELS in
  andThen (filterR (fun testcase => someR (inCategory testcase) DEFAULT_EVAL_CATEGORIES)
                   allTestcases) (fun allTestcases =>
  andThen (match given filterByCategory with
           | Some category =>
               filterR (fun testcase => inCategory testcase category) allTestcases
           | None => Returned allTestcases
           end) (fun allTestcases =>
  let allTestcases :=
    match given filterByEvalName with
    | Some evalName =>
        filter (fun testcase => String.eqb (testcaseName testcase) evalName
                                || String.eqb (name (testcaseInput testcase)) evalName)
               allTestcases
    | None => allTestcases
    end in
  let allTestcases :=
    if String.eqb env "BROWSERBASE"
    then filter (fun testcase =>
                   negb (includes ["peeler_simple"; "stock_x"] (testcaseName testcase)))
                allTestcases
    else allTestcases in
  Returned allTestcases)).

End Imports.

(** A small run, for the examples: three tasks, of which [history] was not
    run, and two models. *)
Module Run.

Definition tasksByName : JsObject Task :=
  [("login", {| categories := ["act"]; extractMethod := None |});
   ("prices", {| categories := ["extract"; "regression"];
                 extractMethod := Some "textExtract" |});
   ("history", {| categories := ["observe"]; extractMethod := None |})].

Definition result (taskName model : string) (ok : bool) : SummaryResult :=
  {| input := {| name := taskName; modelName := model |};
     output := {| _success := ok |} |}.

Definition results : list SummaryResult :=
  [result "login" "gpt-4o" true;
   result "login" "claude-3-5-sonnet-latest" false;
   result "prices" "gpt-4o" true;
   result "prices" "claude-3-5-sonnet-latest" true].

Definition summary : Summary :=
  {| experimentName := "run";
     passed :=
       [{| eval := "login"; model := "gpt-4o"; verdictCategories := Some ["act"] |};
        {| eval := "prices"; model := "gpt-4o";
           verdictCategories := Some ["extract"; "regression"] |};
        {| eval := "prices"; model := "claude-3-5-sonnet-latest";
           verdictCategories := Some ["extract"; "regression"] |}];
     failed :=
       [{| eval := "login"; model := "claude-3-5-sonnet-latest";
           verdictCategories := Some ["act"] |}];
     categoryRates :=
       [("act", Finite 50); ("extract", Finite 100); ("regression", Finite 100);
        ("observe", NaN)];
     modelRates := [("gpt-4o", Finite 100); ("claude-3-5-sonnet-latest", Finite 50)] |}.

End Run.

End Evals.

(** ** Vocabulary for the evaluation summary *)

(** A verdict of the list [vs] is about the model [m]. *)
Definition reportsModel (vs : list Evals.Verdict) (m : string) : Prop :=
  exists v, In v vs /\ Evals.model v = m.

(** The key names a property that plain objects inherit. *)
Definition inherited (key : string) : bool :=
  existsb (String.eqb key) Evals.objectPrototype.

(** The results of the task [taskName]. *)
Definition resultsOf (results : list Evals.SummaryResult) (taskName : string)
    : list Evals.SummaryResult :=
  filter (fun r => String.eqb (Evals.name (Evals.input r)) taskName) results.

(** Some task of [tasksByName] lists the category [c]. *)
Definition listed (tasksByName : Evals.JsObject Evals.Task) (c : string) : Prop :=
  exists taskName task, In (taskName, task) tasksByName /\ In c (Evals.categories task).

(** The result [r] is of a task that lists the category [c]. *)
Definition countedIn (tasksByName : Evals.JsObject Evals.Task) (c : string)
    (r : Evals.SummaryResult) : Prop :=
  exists task, In (Evals.name (Evals.input r), task) tasksByName
               /\ In c (Evals.categories task).

(** What the object [counts] holds for the category [c]. *)
Definition recorded (counts : Evals.JsObject Evals.Counts) (c : string) : bool :=
  match Evals.getOwn counts c with Some _ => true | None => false end.

Definition totalOf (counts : Evals.JsObject Evals.Counts) (c : string) : nat :=
  match Evals.getOwn counts c with Some k => Evals.total k | None => 0 end.

Definition successOf (counts : Evals.JsObject Evals.Counts) (c : string) : nat :=
  match Evals.getOwn counts c with Some k => Evals.success k | None => 0 end.

(** The results, and the successes, of the tasks [l] that list the category
    [c], each counted as often as its task lists [c]. *)
Definition totalIn (results : list Evals.SummaryResult) (l : Evals.JsObject Evals.Task)
    (c : string) : nat :=
  list_sum (map (fun kv => count_occ string_dec (Evals.categories (snd kv)) c
                           * length (resultsOf results (fst kv)))%nat l).

Definition successIn (results : list Evals.SummaryResult) (l : Evals.JsObject Evals.Task)
    (c : string) : nat :=
  list_sum (map (fun kv => count_occ string_dec (Evals.categories (snd kv)) c
                           * length (filter Evals.succeeded (resultsOf results (fst kv))))%nat
                l).

(** The verdict [v] is that of the result [r]: its task, its model, and
    the categories of the task (none for a name that is only inherited). *)
Definition verdictOf (tasksByName : Evals.JsObject Evals.Task) (r : Evals.SummaryResult)
    (v : Evals.Verdict) : Prop :=
  Evals.eval v = Evals.name (Evals.input r)
  /\ Evals.model v = Evals.modelName (Evals.input r)
  /\ Evals.verdictCategories v =
       option_map Evals.categories (Evals.getOwn tasksByName (Evals.name (Evals.input r))).

(** The error of reading [categories] of a task that does not exist. *)
Definition noSuchTask : Exn :=
  Evals.typeError "Cannot read properties of undefined (reading 'categories')".

(** The task [taskName], with the categories [taskCategories], passes the
    four filters of [generateFilteredTestcases]. *)
Definition selects (DEFAULT_EVAL_CATEGORIES : list string)
    (filterByCategory filterByEvalName : option string) (env : string)
    (taskName : string) (taskCategories : list string) : bool :=
  existsb (Evals.includes taskCategories) DEFAULT_EVAL_CATEGORIES
  && match Evals.given filterByCategory with
     | Some category => Evals.includes taskCategories category
     | None => true
     end
  && match Evals.given filterByEvalName with
     | Some evalName => String.eqb taskName evalName
     | None => true
     end
  && (if String.eqb env "BROWSERBASE"
      then negb (Evals.includes ["peeler_simple"; "stock_x"] taskName)
      else true).

(** The names of the tasks of [tasksByName] that pass the filters, in the
    order of its keys. *)
Definition selectedTasks (tasksByName : Evals.JsObject Evals.Task)
    (DEFAULT_EVAL_CATEGORIES : list string)
    (filterByCategory filterByEvalName : option string) (env : string) : list string :=
  filter (fun taskName =>
            match Evals.getOwn tasksByName taskName with
            | Some task =>
                selects DEFAULT_EVAL_CATEGORIES filterByCategory filterByEvalName env
                  taskName (Evals.categories task)
            | None => false
            end)
         (Evals.keys tasksByName).

(** * Properties *)

(** ** Computations *)

Section Plumbing.

Context {A B : Type}.

Lemma bind_ret (a : A) (k : A -> M B) w h : bind (ret a) k w h = k a w h.
Proof. unfold bind, ret. cbn. destruct (k a w h). reflexivity. Qed.

Lemma bind_read (f : World -> Trace -> A) (k : A -> M B) w h :
  bind (read f) k w h = k (f w h) w h.
Proof. unfold bind, read. cbn. destruct (k (f w h) w h). reflexivity. Qed.

Lemma bind_query (f : World -> Trace -> Result A) (k : A -> M B) w h :
  bind (query f) k w h =
  match f w h with
  | Returned a => k a w h
  | Thrown e => ([], Thrown e)
  end.
Proof.
  unfold bind, query. destruct (f w h) as [a | e]; [ | reflexivity].
  cbn. destruct (k a w h). reflexivity.
Qed.

Lemma bind_emit (ev : Event) (k : unit -> M B) w h :
  bind (emit ev) k w h = (ev :: fst (k tt w (ev :: h)), snd (k tt w (ev :: h))).
Proof. unfold bind, emit. cbn. destruct (k tt w (ev :: h)). reflexivity. Qed.

Lemma bind_call f (ev : option Exn -> Event) (k : unit -> M B) w h :
  bind (call f ev) k w h =
  match f w h with
  | None => (ev None :: fst (k tt w (ev None :: h)), snd (k tt w (ev None :: h)))
  | Some e => ([ev (Some e)], Thrown e)
  end.
Proof.
  unfold bind, call. destruct (f w h) as [e | ]; [reflexivity | ].
  cbn. destruct (k tt w (ev None :: h)). reflexivity.
Qed.

Lemma bind_events (m : M A) (k : A -> M B) w h :
  fst (bind m k w h) =
  (fst (m w h) ++
   match snd (m w h) with
   | Returned a => fst (k a w (after (fst (m w h)) h))
   | Thrown _ => []
   end)%list.
Proof.
  unfold bind. destruct (m w h) as [ev1 [a | e]]; cbn [fst snd].
  - destruct (k a w (after ev1 h)). reflexivity.
  - now rewrite app_nil_r.
Qed.

End Plumbing.

Lemma after_app (ev1 ev2 h : Trace) :
  after (ev1 ++ ev2)%list h = after ev2 (after ev1 h).
Proof.
  unfold after. revert h. induction ev1 as [ | e ev1 IH]; intros h; cbn;
    [reflexivity | apply IH].
Qed.

Lemma bind_assoc {A B C} (m : M A) (k1 : A -> M B) (k2 : B -> M C) w h :
  bind (bind m k1) k2 w h = bind m (fun x => bind (k1 x) k2) w h.
Proof.
  unfold bind. destruct (m w h) as [ev1 [a | e]]; [ | reflexivity].
  destruct (k1 a w (after ev1 h)) as [ev2 [b | e]]; [ | reflexivity].
  rewrite after_app. destruct (k2 b w (after ev2 (after ev1 h))) as [ev3 r].
  now rewrite app_assoc.
Qed.

Section EmitsOnly.

Variable P : Event -> Prop.

Lemma emitsOnly_ret {A} (a : A) : emitsOnly P (ret a).
Proof. intros w h. constructor. Qed.

Lemma emitsOnly_throw {A} (e : Exn) : emitsOnly P (@throw A e).
Proof. intros w h. constructor. Qed.

Lemma emitsOnly_read {A} (f : World -> Trace -> A) : emitsOnly P (read f).
Proof. intros w h. constructor. Qed.

Lemma emitsOnly_query {A} (f : World -> Trace -> Result A) : emitsOnly P (query f).
Proof. intros w h. constructor. Qed.

Lemma emitsOnly_emit (ev : Event) : P ev -> emitsOnly P (emit ev).
Proof. intros Hev w h. repeat constructor. exact Hev. Qed.

Lemma emitsOnly_call f (ev : option Exn -> Event) :
  (forall o, P (ev o)) -> emitsOnly P (call f ev).
Proof. intros Hev w h. repeat constructor. apply Hev. Qed.

Lemma emitsOnly_bind {A B} (m : M A) (k : A -> M B) :
  emitsOnly P m -> (forall a, emitsOnly P (k a)) -> emitsOnly P (bind m k).
Proof.
  intros Hm Hk w h. rewrite bind_events. apply Forall_app. split; [apply Hm | ].
  destruct (snd (m w h)); [apply Hk | constructor].
Qed.

Lemma emitsOnly_tryCatch {A} (m : M A) (handler : Exn -> M A) :
  emitsOnly P m -> (forall e, emitsOnly P (handler e)) -> emitsOnly P (tryCatch m handler).
Proof.
  intros Hm Hh w h. unfold tryCatch. specialize (Hm w h).
  destruct (m w h) as [ev1 [a | e]]; [exact Hm | ].
  specialize (Hh e w (after ev1 h)). destruct (handler e w (after ev1 h)) as [ev2 r].
  apply Forall_app. split; assumption.
Qed.

End EmitsOnly.

(** Applies the rules of [emitsOnly] along the structure of a handler. *)
Ltac emits :=
  repeat first
    [ apply emitsOnly_ret | apply emitsOnly_throw | apply emitsOnly_read
    | apply emitsOnly_query
    | apply emitsOnly_emit
    | apply emitsOnly_call; intros ?
    | apply emitsOnly_bind; [ | intros ? ]
    | apply emitsOnly_tryCatch; [ | intros ? ]
    | match goal with
      | |- emitsOnly _ (if ?b then _ else _) => destruct b
      | |- emitsOnly _ (match ?x with _ => _ end) => destruct x
      end ].

Lemma no_clicks (evs : Trace) :
  Forall (fun ev => isClick ev = false) evs -> clicksOf evs = [].
Proof.
  induction 1 as [ | ev evs Hev _ IH]; [reflexivity | ].
  unfold clicksOf in *. cbn. now rewrite Hev.
Qed.


(** ** Percentage parser *)

Section PercentParser.

Local Open Scope Q_scope.

Lemma clamp_range (num : JsNumber) :
  exists q,
    (if JsNum.isNaN num then Finite 0
     else JsNum.max (Finite 0) (JsNum.min num (Finite 100))) = Finite q
    /\ 0 <= q <= 100.
Proof.
  destruct num as [ | [ | ] | q ].
  - exists 0; split; [reflexivity | lra].
  - exists 0; split; [reflexivity | lra].
  - exists 100; split; [reflexivity | lra].
  - cbv beta iota delta [JsNum.isNaN JsNum.min].
    destruct (q ?= 100) eqn:Hhi;
      [apply Qeq_alt in Hhi | apply Qlt_alt in Hhi | exists 100; split; [reflexivity | lra]];
      cbv beta iota delta [JsNum.max];
      (destruct (0 ?= q) eqn:Hlo;
       [apply Qeq_alt in Hlo | apply Qlt_alt in Hlo | apply Qgt_alt in Hlo];
       [exists 0 | exists q | exists 0]; (split; [reflexivity | lra])).
Qed.

Lemma parsePercent_range (s : string) :
  exists q, parsePercent s = Finite q /\ 0 <= q <= 100.
Proof. unfold parsePercent. apply clamp_range. Qed.

Lemma replace_percent_at_end (t : string) :
  percentOnlyAtEnd t = true ->
  JsString.replace "%" "" t = stripTrailingPercent t.
Proof.
  induction t as [ | c r IH]; intros Hend.
  - reflexivity.
  - cbn [percentOnlyAtEnd] in Hend.
    cbn [JsString.replace String.prefix stripTrailingPercent].
    destruct (Ascii.eqb_spec c "%") as [-> | Hc].
    + apply String.eqb_eq in Hend. subst r. reflexivity.
    + destruct (ascii_dec "%" c) as [E | _]; [congruence | ].
      rewrite (IH Hend). destruct r; reflexivity.
Qed.

Lemma replace_first_percent (pre post : string) :
  ~ JsString.contains pre "%" ->
  JsString.replace "%" "" (pre ++ "%" ++ post) = pre ++ post.
Proof.
  induction pre as [ | c r IH]; intros Hfree.
  - destruct post; reflexivity.
  - assert (Hc : c <> "%"%char).
    { intros ->. apply Hfree. exists "", r. reflexivity. }
    assert (Hr : ~ JsString.contains r "%").
    { intros [a [b ->]]. apply Hfree. exists (String c a), b. reflexivity. }
    cbn [append JsString.replace String.prefix].
    destruct (ascii_dec "%" c) as [E | _]; [congruence | ].
    f_equal. exact (IH Hr).
Qed.

Lemma replace_no_percent (t : string) :
  ~ JsString.contains t "%" -> JsString.replace "%" "" t = t.
Proof.
  induction t as [ | c r IH]; intros Hfree.
  - reflexivity.
  - assert (Hc : c <> "%"%char).
    { intros ->. apply Hfree. exists "", r. reflexivity. }
    assert (Hr : ~ JsString.contains r "%").
    { intros [a [b ->]]. apply Hfree. exists (String c a), b. reflexivity. }
    cbn [JsString.replace String.prefix].
    destruct (ascii_dec "%" c) as [E | _]; [congruence | ].
    f_equal. exact (IH Hr).
Qed.

(** C5, as amended.  For every input string [s], [parsePercent s] trims
    surrounding white space, removes the first [%] wherever it stands, parses
    what is left with [parseFloat], gives 0 when that is NaN and clamps the
    number into [0, 100].  So, with [t] the trimmed input: when [t] has no
    [%], it is [t] that is parsed; when [t] is [pre], a [%], [post], with no
    [%] in [pre], it is [pre] followed by [post] -- whatever [post] is.  It
    agrees with "strip a trailing [%]" on every input whose only [%], if any,
    is its last character after trimming; and [parsePercent "150%" = 100],
    [parsePercent "-10" = 0], [parsePercent "abc" = 0],
    [parsePercent " 37.5% " = 37.5], while [parsePercent "%50" = 50] and
    [parsePercent "5%0" = 50]. *)
Theorem parsePercent_contract (s : string) :
  let clamped := fun num : JsNumber =>
    match num with
    | NaN => Finite 0
    | _ => JsNum.max (Finite 0) (JsNum.min num (Finite 100))
    end in
  JsNum.between 0 100 (parsePercent s)
  /\ (JsNum.parseFloat (JsString.replace "%" "" (JsString.trim s)) = NaN ->
      parsePercent s = Finite 0)
  /\ (percentOnlyAtEnd (JsString.trim s) = true ->
      parsePercent s = parsePercentAsDescribed s)
  /\ (~ JsString.contains (JsString.trim s) "%" ->
      parsePercent s = clamped (JsNum.parseFloat (JsString.trim s)))
  /\ (forall pre post,
        JsString.trim s = pre ++ "%" ++ post -> ~ JsString.contains pre "%" ->
        parsePercent s = clamped (JsNum.parseFloat (pre ++ post)))
  /\ parsePercent "150%" = Finite 100
  /\ parsePercent "-10" = Finite 0
  /\ parsePercent "abc" = Finite 0
  /\ JsNum.same (parsePercent " 37.5% ") (Finite 37.5)
  /\ parsePercent "%50" = Finite 50
  /\ parsePercent "5%0" = Finite 50.
Proof.
  intros clamped.
  assert (Hclamped : forall t,
            (let num := JsNum.parseFloat t in
             if JsNum.isNaN num then Finite 0
             else JsNum.max (Finite 0) (JsNum.min num (Finite 100)))
            = clamped (JsNum.parseFloat t)).
  { intros t. cbv zeta. destruct (JsNum.parseFloat t); reflexivity. }
  split; [ | split; [ | split; [ | split; [ | split]]]].
  - destruct (parsePercent_range s) as [q [-> Hq]]. exact Hq.
  - intros Hnan. unfold parsePercent. rewrite Hnan. reflexivity.
  - intros Hend. unfold parsePercent, parsePercentAsDescribed.
    rewrite (replace_percent_at_end _ Hend). reflexivity.
  - intros Hfree. unfold parsePercent. rewrite (replace_no_percent _ Hfree).
    apply Hclamped.
  - intros pre post Htrim Hfree. unfold parsePercent.
    rewrite Htrim, (replace_first_percent pre post Hfree). apply Hclamped.
  - repeat split; vm_compute; reflexivity.
Qed.

Lemma parsePercent_contract_at_50 :
  percentOnlyAtEnd (JsString.trim " 50% ") = true
  /\ parsePercent " 50% " = parsePercentAsDescribed " 50% ".
Proof.
  split.
  - reflexivity.
  - destruct (parsePercent_contract " 50% ") as [_ [_ [Hend _]]].
    apply Hend. reflexivity.
Defined.

(** C5, the claim as stated fails: a [%] that is not the last character is
    removed too.  ["%50"] gives 50 where stripping a trailing [%] leaves a
    text that is no number, and ["5%0"] gives 50 where it leaves 5. *)
Lemma parsePercent_inner_percent :
  parsePercent "%50" = Finite 50
  /\ parsePercentAsDescribed "%50" = Finite 0
  /\ parsePercent "5%0" = Finite 50
  /\ parsePercentAsDescribed "5%0" = Finite 5
  /\ ~ JsNum.same (parsePercent "%50") (parsePercentAsDescribed "%50").
Proof.
  repeat split; try (vm_compute; reflexivity).
  vm_compute. discriminate.
Qed.

End PercentParser.

(** ** Scroll handlers *)

Lemma asElement_unresolved (node : option Node) :
  unresolved node -> asElement node = None.
Proof.
  intros [-> | [n [-> Hty]]]; [reflexivity | ].
  unfold asElement. destruct (Z.eqb_spec (nodeType n) ELEMENT_NODE); congruence.
Qed.

Lemma asElement_resolved (n : Node) :
  nodeType n = ELEMENT_NODE -> asElement (Some n) = Some (element n).
Proof. intros Hty. unfold asElement. rewrite Hty. reflexivity. Qed.

Lemma scrollElementToPercentage_unresolved w ctx h node :
  w_getNodeFromXpath w (Log (percentageLog ctx) :: h) (xpath ctx) = Returned node ->
  unresolved node ->
  scrollElementToPercentage ctx w h =
    ([Log (percentageLog ctx); ConsoleWarn "Could not locate element to scroll on."],
     Returned tt).
Proof.
  intros Hnode Hun. unfold scrollElementToPercentage, percentageScript. exec.
  rewrite Hnode, (asElement_unresolved _ Hun). reflexivity.
Qed.

Lemma scrollToNextChunk_unresolved w ctx h node :
  w_getNodeFromXpath w (Log (nextChunkLog ctx) :: h) (xpath ctx) = Returned node ->
  unresolved node ->
  scrollToNextChunk ctx w h =
    ([Log (nextChunkLog ctx);
      ConsoleWarn "Could not locate element to scroll by its height."],
     Returned tt).
Proof.
  intros Hnode Hun. unfold scrollToNextChunk. exec.
  rewrite Hnode, (asElement_unresolved _ Hun). reflexivity.
Qed.

Lemma scrollToPreviousChunk_unresolved w ctx h node :
  w_getNodeFromXpath w (Log (previousChunkLog ctx) :: h) (xpath ctx) = Returned node ->
  unresolved node ->
  scrollToPreviousChunk ctx w h =
    ([Log (previousChunkLog ctx);
      ConsoleWarn "Could not locate element to scroll by its height."],
     Returned tt).
Proof.
  intros Hnode Hun. unfold scrollToPreviousChunk. exec.
  rewrite Hnode, (asElement_unresolved _ Hun). reflexivity.
Qed.

Lemma scrollToNextChunk_root w ctx h n :
  w_getNodeFromXpath w (Log (nextChunkLog ctx) :: h) (xpath ctx) = Returned (Some n) ->
  nodeType n = ELEMENT_NODE ->
  isRoot (element n) = true ->
  let h1 := Log (nextChunkLog ctx) :: h in
  let scroll := WindowScrollBy (smooth (Finite (w_visualViewportHeight w h1)) (Finite 0)) in
  let target := scrollingRoot w (scroll :: h1) in
  let tail := chunkTail "error scrolling to next chunk" ctx target
                (w_waitForElementScrollEnd w (scroll :: h1) target) in
  scrollToNextChunk ctx w h = (Log (nextChunkLog ctx) :: scroll :: fst tail, snd tail).
Proof.
  intros Hnode Hty Hroot. unfold scrollToNextChunk. exec.
  rewrite Hnode, (asElement_resolved _ Hty).
  unfold isRoot in Hroot. rewrite Hroot.
  unfold scrollingRoot, chunkTail.
  destruct (w_waitForElementScrollEnd _ _ _); reflexivity.
Qed.

Lemma scrollToNextChunk_element w ctx h n :
  w_getNodeFromXpath w (Log (nextChunkLog ctx) :: h) (xpath ctx) = Returned (Some n) ->
  nodeType n = ELEMENT_NODE ->
  isRoot (element n) = false ->
  let h1 := Log (nextChunkLog ctx) :: h in
  let el := element n in
  let scroll := ElementScrollBy el (smooth (Finite (boundingHeight el)) (Finite 0)) in
  let tail := chunkTail "error scrolling to next chunk" ctx el
                (w_waitForElementScrollEnd w (scroll :: h1) el) in
  scrollToNextChunk ctx w h = (Log (nextChunkLog ctx) :: scroll :: fst tail, snd tail).
Proof.
  intros Hnode Hty Hroot. unfold scrollToNextChunk. exec.
  rewrite Hnode, (asElement_resolved _ Hty).
  unfold isRoot in Hroot. rewrite Hroot.
  unfold chunkTail.
  destruct (w_waitForElementScrollEnd _ _ _); reflexivity.
Qed.

Lemma scrollToPreviousChunk_root w ctx h n :
  w_getNodeFromXpath w (Log (previousChunkLog ctx) :: h) (xpath ctx) = Returned (Some n) ->
  nodeType n = ELEMENT_NODE ->
  isRoot (element n) = true ->
  let h1 := Log (previousChunkLog ctx) :: h in
  let scroll :=
    WindowScrollBy (smooth (Finite (- w_visualViewportHeight w h1)) (Finite 0)) in
  let target := scrollingRoot w (scroll :: h1) in
  let tail := chunkTail "error scrolling to previous chunk" ctx target
                (w_waitForElementScrollEnd w (scroll :: h1) target) in
  scrollToPreviousChunk ctx w h =
    (Log (previousChunkLog ctx) :: scroll :: fst tail, snd tail).
Proof.
  intros Hnode Hty Hroot. unfold scrollToPreviousChunk. exec.
  rewrite Hnode, (asElement_resolved _ Hty).
  unfold isRoot in Hroot. rewrite Hroot.
  unfold scrollingRoot, chunkTail.
  destruct (w_waitForElementScrollEnd _ _ _); reflexivity.
Qed.

Lemma scrollToPreviousChunk_element w ctx h n :
  w_getNodeFromXpath w (Log (previousChunkLog ctx) :: h) (xpath ctx) = Returned (Some n) ->
  nodeType n = ELEMENT_NODE ->
  isRoot (element n) = false ->
  let h1 := Log (previousChunkLog ctx) :: h in
  let el := element n in
  let scroll := ElementScrollBy el (smooth (Finite (- boundingHeight el)) (Finite 0)) in
  let tail := chunkTail "error scrolling to previous chunk" ctx el
                (w_waitForElementScrollEnd w (scroll :: h1) el) in
  scrollToPreviousChunk ctx w h =
    (Log (previousChunkLog ctx) :: scroll :: fst tail, snd tail).
Proof.
  intros Hnode Hty Hroot. unfold scrollToPreviousChunk. exec.
  rewrite Hnode, (asElement_resolved _ Hty).
  unfold isRoot in Hroot. rewrite Hroot.
  unfold chunkTail.
  destruct (w_waitForElementScrollEnd _ _ _); reflexivity.
Qed.

Lemma scrollElementToPercentage_resolved w ctx h n s :
  w_getNodeFromXpath w (Log (percentageLog ctx) :: h) (xpath ctx) = Returned (Some n) ->
  nodeType n = ELEMENT_NODE ->
  yArgOf (args ctx) = AString s ->
  let h1 := Log (percentageLog ctx) :: h in
  let el := element n in
  let ratio := JsNum.div (parsePercent s) (Finite 100) in
  scrollElementToPercentage ctx w h =
    ([Log (percentageLog ctx);
      if String.eqb (JsString.toLowerCase (tagName el)) "html"
      then WindowScrollTo
             (smooth (JsNum.mul (JsNum.sub (Finite (w_bodyScrollHeight w h1))
                                           (Finite (w_innerHeight w h1))) ratio)
                     (Finite (w_scrollX w h1)))
      else ElementScrollTo el
             (smooth (JsNum.mul (JsNum.sub (Finite (scrollHeight el))
                                           (Finite (clientHeight el))) ratio)
                     (Finite (scrollLeft el)))],
     Returned tt).
Proof.
  intros Hnode Hty Harg. unfold scrollElementToPercentage, percentageScript. exec.
  rewrite Hnode, (asElement_resolved _ Hty), Harg.
  destruct (String.eqb _ "html"); reflexivity.
Qed.

(** C6.  A percentage scroll on a resolved element with a text argument [s]
    issues exactly one scroll.  On the root document element ([html]) it is
    [window.scrollTo] with top [(body.scrollHeight - innerHeight) * ratio] and
    left [window.scrollX]; on any other element it is [element.scrollTo] with
    top [(scrollHeight - clientHeight) * ratio] and left [scrollLeft]; [ratio]
    is [parsePercent s / 100], a number in [0, 1].  The horizontal offset
    passed is the current one, so only the vertical axis moves. *)
Theorem percentage_scroll_offset w ctx h n s :
  w_getNodeFromXpath w (Log (percentageLog ctx) :: h) (xpath ctx) = Returned (Some n) ->
  nodeType n = ELEMENT_NODE ->
  yArgOf (args ctx) = AString s ->
  let h1 := Log (percentageLog ctx) :: h in
  let el := element n in
  exists p : Q,
    parsePercent s = Finite p /\ (0 <= p / 100 <= 1)%Q /\
    (JsString.toLowerCase (tagName el) = "html" ->
     scrollElementToPercentage ctx w h =
       ([Log (percentageLog ctx);
         WindowScrollTo
           {| top := Finite ((w_bodyScrollHeight w h1 - w_innerHeight w h1) * (p / 100));
              left := Finite (w_scrollX w h1);
              behavior := "smooth" |}],
        Returned tt)) /\
    (JsString.toLowerCase (tagName el) <> "html" ->
     scrollElementToPercentage ctx w h =
       ([Log (percentageLog ctx);
         ElementScrollTo el
           {| top := Finite ((scrollHeight el - clientHeight el) * (p / 100));
              left := Finite (scrollLeft el);
              behavior := "smooth" |}],
        Returned tt)).
Proof.
  intros Hnode Hty Harg h1 el.
  destruct (parsePercent_range s) as [p [Hp Hrange]].
  exists p. split; [exact Hp | ]. split.
  - split.
    + apply Qle_shift_div_l; lra.
    + apply Qle_shift_div_r; lra.
  - rewrite (scrollElementToPercentage_resolved w ctx h n s Hnode Hty Harg), Hp.
    fold el. split; intros Htag.
    + rewrite Htag. reflexivity.
    + apply String.eqb_neq in Htag. rewrite Htag. reflexivity.
Qed.

Lemma percentage_scroll_offset_on_html :
  exists p : Q,
    parsePercent "50%" = Finite p /\
    fst (run (scrollElementToPercentage (Script.ctx [AString "50%"]))
             (Script.world (Script.tagged "HTML") false "" [] (fun _ => None) None None)) =
      [Log (percentageLog (Script.ctx [AString "50%"]));
       WindowScrollTo {| top := Finite ((2600 - 600) * (p / 100));
                         left := Finite 7; behavior := "smooth" |}].
Proof.
  destruct (percentage_scroll_offset
              (Script.world (Script.tagged "HTML") false "" [] (fun _ => None) None None)
              (Script.ctx [AString "50%"]) []
              {| nodeType := ELEMENT_NODE;
                 element := {| tagName := "HTML"; boundingHeight := 40; scrollHeight := 900;
                               clientHeight := 300; scrollLeft := 5 |} |}
              "50%" eq_refl eq_refl eq_refl) as [p [Hp [_ [Hhtml _]]]].
  exists p. split; [exact Hp | ].
  unfold run. rewrite (Hhtml eq_refl). reflexivity.
Defined.

(** C7, as amended.  For a resolved element, [nextChunk] scrolls by the
    magnitude itself and [prevChunk] by the magnitude negated, on the same
    target; the magnitude is one viewport height, applied to the window, when
    the element is the root ([html] or [body]), and the element's bounding
    height, applied to the element, otherwise.  The next delta is positive
    (and the previous one negative) whenever the magnitude is not zero. *)
Theorem chunk_scroll_delta w ctx h n :
  (forall h', w_getNodeFromXpath w h' (xpath ctx) = Returned (Some n)) ->
  nodeType n = ELEMENT_NODE ->
  let el := element n in
  let viewportNext := w_visualViewportHeight w (Log (nextChunkLog ctx) :: h) in
  let viewportPrev := w_visualViewportHeight w (Log (previousChunkLog ctx) :: h) in
  (isRoot el = true ->
     (exists rest, fst (scrollToNextChunk ctx w h) =
        Log (nextChunkLog ctx)
        :: WindowScrollBy (smooth (Finite viewportNext) (Finite 0)) :: rest)
     /\ (exists rest, fst (scrollToPreviousChunk ctx w h) =
        Log (previousChunkLog ctx)
        :: WindowScrollBy (smooth (Finite (- viewportPrev)) (Finite 0)) :: rest))
  /\ (isRoot el = false ->
     (exists rest, fst (scrollToNextChunk ctx w h) =
        Log (nextChunkLog ctx)
        :: ElementScrollBy el (smooth (Finite (boundingHeight el)) (Finite 0)) :: rest)
     /\ (exists rest, fst (scrollToPreviousChunk ctx w h) =
        Log (previousChunkLog ctx)
        :: ElementScrollBy el (smooth (Finite (- boundingHeight el)) (Finite 0)) :: rest))
  /\ (forall m : Q, (0 < m)%Q ->
        JsNum.positive (Finite m) /\ JsNum.negative (Finite (- m))).
Proof.
  intros Hnode Hty el viewportNext viewportPrev. split; [ | split].
  - intros Hroot. split.
    + rewrite (scrollToNextChunk_root w ctx h n (Hnode _) Hty Hroot).
      eexists. reflexivity.
    + rewrite (scrollToPreviousChunk_root w ctx h n (Hnode _) Hty Hroot).
      eexists. reflexivity.
  - intros Hroot. split.
    + rewrite (scrollToNextChunk_element w ctx h n (Hnode _) Hty Hroot).
      eexists. reflexivity.
    + rewrite (scrollToPreviousChunk_element w ctx h n (Hnode _) Hty Hroot).
      eexists. reflexivity.
  - intros m Hm. unfold JsNum.positive, JsNum.negative. split; lra.
Qed.

Lemma chunk_scroll_delta_on_div :
  exists rest,
    fst (run (scrollToPreviousChunk (Script.ctx []))
             (Script.world (Script.div 40 900 300 5) false "" [] (fun _ => None) None None)) =
    Log (previousChunkLog (Script.ctx []))
    :: ElementScrollBy
         {| tagName := "DIV"; boundingHeight := 40; scrollHeight := 900;
            clientHeight := 300; scrollLeft := 5 |}
         (smooth (Finite (- 40)) (Finite 0)) :: rest.
Proof.
  apply (chunk_scroll_delta
           (Script.world (Script.div 40 900 300 5) false "" [] (fun _ => None) None None)
           (Script.ctx []) []
           {| nodeType := ELEMENT_NODE;
              element := {| tagName := "DIV"; boundingHeight := 40; scrollHeight := 900;
                            clientHeight := 300; scrollLeft := 5 |} |}).
  - intros h'. reflexivity.
  - reflexivity.
  - reflexivity.
Defined.

(** C7, the claim as stated fails for an element of height zero: the delta
    of [nextChunk] is then 0, which is not positive. *)
Lemma nextChunk_zero_height_delta :
  fst (run (scrollToNextChunk (Script.ctx []))
           (Script.world (Script.div 0 0 0 0) false "" [] (fun _ => None) None None)) =
    [Log (nextChunkLog (Script.ctx []));
     ElementScrollBy
       {| tagName := "DIV"; boundingHeight := 0; scrollHeight := 0; clientHeight := 0;
          scrollLeft := 0 |}
       (smooth (Finite 0) (Finite 0));
     WaitForElementScrollEnd
       {| tagName := "DIV"; boundingHeight := 0; scrollHeight := 0; clientHeight := 0;
          scrollLeft := 0 |} None]
  /\ ~ JsNum.positive (Finite 0).
Proof.
  split.
  - reflexivity.
  - unfold JsNum.positive. lra.
Qed.

(** C8.  When the path identifier resolves to no node, or to a node that is
    no element, each scroll handler (percentage, next chunk, previous chunk)
    logs its opening line, warns on the page's console, issues no scroll and
    returns: nothing is thrown. *)
Theorem scroll_unresolved_is_noop w ctx h node :
  (forall h', w_getNodeFromXpath w h' (xpath ctx) = Returned node) ->
  unresolved node ->
  scrollElementToPercentage ctx w h =
    ([Log (percentageLog ctx); ConsoleWarn "Could not locate element to scroll on."],
     Returned tt)
  /\ scrollToNextChunk ctx w h =
    ([Log (nextChunkLog ctx);
      ConsoleWarn "Could not locate element to scroll by its height."],
     Returned tt)
  /\ scrollToPreviousChunk ctx w h =
    ([Log (previousChunkLog ctx);
      ConsoleWarn "Could not locate element to scroll by its height."],
     Returned tt).
Proof.
  intros Hnode Hun. repeat split.
  - exact (scrollElementToPercentage_unresolved w ctx h node (Hnode _) Hun).
  - exact (scrollToNextChunk_unresolved w ctx h node (Hnode _) Hun).
  - exact (scrollToPreviousChunk_unresolved w ctx h node (Hnode _) Hun).
Qed.

Lemma scroll_unresolved_is_noop_on_missing_node :
  scrollToNextChunk (Script.ctx []) Script.quiet [] =
    ([Log (nextChunkLog (Script.ctx []));
      ConsoleWarn "Could not locate element to scroll by its height."],
     Returned tt).
Proof.
  apply (scroll_unresolved_is_noop Script.quiet (Script.ctx []) [] None).
  - intros h'. reflexivity.
  - left. reflexivity.
Defined.

(** C10.  The percentage scroll gives the root treatment to [html] only: on
    a resolved element whose tag is not [html] -- [body] among them -- it
    calls [element.scrollTo] with top
    [(scrollHeight - clientHeight) * ratio] of the element itself and left
    its [scrollLeft].  The chunked scrolls treat [html] and [body] alike: on
    either they scroll the window by one viewport height. *)
Theorem body_is_root_for_chunks_only w ctx h n s :
  (forall h', w_getNodeFromXpath w h' (xpath ctx) = Returned (Some n)) ->
  nodeType n = ELEMENT_NODE ->
  yArgOf (args ctx) = AString s ->
  let el := element n in
  let tag := JsString.toLowerCase (tagName el) in
  (tag <> "html" ->
     exists p : Q,
       parsePercent s = Finite p /\
       scrollElementToPercentage ctx w h =
         ([Log (percentageLog ctx);
           ElementScrollTo el
             {| top := Finite ((scrollHeight el - clientHeight el) * (p / 100));
                left := Finite (scrollLeft el);
                behavior := "smooth" |}],
          Returned tt))
  /\ (tag = "html" ->
     exists top, scrollElementToPercentage ctx w h =
       ([Log (percentageLog ctx);
         WindowScrollTo
           {| top := top;
              left := Finite (w_scrollX w (Log (percentageLog ctx) :: h));
              behavior := "smooth" |}],
        Returned tt))
  /\ (tag = "html" \/ tag = "body" ->
     (exists rest, fst (scrollToNextChunk ctx w h) =
        Log (nextChunkLog ctx)
        :: WindowScrollBy
             (smooth (Finite (w_visualViewportHeight w (Log (nextChunkLog ctx) :: h)))
                     (Finite 0)) :: rest)
     /\ (exists rest, fst (scrollToPreviousChunk ctx w h) =
        Log (previousChunkLog ctx)
        :: WindowScrollBy
             (smooth (Finite (- w_visualViewportHeight w (Log (previousChunkLog ctx) :: h)))
                     (Finite 0)) :: rest)).
Proof.
  intros Hnode Hty Harg el tag. split; [ | split].
  - intros Htag. destruct (parsePercent_range s) as [p [Hp _]].
    exists p. split; [exact Hp | ].
    rewrite (scrollElementToPercentage_resolved w ctx h n s (Hnode _) Hty Harg), Hp.
    fold el. fold tag. apply String.eqb_neq in Htag. rewrite Htag. reflexivity.
  - intros Htag.
    rewrite (scrollElementToPercentage_resolved w ctx h n s (Hnode _) Hty Harg).
    fold el. fold tag. rewrite Htag. eexists. reflexivity.
  - intros Htag.
    assert (Hroot : isRoot (element n) = true).
    { unfold isRoot. fold el. fold tag. destruct Htag as [-> | ->]; reflexivity. }
    split.
    + rewrite (scrollToNextChunk_root w ctx h n (Hnode _) Hty Hroot).
      eexists. reflexivity.
    + rewrite (scrollToPreviousChunk_root w ctx h n (Hnode _) Hty Hroot).
      eexists. reflexivity.
Qed.

Lemma body_is_root_for_chunks_only_on_body :
  (exists p : Q,
     parsePercent "50%" = Finite p /\
     scrollElementToPercentage (Script.ctx [AString "50%"])
       (Script.world (Script.tagged "BODY") false "" [] (fun _ => None) None None) [] =
       ([Log (percentageLog (Script.ctx [AString "50%"]));
         ElementScrollTo
           {| tagName := "BODY"; boundingHeight := 40; scrollHeight := 900;
              clientHeight := 300; scrollLeft := 5 |}
           {| top := Finite ((900 - 300) * (p / 100)); left := Finite 5;
              behavior := "smooth" |}],
        Returned tt))
  /\ (exists rest,
        fst (scrollToNextChunk (Script.ctx [AString "50%"])
               (Script.world (Script.tagged "BODY") false "" [] (fun _ => None) None None) []) =
        Log (nextChunkLog (Script.ctx [AString "50%"]))
        :: WindowScrollBy (smooth (Finite 600) (Finite 0)) :: rest).
Proof.
  destruct (body_is_root_for_chunks_only
              (Script.world (Script.tagged "BODY") false "" [] (fun _ => None) None None)
              (Script.ctx [AString "50%"]) []
              {| nodeType := ELEMENT_NODE;
                 element := {| tagName := "BODY"; boundingHeight := 40; scrollHeight := 900;
                               clientHeight := 300; scrollLeft := 5 |} |}
              "50%" (fun _ => eq_refl) eq_refl eq_refl) as [Hpct [_ Hchunk]].
  split.
  - apply Hpct. discriminate.
  - apply Hchunk. right. reflexivity.
Defined.

(** ** Text input *)

Section TextInput.

Variable w : World.
Hypothesis type_ok : forall h c d, w_keyboardType w h c d = None.


Hypothesis random_unit : forall h, (0 <= w_random w h < 1)%Q.


End TextInput.





(** ** Navigation watcher *)

Lemma watcher_run desc xpath initialUrl t w h :
  let h1 := Log (navigationCheckLog desc xpath) :: h in
  let tab := raceNewPage (w_newPage w h1) in
  let h2 := Log (actionCompleteLog desc tab) :: AwaitNewPage NEW_TAB_TIMER_MS tab :: h1 in
  let opening := [Log (navigationCheckLog desc xpath); AwaitNewPage NEW_TAB_TIMER_MS tab;
                  Log (actionCompleteLog desc tab)] in
  handlePossiblePageNavigation desc xpath initialUrl t w h =
  match tab with
  | None => ((opening ++ settlePhase initialUrl t w h2)%list, Returned tt)
  | Some p =>
      let h3 := Log (newTabLog p) :: h2 in
      match w_closePage w h3 p with
      | Some e => ((opening ++ [Log (newTabLog p); ClosePage p (Some e)])%list, Thrown e)
      | None =>
          let h4 := ClosePage p None :: h3 in
          match w_goto w h4 (url p) with
          | Some e =>
              ((opening ++ [Log (newTabLog p); ClosePage p None; Goto (url p) (Some e)])%list,
               Thrown e)
          | None =>
              let h5 := Goto (url p) None :: h4 in
              match w_waitForLoadState w h5 "domcontentloaded" with
              | Some e =>
                  ((opening ++ [Log (newTabLog p); ClosePage p None; Goto (url p) None;
                                WaitForLoadState "domcontentloaded" (Some e)])%list,
                   Thrown e)
              | None =>
                  ((opening ++ [Log (newTabLog p); ClosePage p None; Goto (url p) None;
                                WaitForLoadState "domcontentloaded" None] ++
                    settlePhase initialUrl t w
                      (WaitForLoadState "domcontentloaded" None :: h5))%list,
                   Returned tt)
              end
          end
      end
  end.
Proof.
  intros h1 tab h2 opening. unfold handlePossiblePageNavigation, settlePhase. exec.
  fold h1. fold tab. cbv zeta.
  destruct tab as [p | ].
  - destruct (w_closePage w _ p); [reflexivity | ].
    destruct (w_goto w _ (url p)); [reflexivity | ].
    destruct (w_waitForLoadState w _ "domcontentloaded"); [reflexivity | ].
    destruct (w_waitForSettledDom w _ t);
      destruct (String.eqb _ initialUrl); reflexivity.
  - destruct (w_waitForSettledDom w _ t);
      destruct (String.eqb _ initialUrl); reflexivity.
Qed.

Lemma watcher_emits desc xpath initialUrl t :
  emitsOnly (fun ev => isClick ev = false)
    (handlePossiblePageNavigation desc xpath initialUrl t).
Proof.
  unfold handlePossiblePageNavigation, logger. emits; reflexivity.
Qed.

Lemma watcher_settle_failure desc xpath initialUrl t0 w h t e :
  let run := handlePossiblePageNavigation desc xpath initialUrl t0 w h in
  In (WaitForSettledDom t (Some e)) (fst run) ->
  snd run = Returned tt /\ In (Log (settleTimeoutLog e)) (fst run).
Proof.
  intros run. subst run. rewrite watcher_run. cbv zeta.
  destruct (raceNewPage _) as [p | ].
  - destruct (w_closePage w _ p);
      [cbn; intuition discriminate | ].
    destruct (w_goto w _ (url p));
      [cbn; intuition discriminate | ].
    destruct (w_waitForLoadState w _ "domcontentloaded");
      [cbn; intuition discriminate | ].
    unfold settlePhase. cbv zeta.
    destruct (w_waitForSettledDom w _ t0) as [e' | ];
      destruct (String.eqb _ initialUrl); cbn;
      intuition (try discriminate);
      match goal with H : WaitForSettledDom _ _ = WaitForSettledDom _ _ |- _ =>
        injection H as _ He; subst; auto 20 end.
  - unfold settlePhase. cbv zeta.
    destruct (w_waitForSettledDom w _ t0) as [e' | ];
      destruct (String.eqb _ initialUrl); cbn;
      intuition (try discriminate);
      match goal with H : WaitForSettledDom _ _ = WaitForSettledDom _ _ |- _ =>
        injection H as _ He; subst; auto 20 end.
Qed.

Lemma settlePhase_calls initialUrl t w h :
  callsOf (settlePhase initialUrl t w h) =
  [WaitForSettledDom t (w_waitForSettledDom w h t)].
Proof.
  unfold settlePhase. cbv zeta.
  destruct (w_waitForSettledDom w h t); destruct (String.eqb _ initialUrl); reflexivity.
Qed.

(** ** Click *)

Lemma append_assoc (a b c : string) : (a ++ b) ++ c = a ++ b ++ c.
Proof. induction a as [ | x a IH]; cbn; [reflexivity | now rewrite IH]. Qed.

Lemma append_empty_r (a : string) : a ++ "" = a.
Proof. induction a as [ | x a IH]; cbn; [reflexivity | now rewrite IH]. Qed.

Lemma contains_here (sub post : string) : JsString.contains (sub ++ post) sub.
Proof. exists "", post. reflexivity. Qed.

Lemma contains_end (sub : string) : JsString.contains sub sub.
Proof. exists "", "". cbn. now rewrite append_empty_r. Qed.

Lemma contains_after (p t sub : string) :
  JsString.contains t sub -> JsString.contains (p ++ t) sub.
Proof.
  intros [pre [post ->]]. exists (p ++ pre), post. now rewrite append_assoc.
Qed.




Lemma resolveClickTarget_plain w ctx h :
  w_isRadio w h (locator ctx) = Returned false ->
  resolveClickTarget ctx w h = ([], Returned (locator ctx)).
Proof.
  intros Hradio. unfold resolveClickTarget. rewrite bind_query, Hradio. reflexivity.
Qed.

Lemma resolveClickTarget_silent ctx w h : fst (resolveClickTarget ctx w h) = [].
Proof.
  assert (H : emitsOnly (fun _ => False) (resolveClickTarget ctx)).
  { unfold resolveClickTarget, count. emits. }
  specialize (H w h). destruct (fst (resolveClickTarget ctx w h)); [reflexivity | ].
  inversion H; contradiction.
Qed.

Lemma clickAttempt_emits ctx :
  emitsOnly (fun ev => isLog ev = true \/ isClick ev = true) (clickAttempt ctx).
Proof.
  unfold clickAttempt, clickWithRetry, resolveClickTarget, count, logger.
  emits; cbn; auto.
Qed.

(** The two messages of [clickWithRetry]. *)
Lemma clickWithRetry_run w h xpath l o :
  let first := Click l (withTimeout o 5000) in
  let forced := Click l (withForce o true) in
  clickWithRetry xpath l o w h =
  match w_click w h l (withTimeout o 5000) with
  | None => ([first None], Returned tt)
  | Some e =>
      if isTimeoutError e then
        match w_click w (Log retryLog :: first (Some e) :: h) l (withForce o true) with
        | None => ([first (Some e); Log retryLog; forced None], Returned tt)
        | Some e2 =>
            ([first (Some e); Log retryLog; forced (Some e2)],
             Thrown (newPlaywrightCommandException
                       ("Failed to click element at [" ++ xpath ++ "]. " ++
                        "Timeout after 5s, then force-click also failed. " ++
                        "Original timeout error: " ++ message e ++ ", " ++
                        "Force-click error: " ++ message e2)))
        end
      else
        ([first (Some e)],
         Thrown (newPlaywrightCommandException
                   ("Failed to click element at [" ++ xpath ++ "]. " ++
                    "Error: " ++ message e)))
  end.
Proof.
  intros first forced. unfold clickWithRetry. exec.
  destruct (w_click w h l (withTimeout o 5000)) as [e | ]; [ | reflexivity].
  cbv beta iota zeta.
  destruct (isTimeoutError e); [ | reflexivity].
  fold first.
  destruct (w_click w (Log retryLog :: first (Some e) :: h) l (withForce o true));
    reflexivity.
Qed.

Lemma clickAttempt_run w ctx h target :
  resolveClickTarget ctx w h = ([], Returned target) ->
  clickAttempt ctx w h =
  match clickWithRetry (xpath ctx) target (clickArgOf (args ctx)) w h with
  | (evs, Returned a) => (evs, Returned a)
  | (evs, Thrown e) =>
      ((evs ++ [Log (clickErrorLog ctx e)])%list,
       Thrown (newPlaywrightCommandException
                 ("Could not complete click action at [" ++ xpath ctx ++ "]. Reason: " ++
                  message e)))
  end.
Proof.
  intros Hres. unfold clickAttempt, tryCatch, bind at 1. rewrite Hres.
  cbn [after rev_append app].
  destruct (clickWithRetry _ _ _ w h) as [evs [[] | e]]; reflexivity.
Qed.

Lemma clickElement_run w ctx h :
  let h1 := Log (clickLog (w_pageUrl w h)) :: h in
  clickElement ctx w h =
  match clickAttempt ctx w h1 with
  | (evs, Returned _) =>
      let nav := handlePossiblePageNavigation "click" (xpath ctx) (initialUrl ctx)
                   (domSettleTimeoutMs ctx) w (after evs h1) in
      ((Log (clickLog (w_pageUrl w h)) :: evs ++ fst nav)%list, snd nav)
  | (evs, Thrown e) => (Log (clickLog (w_pageUrl w h)) :: evs, Thrown e)
  end.
Proof.
  intros h1. unfold clickElement.
  rewrite bind_assoc, bind_read.
  unfold logger. rewrite bind_emit. fold h1.
  unfold bind. destruct (clickAttempt ctx w h1) as [evs [[] | e]]; cbn [fst snd];
    [ | reflexivity].
  destruct (handlePossiblePageNavigation _ _ _ _ w (after evs h1)). reflexivity.
Qed.

(** Finds the first place where the text occurs in a chain of appends. *)
Ltac find_sub :=
  first [ apply contains_here | apply contains_end | apply contains_after; find_sub ].

Lemma spreadString_indexed (i : nat) (cs : list string) :
  spreadString i cs =
  combine (map (fun i => NilZero.string_of_uint (Nat.to_uint i)) (seq i (List.length cs))) cs.
Proof.
  revert i. induction cs as [ | c r IH]; intros i; [reflexivity | ].
  cbn [spreadString List.length seq map combine]. now rewrite IH.
Qed.

(** [clickArgOf] gives the options of the caller. *)
Lemma clickArgOf_given (args : list Arg) (given : ClickOptions) :
  callerOptions args given -> clickArgOf args = given.
Proof.
  intros [ | rest | rest | o rest | s rest]; try reflexivity.
  unfold clickArgOf. cbn [arg0 hd]. now rewrite spreadString_indexed.
Qed.

(** C1.  Let the click target be resolved, and let the first click -- the
    one bounded by 5000 ms: the options of the caller with [timeout] set to
    5000 -- fail with the error [e].  If [e] is a timeout error, the handler
    clicks once more, forced -- the options of the caller with [force] set to
    [true] --, and never again; if that click fails too, with [e2], the
    handler throws a command exception whose message contains the path
    identifier, the message of [e] and the message of [e2].  If [e] is no
    timeout error, the first click is the only one, and the handler throws at
    once a command exception whose message contains the path identifier and
    the message of [e]. *)
Theorem click_retry_policy w ctx h target given e :
  let h1 := Log (clickLog (w_pageUrl w h)) :: h in
  let bounded :=
    {| force := force given; timeout := Some 5000%Z; otherOptions := otherOptions given |} in
  let forced :=
    {| force := Some true; timeout := timeout given; otherOptions := otherOptions given |} in
  callerOptions (args ctx) given ->
  resolveClickTarget ctx w h1 = ([], Returned target) ->
  w_click w h1 target bounded = Some e ->
  (className e = TimeoutError ->
     let o2 := w_click w (Log retryLog :: Click target bounded (Some e) :: h1) target forced in
     clicksOf (fst (clickElement ctx w h)) =
       [Click target bounded (Some e); Click target forced o2]
     /\ (forall e2, o2 = Some e2 ->
         exists inner err,
           clickElement ctx w h =
             ([Log (clickLog (w_pageUrl w h)); Click target bounded (Some e); Log retryLog;
               Click target forced (Some e2); Log (clickErrorLog ctx inner)],
              Thrown err)
           /\ className err = PlaywrightCommandException
           /\ JsString.contains (message err) (xpath ctx)
           /\ JsString.contains (message err) (message e)
           /\ JsString.contains (message err) (message e2)))
  /\ (className e <> TimeoutError ->
     exists inner err,
       clickElement ctx w h =
         ([Log (clickLog (w_pageUrl w h)); Click target bounded (Some e);
           Log (clickErrorLog ctx inner)],
          Thrown err)
       /\ className err = PlaywrightCommandException
       /\ JsString.contains (message err) (xpath ctx)
       /\ JsString.contains (message err) (message e)).
Proof.
  intros h1 bounded forced Hgiven Hres Hfirst.
  pose proof (clickElement_run w ctx h) as Hrun. cbv zeta in Hrun. fold h1 in Hrun.
  rewrite (clickAttempt_run w ctx h1 target Hres) in Hrun.
  rewrite clickWithRetry_run, (clickArgOf_given _ _ Hgiven) in Hrun. cbv zeta in Hrun.
  change (withTimeout given 5000) with bounded in Hrun.
  change (withForce given true) with forced in Hrun.
  rewrite Hfirst in Hrun.
  split; intros Hkind.
  - assert (Htimeout : isTimeoutError e = true) by (unfold isTimeoutError; now rewrite Hkind).
    rewrite Htimeout in Hrun.
    intros o2. fold o2 in Hrun. split.
    + destruct o2 as [e2 | ]; rewrite Hrun; [reflexivity | ].
      cbn [fst]. unfold clicksOf. cbn [filter isClick app].
      fold (clicksOf (fst (handlePossiblePageNavigation "click" (xpath ctx)
                             (initialUrl ctx) (domSettleTimeoutMs ctx) w
                             (after [Click target bounded (Some e); Log retryLog;
                                     Click target forced None] h1)))).
      rewrite (no_clicks _ (watcher_emits _ _ _ _ w _)). reflexivity.
    + intros e2 He2. rewrite He2 in Hrun. rewrite Hrun.
      eexists. eexists. split; [reflexivity | split; [reflexivity | ]].
      cbn [message newPlaywrightCommandException].
      repeat split; find_sub.
  - assert (Hother : isTimeoutError e = false).
    { unfold isTimeoutError. destruct (className e); [contradiction | | ]; reflexivity. }
    rewrite Hother in Hrun. rewrite Hrun.
    eexists. eexists. split; [reflexivity | split; [reflexivity | ]].
    cbn [message newPlaywrightCommandException].
    split; find_sub.
Qed.

Lemma click_retry_policy_both_fail :
  exists inner err,
    clickElement (Script.ctx []) Script.stubborn [] =
      ([Log (clickLog "https://example.test/");
        Click (Handle "target")
          {| force := None; timeout := Some 5000%Z; otherOptions := [] |}
          (Some (Script.timeoutError "Timeout 5000ms exceeded."));
        Log retryLog;
        Click (Handle "target")
          {| force := Some true; timeout := None; otherOptions := [] |}
          (Some (Script.otherError "Element is not attached to the DOM"));
        Log (clickErrorLog (Script.ctx []) inner)],
       Thrown err)
    /\ className err = PlaywrightCommandException
    /\ JsString.contains (message err) "/html/body/div[1]"
    /\ JsString.contains (message err) "Timeout 5000ms exceeded."
    /\ JsString.contains (message err) "Element is not attached to the DOM".
Proof.
  destruct (click_retry_policy Script.stubborn (Script.ctx []) [] (Handle "target")
              {| force := None; timeout := None; otherOptions := [] |}
              (Script.timeoutError "Timeout 5000ms exceeded.")
              noArgument eq_refl eq_refl)
    as [Htimeout _].
  destruct (Htimeout eq_refl) as [_ Hboth].
  exact (Hboth (Script.otherError "Element is not attached to the DOM") eq_refl).
Defined.




(** ** Navigation after a click and after a key press *)

Lemma pressKey_run w ctx h :
  let key := keyOf ctx in
  pressKey ctx w h =
  match w_keyboardPress w h key with
  | Some e =>
      ([KeyboardPress key (Some e); Log (pressErrorLog ctx e)],
       Thrown (newPlaywrightCommandException (message e)))
  | None =>
      let nav := watch "press" ctx w (KeyboardPress key None :: h) in
      match snd nav with
      | Returned _ => (KeyboardPress key None :: fst nav, Returned tt)
      | Thrown e =>
          ((KeyboardPress key None :: fst nav ++ [Log (pressErrorLog ctx e)])%list,
           Thrown (newPlaywrightCommandException (message e)))
      end
  end.
Proof.
  intros key. unfold pressKey, tryCatch. rewrite bind_call. fold (keyOf ctx). fold key.
  destruct (w_keyboardPress w h key) as [e | ]; [reflexivity | ].
  fold (watch "press" ctx). cbv zeta.
  destruct (watch "press" ctx w (KeyboardPress key None :: h)) as [evs [[] | e]];
    reflexivity.
Qed.

Lemma clickAttempt_no_settle ctx w h t o :
  ~ In (WaitForSettledDom t o) (fst (clickAttempt ctx w h)).
Proof.
  intros Hin. pose proof (clickAttempt_emits ctx w h) as Hall.
  rewrite Forall_forall in Hall. destruct (Hall _ Hin); discriminate.
Qed.

(** C4.  Whenever the settle wait of the watcher fails -- by a timeout or
    otherwise --, the handler that runs the watcher ([clickElement],
    [pressKey]) logs the failure and returns normally: the error is not
    thrown again. *)
Theorem settle_failure_is_swallowed w ctx h t e :
  (In (WaitForSettledDom t (Some e)) (fst (clickElement ctx w h)) ->
   snd (clickElement ctx w h) = Returned tt
   /\ In (Log (settleTimeoutLog e)) (fst (clickElement ctx w h)))
  /\ (In (WaitForSettledDom t (Some e)) (fst (pressKey ctx w h)) ->
      snd (pressKey ctx w h) = Returned tt
      /\ In (Log (settleTimeoutLog e)) (fst (pressKey ctx w h))).
Proof.
  split.
  - rewrite clickElement_run. cbv zeta.
    pose proof (clickAttempt_no_settle ctx w (Log (clickLog (w_pageUrl w h)) :: h) t (Some e))
      as Hattempt.
    destruct (clickAttempt ctx w _) as [evs [[] | x]]; cbn [fst snd] in *.
    + intros [Hlog | Hin]; [discriminate | ].
      apply in_app_or in Hin. destruct Hin as [Hin | Hin]; [contradiction | ].
      destruct (watcher_settle_failure _ _ _ _ _ _ _ _ Hin) as [Hret Hlogged].
      split; [exact Hret | ]. right. apply in_or_app. right. exact Hlogged.
    + intros [Hlog | Hin]; [discriminate | contradiction].
  - rewrite pressKey_run. cbv zeta.
    destruct (w_keyboardPress w h (keyOf ctx)) as [x | ].
    + cbn. intuition discriminate.
    + pose proof (watcher_settle_failure "press" (xpath ctx) (initialUrl ctx)
                    (domSettleTimeoutMs ctx) w (KeyboardPress (keyOf ctx) None :: h) t e)
        as Hnav.
      cbv zeta in Hnav. fold (watch "press" ctx) in Hnav.
      destruct (watch "press" ctx w _) as [evs [[] | x]]; cbn [fst snd] in *.
      * intros [Hkey | Hin]; [discriminate | ].
        destruct (Hnav Hin) as [_ Hlogged]. split; [reflexivity | right; exact Hlogged].
      * intros [Hkey | Hin]; [discriminate | ].
        apply in_app_or in Hin. destruct Hin as [Hin | [Hin | []]]; [ | discriminate].
        destruct (Hnav Hin) as [Hret _]. discriminate.
Qed.

Lemma settle_failure_is_swallowed_after_click :
  snd (run (clickElement (Script.ctx [])) Script.slowToSettle) = Returned tt
  /\ In (Log (settleTimeoutLog (Script.timeoutError "Timeout 30000ms exceeded.")))
        (fst (run (clickElement (Script.ctx [])) Script.slowToSettle)).
Proof.
  apply (settle_failure_is_swallowed Script.slowToSettle (Script.ctx []) [] None
           (Script.timeoutError "Timeout 30000ms exceeded.")).
  cbn. repeat (first [left; reflexivity | right]).
Defined.

(** C3.  The watcher, which [pressKey] runs after a key press that
    succeeded and [clickElement] after a click attempt that succeeded, waits
    once for the session's next page event against a timer of 1500 ms.  If
    the event comes before the timer (and closing, navigating and waiting for
    the load state succeed), the calls it makes are, in this order: close the
    new page, send the original page to the new page's URL, wait for the
    [domcontentloaded] state, wait for the settled DOM.  If no event comes
    before the timer, the only call is the wait for the settled DOM: nothing
    is closed and there is no navigation. *)
Theorem new_tab_race w :
  (forall desc xpath initialUrl t h,
     let h1 := Log (navigationCheckLog desc xpath) :: h in
     let nav := handlePossiblePageNavigation desc xpath initialUrl t w h in
     (forall delay tab,
        w_newPage w h1 = Some (delay, tab) -> (delay < 1500)%Z ->
        (forall h', w_closePage w h' tab = None) ->
        (forall h', w_goto w h' (url tab) = None) ->
        (forall h', w_waitForLoadState w h' "domcontentloaded" = None) ->
        exists o,
          callsOf (fst nav) =
            [AwaitNewPage 1500 (Some tab); ClosePage tab None; Goto (url tab) None;
             WaitForLoadState "domcontentloaded" None; WaitForSettledDom t o]
          /\ snd nav = Returned tt)
     /\ (w_newPage w h1 = None
         \/ (exists delay tab, w_newPage w h1 = Some (delay, tab) /\ (1500 <= delay)%Z) ->
         exists o,
           callsOf (fst nav) = [AwaitNewPage 1500 None; WaitForSettledDom t o]
           /\ snd nav = Returned tt))
  /\ (forall ctx h,
        w_keyboardPress w h (keyOf ctx) = None ->
        exists tail,
          fst (pressKey ctx w h) =
            (KeyboardPress (keyOf ctx) None
             :: fst (watch "press" ctx w (KeyboardPress (keyOf ctx) None :: h)) ++ tail)%list)
  /\ (forall ctx h evs,
        let h1 := Log (clickLog (w_pageUrl w h)) :: h in
        clickAttempt ctx w h1 = (evs, Returned tt) ->
        clickElement ctx w h =
          ((Log (clickLog (w_pageUrl w h)) :: evs ++
            fst (watch "click" ctx w (after evs h1)))%list,
           snd (watch "click" ctx w (after evs h1)))).
Proof.
  split; [ | split].
  - intros desc xpath initialUrl t h h1 nav. subst nav. rewrite watcher_run.
    cbv zeta. fold h1. split.
    + intros delay tab Hpage Hdelay Hclose Hgoto Hload.
      rewrite Hpage. unfold raceNewPage, NEW_TAB_TIMER_MS.
      apply Z.ltb_lt in Hdelay. rewrite Hdelay, Hclose, Hgoto, Hload.
      eexists. split; [ | reflexivity].
      cbn [fst]. unfold callsOf. rewrite !filter_app.
      fold (callsOf (settlePhase initialUrl t w
        (WaitForLoadState "domcontentloaded" None :: Goto (url tab) None
         :: ClosePage tab None :: Log (newTabLog tab)
         :: Log (actionCompleteLog desc (Some tab))
         :: AwaitNewPage 1500 (Some tab) :: h1))).
      rewrite settlePhase_calls. reflexivity.
    + intros Hnone.
      assert (Hrace : raceNewPage (w_newPage w h1) = None).
      { destruct Hnone as [-> | [delay [tab [-> Hlate]]]]; [reflexivity | ].
        unfold raceNewPage, NEW_TAB_TIMER_MS. apply Z.ltb_ge in Hlate.
        now rewrite Hlate. }
      rewrite Hrace. eexists. split; [ | reflexivity].
      cbn [fst]. unfold callsOf. rewrite !filter_app.
      fold (callsOf (settlePhase initialUrl t w
        (Log (actionCompleteLog desc None) :: AwaitNewPage NEW_TAB_TIMER_MS None :: h1))).
      rewrite settlePhase_calls. reflexivity.
  - intros ctx h Hpress. rewrite pressKey_run. cbv zeta. rewrite Hpress.
    destruct (snd (watch "press" ctx w _)).
    + exists []. cbn [fst]. now rewrite app_nil_r.
    + eexists. reflexivity.
  - intros ctx h evs h1 Hattempt. rewrite clickElement_run. cbv zeta. fold h1.
    rewrite Hattempt. reflexivity.
Qed.

Lemma new_tab_race_folds_tab_back :
  exists o,
    callsOf (fst (handlePossiblePageNavigation "press" "/html/body/div[1]"
                    "https://example.test/" None Script.opensTab
                    [KeyboardPress "Enter" None])) =
      [AwaitNewPage 1500 (Some {| pageName := "tab"; url := "https://new.test/" |});
       ClosePage {| pageName := "tab"; url := "https://new.test/" |} None;
       Goto "https://new.test/" None;
       WaitForLoadState "domcontentloaded" None;
       WaitForSettledDom None o]
    /\ snd (handlePossiblePageNavigation "press" "/html/body/div[1]"
              "https://example.test/" None Script.opensTab
              [KeyboardPress "Enter" None]) = Returned tt.
Proof.
  destruct (new_tab_race Script.opensTab) as [Hnav _].
  destruct (Hnav "press" "/html/body/div[1]" "https://example.test/" None
              [KeyboardPress "Enter" None]) as [Hfold _].
  apply (Hfold 100%Z {| pageName := "tab"; url := "https://new.test/" |}).
  - reflexivity.
  - reflexivity.
  - intros h'. reflexivity.
  - intros h'. reflexivity.
  - intros h'. reflexivity.
Defined.

(** * More properties of the handlers *)

(** ** Errors *)

Lemma tryCatch_translates_with (m : M unit) (line : Exn -> LogLine)
    (text : Exn -> string) w h e :
  snd (tryCatch m (fun x => bind (logger (line x))
                     (fun _ => throw (newPlaywrightCommandException (text x)))) w h)
    = Thrown e ->
  exists cause,
    snd (m w h) = Thrown cause
    /\ e = newPlaywrightCommandException (text cause)
    /\ fst (tryCatch m (fun x => bind (logger (line x))
                          (fun _ => throw (newPlaywrightCommandException (text x)))) w h)
       = (fst (m w h) ++ [Log (line cause)])%list.
Proof.
  unfold tryCatch. destruct (m w h) as [evs [[] | cause]]; cbn [fst snd].
  - discriminate.
  - unfold logger. rewrite bind_emit. cbn [fst snd throw]. intros [= <-].
    exists cause. repeat split.
Qed.

Lemma tryCatch_translates (m : M unit) (line : Exn -> LogLine) w h e :
  snd (tryCatch m (fun x => bind (logger (line x))
                     (fun _ => throw (newPlaywrightCommandException (message x)))) w h)
    = Thrown e ->
  exists cause,
    snd (m w h) = Thrown cause
    /\ e = newPlaywrightCommandException (message cause)
    /\ fst (tryCatch m (fun x => bind (logger (line x))
                          (fun _ => throw (newPlaywrightCommandException (message x)))) w h)
       = (fst (m w h) ++ [Log (line cause)])%list.
Proof. apply tryCatch_translates_with. Qed.

Lemma errorLog_reports text e more : reportsError (errorLog text e more) (message e).
Proof. repeat split. Qed.

Lemma translated_after_log (start : LogLine) (m : M unit) (line : Exn -> LogLine) w h e :
  (forall x, reportsError (line x) (message x)) ->
  snd (bind (logger start)
         (fun _ => tryCatch m (fun x => bind (logger (line x))
                     (fun _ => throw (newPlaywrightCommandException (message x))))) w h)
    = Thrown e ->
  className e = PlaywrightCommandException
  /\ exists evs l,
       fst (bind (logger start)
              (fun _ => tryCatch m (fun x => bind (logger (line x))
                          (fun _ => throw (newPlaywrightCommandException (message x))))) w h)
         = (evs ++ [Log l])%list
       /\ reportsError l (message e).
Proof.
  intros Hline. change (logger start) with (emit (Log start)).
  rewrite !bind_emit. cbn [fst snd]. intros Hthrown.
  destruct (tryCatch_translates _ _ _ _ _ Hthrown) as [cause [_ [-> Hevs]]].
  split; [reflexivity | ].
  rewrite Hevs. eexists (Log start :: _), _. split; [reflexivity | exact (Hline cause)].
Qed.

Lemma translated_plain (m : M unit) (line : Exn -> LogLine) w h e :
  (forall x, reportsError (line x) (message x)) ->
  snd (tryCatch m (fun x => bind (logger (line x))
                     (fun _ => throw (newPlaywrightCommandException (message x)))) w h)
    = Thrown e ->
  className e = PlaywrightCommandException
  /\ exists evs l,
       fst (tryCatch m (fun x => bind (logger (line x))
                          (fun _ => throw (newPlaywrightCommandException (message x)))) w h)
         = (evs ++ [Log l])%list
       /\ reportsError l (message e).
Proof.
  intros Hline Hthrown.
  destruct (tryCatch_translates _ _ _ _ _ Hthrown) as [cause [_ [-> Hevs]]].
  split; [reflexivity | ].
  rewrite Hevs. eexists _, _. split; [reflexivity | exact (Hline cause)].
Qed.

(** X1.  Whatever handler the map gives for a method other than [click],
    an error it throws is a command exception, and the last thing the handler
    did before throwing was to log a level-1 [action] line that carries the
    same message. *)
Theorem handler_errors_are_translated name handler ctx w h e :
  methodHandlerMap name = Some handler ->
  name <> "click" ->
  snd (handler ctx w h) = Thrown e ->
  className e = PlaywrightCommandException
  /\ exists evs l,
       fst (handler ctx w h) = (evs ++ [Log l])%list /\ reportsError l (message e).
Proof.
  unfold methodHandlerMap. intros Hmap Hname.
  repeat match type of Hmap with
         | (if String.eqb name ?k then _ else _) = _ =>
             destruct (String.eqb_spec name k) as [-> | _]
         end;
    try discriminate; try congruence; injection Hmap as <-.
  - apply translated_after_log. intros x. apply errorLog_reports.
  - apply translated_after_log. intros x. apply errorLog_reports.
  - apply translated_after_log. intros x. apply errorLog_reports.
  - apply translated_after_log. intros x. apply errorLog_reports.
  - apply translated_plain. intros x. apply errorLog_reports.
  - apply translated_plain. intros x. apply errorLog_reports.
  - apply translated_plain. intros x. apply errorLog_reports.
  - apply translated_after_log. intros x. apply errorLog_reports.
  - apply translated_after_log. intros x. apply errorLog_reports.
Qed.

Lemma handler_errors_are_translated_into_view :
  className (newPlaywrightCommandException "Element is not attached to the DOM")
    = PlaywrightCommandException
  /\ exists evs l,
       fst (scrollElementIntoView (Script.ctx []) Faulty.detached []) = (evs ++ [Log l])%list
       /\ reportsError l "Element is not attached to the DOM".
Proof.
  apply (handler_errors_are_translated "scrollIntoView" scrollElementIntoView
           (Script.ctx []) Faulty.detached []
           (newPlaywrightCommandException "Element is not attached to the DOM")).
  - reflexivity.
  - discriminate.
  - reflexivity.
Defined.

(** ** Which handlers watch for navigation *)

Lemma emitsOnly_forEach (P : Event -> Prop) {A} (l : list A) (body : A -> M unit) :
  (forall a, emitsOnly P (body a)) -> emitsOnly P (forEach l body).
Proof.
  intros Hbody. induction l as [ | a l IH]; cbn [forEach].
  - apply emitsOnly_ret.
  - apply emitsOnly_bind; [apply Hbody | intros _; exact IH].
Qed.

Section NoNavigation.

Local Abbreviation quiet := (fun ev : Event => isNavigationEvent ev = false).

Variable ctx : MethodHandlerContext.

Lemma scrollElementIntoView_no_navigation : emitsOnly quiet (scrollElementIntoView ctx).
Proof. unfold scrollElementIntoView, logger. emits; reflexivity. Qed.

Lemma scrollElementToPercentage_no_navigation :
  emitsOnly quiet (scrollElementToPercentage ctx).
Proof. unfold scrollElementToPercentage, percentageScript, logger. emits; reflexivity. Qed.

Lemma scrollToNextChunk_no_navigation : emitsOnly quiet (scrollToNextChunk ctx).
Proof. unfold scrollToNextChunk, logger. emits; reflexivity. Qed.

Lemma scrollToPreviousChunk_no_navigation : emitsOnly quiet (scrollToPreviousChunk ctx).
Proof. unfold scrollToPreviousChunk, logger. emits; reflexivity. Qed.

Lemma fillOrType_no_navigation : emitsOnly quiet (fillOrType ctx).
Proof.
  unfold fillOrType, logger.
  apply emitsOnly_tryCatch; [ | intros e; emits; reflexivity].
  apply emitsOnly_bind; [emits; reflexivity | intros _].
  apply emitsOnly_bind; [emits; reflexivity | intros _].
  apply emitsOnly_forEach. intros char. emits; reflexivity.
Qed.

End NoNavigation.

(** X2.  Only [press] and [click] watch for navigation: the handler of any
    other method never waits for a new page, closes a page, navigates, or
    waits for a load state or for the DOM to settle. *)
Theorem only_press_and_click_watch name handler ctx w h :
  methodHandlerMap name = Some handler ->
  name <> "press" ->
  name <> "click" ->
  Forall (fun ev => isNavigationEvent ev = false) (fst (handler ctx w h)).
Proof.
  unfold methodHandlerMap. intros Hmap Hpress Hclick.
  repeat match type of Hmap with
         | (if String.eqb name ?k then _ else _) = _ =>
             destruct (String.eqb_spec name k) as [-> | _]
         end;
    try discriminate; try congruence; injection Hmap as <-.
  - apply scrollElementIntoView_no_navigation.
  - apply scrollElementToPercentage_no_navigation.
  - apply scrollElementToPercentage_no_navigation.
  - apply scrollElementToPercentage_no_navigation.
  - apply fillOrType_no_navigation.
  - apply fillOrType_no_navigation.
  - apply scrollToNextChunk_no_navigation.
  - apply scrollToPreviousChunk_no_navigation.
Qed.

Lemma only_press_and_click_watch_type :
  Forall (fun ev => isNavigationEvent ev = false)
    (fst (fillOrType (Script.ctx [AString "ab"]) Script.opensTab [])).
Proof.
  apply (only_press_and_click_watch "type" fillOrType).
  - reflexivity.
  - discriminate.
  - discriminate.
Defined.

(** ** What [clickElement] and [pressKey] throw, and when they watch *)

Lemma watcher_thrown desc xpath initialUrl t w h e :
  let nav := handlePossiblePageNavigation desc xpath initialUrl t w h in
  snd nav = Thrown e ->
  (exists tab evs,
     fst nav = (evs ++ [ClosePage tab (Some e)])%list
     \/ fst nav = (evs ++ [Goto (url tab) (Some e)])%list)
  \/ exists evs, fst nav = (evs ++ [WaitForLoadState "domcontentloaded" (Some e)])%list.
Proof.
  intros nav. subst nav. rewrite watcher_run. cbv zeta.
  destruct (raceNewPage _) as [p | ]; [ | discriminate].
  destruct (w_closePage w _ p) as [x | ].
  { intros [= ->]. left. exists p. eexists (_ :: _ :: _ :: [_]). left. reflexivity. }
  destruct (w_goto w _ (url p)) as [x | ].
  { intros [= ->]. left. exists p. eexists (_ :: _ :: _ :: _ :: [_]). right. reflexivity. }
  destruct (w_waitForLoadState w _ "domcontentloaded") as [x | ]; [ | discriminate].
  intros [= ->]. right. eexists (_ :: _ :: _ :: _ :: _ :: [_]). reflexivity.
Qed.

Lemma clickAttempt_thrown ctx w h e :
  snd (clickAttempt ctx w h) = Thrown e ->
  exists cause,
    e = newPlaywrightCommandException
          ("Could not complete click action at [" ++ xpath ctx ++ "]. Reason: " ++
           message cause).
Proof.
  unfold clickAttempt, clickErrorLog. intros Hthrown.
  destruct (tryCatch_translates_with _ _ _ _ _ _ Hthrown) as [cause [_ [-> _]]].
  exists cause. reflexivity.
Qed.

Lemma clickAttempt_quiet ctx w h :
  Forall (fun ev => isNavigationEvent ev = false) (fst (clickAttempt ctx w h)).
Proof.
  pose proof (clickAttempt_emits ctx w h) as Hall.
  eapply Forall_impl; [ | exact Hall].
  intros [] [Hk | Hk]; try discriminate; reflexivity.
Qed.

(** X3.  An error thrown by [clickElement] is of one of two kinds.  Either
    the click itself could not be completed: then it is a command exception
    whose message starts with "Could not complete click action at [xpath].
    Reason: ", and the watcher did not run.  Or a call of the watcher failed
    (closing the new page, navigating to its URL, waiting for the load
    state): then the error of that call is thrown as it is, right after the
    call, with no log line and no translation. *)
Theorem clickElement_thrown ctx w h e :
  snd (clickElement ctx w h) = Thrown e ->
  (exists cause,
     e = newPlaywrightCommandException
           ("Could not complete click action at [" ++ xpath ctx ++ "]. Reason: " ++
            message cause)
     /\ Forall (fun ev => isNavigationEvent ev = false) (fst (clickElement ctx w h)))
  \/ (exists evs ev,
        fst (clickElement ctx w h) = (evs ++ [ev])%list
        /\ isNavigationEvent ev = true /\ outcomeOf ev = Some e).
Proof.
  rewrite clickElement_run. cbv zeta.
  pose proof (clickAttempt_quiet ctx w (Log (clickLog (w_pageUrl w h)) :: h)) as Hquiet.
  pose proof (clickAttempt_thrown ctx w (Log (clickLog (w_pageUrl w h)) :: h)) as Hattempt.
  destruct (clickAttempt ctx w _) as [evs [[] | x]]; cbn [fst snd] in *.
  - intros Hnav. right.
    destruct (watcher_thrown _ _ _ _ _ _ _ Hnav) as [[tab [pre [Hev | Hev]]] | [pre Hev]];
      rewrite Hev; eexists (Log _ :: evs ++ pre)%list, _;
      (split; [cbn; now rewrite app_assoc | split; reflexivity]).
  - intros [= ->]. left. destruct (Hattempt e eq_refl) as [cause ->].
    exists cause. split; [reflexivity | ]. constructor; [reflexivity | exact Hquiet].
Qed.

Lemma clickElement_thrown_dead_link :
  exists evs ev,
    fst (clickElement (Script.ctx []) Faulty.deadLink []) = (evs ++ [ev])%list
    /\ isNavigationEvent ev = true
    /\ outcomeOf ev = Some (Script.timeoutError "Timeout 30000ms exceeded.").
Proof.
  destruct (clickElement_thrown (Script.ctx []) Faulty.deadLink []
              (Script.timeoutError "Timeout 30000ms exceeded.") eq_refl)
    as [[cause [Hwrapped _]] | Hraw].
  - discriminate Hwrapped.
  - exact Hraw.
Defined.

Lemma clickAttempt_returned ctx w h :
  snd (clickAttempt ctx w h) = Returned tt ->
  exists clicks l o, clicksOf (fst (clickAttempt ctx w h)) = (clicks ++ [Click l o None])%list.
Proof.
  pose proof (resolveClickTarget_silent ctx w h) as Hsilent.
  destruct (resolveClickTarget ctx w h) as [evs [target | x]] eqn:Hres;
    cbn [fst] in Hsilent; subst evs.
  - rewrite (clickAttempt_run w ctx h target Hres), clickWithRetry_run. cbv zeta.
    destruct (w_click w h target _) as [e | ].
    + destruct (isTimeoutError e); [ | discriminate].
      destruct (w_click w _ target _); [discriminate | ].
      intros _. eexists [_], _, _. reflexivity.
    + intros _. exists [], target. eexists. reflexivity.
  - unfold clickAttempt, tryCatch, bind at 1. rewrite Hres. cbn. discriminate.
Qed.

(** X4.  The watcher runs only after the action succeeded: when [pressKey]
    waits for a new page, the key press before it resolved; when
    [clickElement] waits for a new page, the last click before it
    resolved. *)
Theorem watch_only_after_success ctx w h t r :
  (In (AwaitNewPage t r) (fst (pressKey ctx w h)) ->
   exists rest, fst (pressKey ctx w h) = KeyboardPress (keyOf ctx) None :: rest)
  /\ (In (AwaitNewPage t r) (fst (clickElement ctx w h)) ->
      exists clicks l o,
        clicksOf (fst (clickElement ctx w h)) = (clicks ++ [Click l o None])%list).
Proof.
  split.
  - rewrite pressKey_run. cbv zeta.
    destruct (w_keyboardPress w h (keyOf ctx)) as [x | ].
    + cbn. intuition discriminate.
    + intros _. destruct (snd (watch "press" ctx w _)); eexists; reflexivity.
  - rewrite clickElement_run. cbv zeta.
    pose proof (clickAttempt_quiet ctx w (Log (clickLog (w_pageUrl w h)) :: h)) as Hquiet.
    pose proof (clickAttempt_returned ctx w (Log (clickLog (w_pageUrl w h)) :: h)) as Hret.
    destruct (clickAttempt ctx w _) as [evs [[] | x]]; cbn [fst snd] in *.
    + intros _. destruct (Hret eq_refl) as [clicks [l [o Hclicks]]].
      exists clicks, l, o. unfold clicksOf in *. cbn [filter isClick].
      rewrite filter_app, Hclicks.
      fold (clicksOf (fst (handlePossiblePageNavigation "click" (xpath ctx)
                             (initialUrl ctx) (domSettleTimeoutMs ctx) w
                             (after evs (Log (clickLog (w_pageUrl w h)) :: h))))).
      rewrite (no_clicks _ (watcher_emits _ _ _ _ w _)). now rewrite app_nil_r.
    + intros [Hlog | Hin]; [discriminate | ].
      rewrite Forall_forall in Hquiet. specialize (Hquiet _ Hin). discriminate.
Qed.

Lemma watch_only_after_success_on_enter :
  exists rest,
    fst (pressKey (Script.ctx [AString "Enter"]) Script.opensTab []) =
      KeyboardPress "Enter" None :: rest.
Proof.
  apply (watch_only_after_success (Script.ctx [AString "Enter"]) Script.opensTab []
           1500%Z (Some Faulty.newTab)).
  cbn. right. right. left. reflexivity.
Defined.

(** ** Typing stops at the first failure *)

Section Typing.

Variable w : World.

Lemma forEach_typing_step (c : string) (cs : list string) (h : Trace) :
  let body := fun char : string =>
    bind (read w_random) (fun r =>
      let delay := JsNum.add (JsNum.mul (Finite r) (Finite 50)) (Finite 25) in
      call (fun w h => w_keyboardType w h char delay) (KeyboardType char delay)) in
  let delay := Finite (w_random w h * 50 + 25) in
  forEach (c :: cs) body w h =
  match w_keyboardType w h c delay with
  | Some e => ([KeyboardType c delay (Some e)], Thrown e)
  | None =>
      (KeyboardType c delay None :: fst (forEach cs body w (KeyboardType c delay None :: h)),
       snd (forEach cs body w (KeyboardType c delay None :: h)))
  end.
Proof.
  cbn [forEach]. unfold bind at 1. unfold bind at 1.
  unfold read at 1, call at 1. cbn [after rev_append app].
  change (JsNum.add (JsNum.mul (Finite (w_random w h)) (Finite 50)) (Finite 25))
    with (Finite (w_random w h * 50 + 25)).
  destruct (w_keyboardType w h c _); [reflexivity | ].
  cbn [after rev_append app]. destruct (forEach cs _ w _). reflexivity.
Qed.

Lemma forEach_typed (cs : list string) (h : Trace) :
  let out :=
    forEach cs (fun char =>
      bind (read w_random) (fun r =>
        let delay := JsNum.add (JsNum.mul (Finite r) (Finite 50)) (Finite 25) in
        call (fun w h => w_keyboardType w h char delay) (KeyboardType char delay))) w h in
  exists n,
    typedTexts (fst out) = firstn n cs
    /\ (n <= List.length cs)%nat
    /\ Forall (fun ev => isLog ev = false) (fst out)
    /\ (snd out = Returned tt -> n = List.length cs)
    /\ (forall pre ev post,
          fst out = (pre ++ ev :: post)%list -> outcomeOf ev <> None -> post = []).
Proof.
  revert h. induction cs as [ | c r IH]; intros h; cbn zeta.
  - exists 0%nat. cbn. split; [ | split; [ | split; [ | split]]]; auto.
    intros pre ev post Heq. destruct pre; discriminate.
  - pose proof (forEach_typing_step c r h) as Hstep. cbv zeta in Hstep.
    rewrite Hstep. clear Hstep.
    destruct (w_keyboardType w h c _) as [e | ] eqn:Hout.
    + exists 1%nat. cbn [fst snd typedTexts firstn List.length].
      split; [ | split; [ | split; [ | split]]].
      * reflexivity.
      * lia.
      * constructor; [reflexivity | constructor].
      * discriminate.
      * intros pre ev post Heq _. destruct pre as [ | x pre]; cbn in Heq.
        -- now injection Heq as _ <-.
        -- injection Heq as _ Heq. destruct pre; discriminate.
    + specialize (IH (KeyboardType c (Finite (w_random w h * 50 + 25)) None :: h)).
      cbv zeta in IH. destruct IH as [n [Htexts [Hle [Hlogs [Hret Hlast]]]]].
      destruct (forEach r _ w _) as [evs res]. cbn [fst snd] in *.
      exists (S n). cbn [app typedTexts firstn List.length].
      split; [ | split; [ | split; [ | split]]].
      * now rewrite Htexts.
      * lia.
      * constructor; [reflexivity | exact Hlogs].
      * intros Hres. now rewrite (Hret Hres).
      * intros pre ev post Heq Hfail. destruct pre as [ | x pre]; cbn in Heq.
        -- injection Heq as <- _. cbn in Hfail. contradiction.
        -- injection Heq as _ Heq. exact (Hlast pre ev post Heq Hfail).
Qed.

Lemma forEach_keys_only (cs : list string) (h : Trace) :
  Forall (fun ev => isKeystroke ev = true)
    (fst (forEach cs (fun char =>
            bind (read w_random) (fun r =>
              let delay := JsNum.add (JsNum.mul (Finite r) (Finite 50)) (Finite 25) in
              call (fun w h => w_keyboardType w h char delay) (KeyboardType char delay)))
          w h)).
Proof.
  revert h. induction cs as [ | c r IH]; intros h; cbv zeta in *.
  - constructor.
  - pose proof (forEach_typing_step c r h) as Hstep. cbv zeta in Hstep.
    rewrite Hstep. clear Hstep.
    destruct (w_keyboardType w h c _).
    + repeat constructor.
    + constructor; [reflexivity | apply IH].
Qed.

End Typing.

(** X5.  [fillOrType] stops at the first call that fails.  Its calls are a
    fill with the empty string; then, if the fill succeeded, a click with no
    options on the same locator; then, if the click succeeded, keystrokes and
    nothing else, whose texts are the first characters of the text, in
    order.  A call that failed is the handler's last call; and when the
    handler returns, the fill and the click succeeded and every character was
    typed. *)
Theorem fillOrType_stops_at_first_failure ctx w h :
  let text := orElse (toStringOpt (arg0 (args ctx))) "" in
  let plain := {| force := None; timeout := None; otherOptions := [] |} in
  let calls := callsOf (fst (fillOrType ctx w h)) in
  (exists n, typedTexts calls = firstn n (JsString.chars text))
  /\ (exists o rest, calls = Fill (locator ctx) "" o :: rest)
  /\ ((exists e, calls = [Fill (locator ctx) "" (Some e)])
      \/ (exists e, calls = [Fill (locator ctx) "" None; Click (locator ctx) plain (Some e)])
      \/ (exists keys,
            calls = Fill (locator ctx) "" None :: Click (locator ctx) plain None :: keys
            /\ Forall (fun ev => isKeystroke ev = true) keys))
  /\ (forall pre ev post, calls = (pre ++ ev :: post)%list -> outcomeOf ev <> None -> post = [])
  /\ (snd (fillOrType ctx w h) = Returned tt ->
      typedTexts calls = JsString.chars text
      /\ exists keys,
           calls = Fill (locator ctx) "" None :: Click (locator ctx) plain None :: keys).
Proof.
  intros text plain calls. subst calls. unfold fillOrType, tryCatch. fold text.
  change noOptions with plain.
  rewrite bind_call.
  destruct (w_fill w h (locator ctx) "") as [e | ].
  { cbn. split; [ | split; [ | split; [ | split]]].
    - exists 0%nat. reflexivity.
    - eexists _, _. reflexivity.
    - left. eexists. reflexivity.
    - intros pre ev post Heq _. destruct pre as [ | x pre]; cbn in Heq.
      + now injection Heq as _ <-.
      + injection Heq as _ Heq. destruct pre; discriminate.
    - discriminate. }
  rewrite bind_call.
  destruct (w_click w _ (locator ctx) plain) as [e | ].
  { cbn. split; [ | split; [ | split; [ | split]]].
    - exists 0%nat. reflexivity.
    - eexists _, _. reflexivity.
    - right. left. eexists. reflexivity.
    - intros pre ev post Heq Hfail. destruct pre as [ | x pre]; cbn in Heq.
      + injection Heq as <- _. cbn in Hfail. contradiction.
      + injection Heq as _ Heq. destruct pre as [ | y pre]; cbn in Heq.
        * now injection Heq as _ <-.
        * injection Heq as _ Heq. destruct pre; discriminate.
    - discriminate. }
  pose proof (forEach_typed w (JsString.chars text)
                (Click (locator ctx) plain None :: Fill (locator ctx) "" None :: h))
    as Htyped.
  pose proof (forEach_keys_only w (JsString.chars text)
                (Click (locator ctx) plain None :: Fill (locator ctx) "" None :: h))
    as Hkeys.
  cbv zeta in Htyped. destruct Htyped as [n [Htexts [Hle [Hlogs [Hret Hlast]]]]].
  destruct (forEach (JsString.chars text) _ w _) as [evs res]. cbn [fst snd] in *.
  assert (Hcalls : forall tail, Forall (fun ev => isLog ev = true) tail ->
            callsOf (Fill (locator ctx) "" None :: Click (locator ctx) plain None
                     :: evs ++ tail) =
            Fill (locator ctx) "" None :: Click (locator ctx) plain None :: evs).
  { intros tail Htail. unfold callsOf. cbn [filter isLog negb]. rewrite filter_app.
    f_equal. f_equal.
    replace (filter (fun ev => negb (isLog ev)) tail) with (@nil Event).
    - rewrite app_nil_r. clear - Hlogs. induction Hlogs as [ | ev l Hev _ IH];
        [reflexivity | cbn; rewrite Hev; cbn; now rewrite IH].
    - clear - Htail. induction Htail as [ | ev l Hev _ IH];
        [reflexivity | cbn; rewrite Hev; cbn; exact IH]. }
  assert (Hparts :
    (forall pre ev post,
       Fill (locator ctx) "" None :: Click (locator ctx) plain None :: evs
         = (pre ++ ev :: post)%list -> outcomeOf ev <> None -> post = [])).
  { intros pre ev post Heq Hfail. destruct pre as [ | x pre]; cbn in Heq.
    - injection Heq as <- _. cbn in Hfail. contradiction.
    - injection Heq as _ Heq. destruct pre as [ | y pre]; cbn in Heq.
      + injection Heq as <- _. cbn in Hfail. contradiction.
      + injection Heq as _ Heq. exact (Hlast pre ev post Heq Hfail). }
  destruct res as [[] | e].
  - cbn [fst snd]. pose proof (Hcalls [] (Forall_nil _)) as Hcalls0.
    rewrite app_nil_r in Hcalls0. rewrite !Hcalls0. cbn [typedTexts].
    split; [ | split; [ | split; [ | split]]].
    + exists n. exact Htexts.
    + eexists _, _. reflexivity.
    + right. right. exists evs. split; [reflexivity | exact Hkeys].
    + exact Hparts.
    + intros _. split; [ | eexists; reflexivity].
      rewrite Htexts, (Hret eq_refl). apply firstn_all.
  - unfold logger. rewrite bind_emit. cbn [fst snd app throw].
    assert (Hcalls1 := Hcalls
      [Log (errorLog "error filling element" e [aux "xpath" (xpath ctx)])]).
    rewrite !Hcalls1 by (constructor; [reflexivity | constructor]).
    cbn [typedTexts].
    split; [ | split; [ | split; [ | split]]].
    + exists n. exact Htexts.
    + eexists _, _. reflexivity.
    + right. right. exists evs. split; [reflexivity | exact Hkeys].
    + exact Hparts.
    + discriminate.
Qed.

Lemma fillOrType_stops_at_stuck_key :
  callsOf (fst (fillOrType (Script.ctx [AString "abc"]) Faulty.stuckKey [])) =
    [Fill (Handle "target") "" None;
     Click (Handle "target") {| force := None; timeout := None; otherOptions := [] |} None;
     KeyboardType "a" (Finite ((1 # 2) * 50 + 25)) None;
     KeyboardType "b" (Finite ((1 # 2) * 50 + 25))
       (Some (Script.otherError "Unknown key: b"))]
  /\ forall pre ev post,
       callsOf (fst (fillOrType (Script.ctx [AString "abc"]) Faulty.stuckKey []))
         = (pre ++ ev :: post)%list ->
       outcomeOf ev <> None -> post = [].
Proof.
  split.
  - reflexivity.
  - apply (fillOrType_stops_at_first_failure (Script.ctx [AString "abc"])
             Faulty.stuckKey []).
Defined.

(** ** The offset of a percentage scroll *)

(** X6.  A percentage scroll never aims outside the scrollable range: for a
    resolved element and any text argument, when the range
    ([scrollHeight - clientHeight] of the element, or
    [body.scrollHeight - innerHeight] for [html]) is not negative, the top
    offset passed to [scrollTo] is a finite number between 0 and the range. *)
Theorem percentage_scroll_stays_in_range w ctx h n s :
  w_getNodeFromXpath w (Log (percentageLog ctx) :: h) (xpath ctx) = Returned (Some n) ->
  nodeType n = ELEMENT_NODE ->
  yArgOf (args ctx) = AString s ->
  let h1 := Log (percentageLog ctx) :: h in
  let el := element n in
  let range :=
    if String.eqb (JsString.toLowerCase (tagName el)) "html"
    then (w_bodyScrollHeight w h1 - w_innerHeight w h1)%Q
    else (scrollHeight el - clientHeight el)%Q in
  (0 <= range)%Q ->
  exists (offset : Q) (ev : Event),
    scrollElementToPercentage ctx w h = ([Log (percentageLog ctx); ev], Returned tt)
    /\ (ev = WindowScrollTo (smooth (Finite offset) (Finite (w_scrollX w h1)))
        \/ ev = ElementScrollTo el (smooth (Finite offset) (Finite (scrollLeft el))))
    /\ (0 <= offset <= range)%Q.
Proof.
  intros Hnode Hty Harg h1 el range Hrange.
  destruct (parsePercent_range s) as [p [Hp [Hlo Hhi]]].
  rewrite (scrollElementToPercentage_resolved w ctx h n s Hnode Hty Harg), Hp.
  fold h1. fold el. subst range.
  assert (Hratio : (0 <= p / 100 <= 1)%Q).
  { split; [apply Qle_shift_div_l | apply Qle_shift_div_r]; lra. }
  destruct (String.eqb _ "html").
  - exists ((w_bodyScrollHeight w h1 - w_innerHeight w h1) * (p / 100))%Q.
    eexists. split; [reflexivity | split; [left; reflexivity | ]].
    split; [apply Qmult_le_0_compat; tauto | ].
    rewrite <- (Qmult_1_r (w_bodyScrollHeight w h1 - w_innerHeight w h1)) at 2.
    rewrite !(Qmult_comm (w_bodyScrollHeight w h1 - w_innerHeight w h1)).
    apply Qmult_le_compat_r; tauto.
  - exists ((scrollHeight el - clientHeight el) * (p / 100))%Q.
    eexists. split; [reflexivity | split; [right; reflexivity | ]].
    split; [apply Qmult_le_0_compat; tauto | ].
    rewrite <- (Qmult_1_r (scrollHeight el - clientHeight el)) at 2.
    rewrite !(Qmult_comm (scrollHeight el - clientHeight el)).
    apply Qmult_le_compat_r; tauto.
Qed.

Lemma percentage_scroll_stays_in_range_on_div :
  exists (offset : Q) (ev : Event),
    scrollElementToPercentage (Script.ctx [AString "150%"])
      (Script.world (Script.div 120 900 300 5) false "" [] (fun _ => None) None None) [] =
      ([Log (percentageLog (Script.ctx [AString "150%"])); ev], Returned tt)
    /\ (ev = WindowScrollTo (smooth (Finite offset) (Finite 7))
        \/ ev = ElementScrollTo
                  {| tagName := "DIV"; boundingHeight := 120; scrollHeight := 900;
                     clientHeight := 300; scrollLeft := 5 |}
                  (smooth (Finite offset) (Finite 5)))
    /\ (0 <= offset <= 900 - 300)%Q.
Proof.
  refine (percentage_scroll_stays_in_range
            (Script.world (Script.div 120 900 300 5) false "" [] (fun _ => None) None None)
            (Script.ctx [AString "150%"]) []
            {| nodeType := ELEMENT_NODE;
               element := {| tagName := "DIV"; boundingHeight := 120; scrollHeight := 900;
                             clientHeight := 300; scrollLeft := 5 |} |}
            "150%" eq_refl eq_refl eq_refl _).
  cbv. discriminate.
Defined.

(** ** The clicks of [clickElement], whatever the page answers *)

(** One step of [resolveClickTarget]: the next question to the page, or the
    next test of an answer. *)
Ltac probe :=
  first
    [ rewrite bind_ret
    | rewrite bind_assoc
    | rewrite bind_query;
      match goal with
      | |- context [match ?q with Returned _ => _ | Thrown _ => _ end] =>
          let H := fresh "Hanswer" in destruct q eqn:H
      end
    | match goal with
      | |- context [if ?b then _ else _] => let H := fresh "Htest" in destruct b eqn:H
      end ];
  cbv beta iota zeta.

(** What [resolveClickTarget] returns is the locator itself, or, for a radio
    input, one of its four label locators, which matched an element when it
    was counted; the label by id is that of the id the page gave, which is
    not empty. *)
Lemma resolveClickTarget_chosen ctx w h target :
  snd (resolveClickTarget ctx w h) = Returned target ->
  target = locator ctx
  \/ (w_isRadio w h (locator ctx) = Returned true
      /\ (exists n, w_count w h target = Returned n /\ (1 <= n)%nat)
      /\ ((exists id,
             w_inputId w h (locator ctx) = Returned id /\ id <> ""
             /\ target =
                  PageLocator ("label[for=" ++ JsString.dquote ++ id ++ JsString.dquote ++ "]"))
          \/ target = First (PageLocator ("xpath=" ++ xpath ctx ++ "/ancestor::label"))
          \/ target = First (SubLocator (locator ctx) "xpath=following-sibling::label")
          \/ target = First (SubLocator (locator ctx) "xpath=preceding-sibling::label"))).
Proof.
  unfold resolveClickTarget, count.
  repeat probe;
    try (intros [= <-]); try discriminate; try (now left);
    right; (split; [reflexivity | ]);
    (split;
     [ eexists; split; [eassumption | ];
       match goal with H : (0 <? _)%nat = true |- _ => apply Nat.ltb_lt in H; lia end
     | ]).
  all: try (left; eexists; split; [reflexivity | split; [ | reflexivity]];
            match goal with H : String.eqb _ "" = false |- _ =>
              now apply String.eqb_neq in H end).
  all: try (right; left; reflexivity).
  all: try (right; right; left; reflexivity).
  all: right; right; right; reflexivity.
Qed.

Lemma clickAttempt_probe_failed w ctx h x :
  resolveClickTarget ctx w h = ([], Thrown x) ->
  clickAttempt ctx w h =
    ([Log (clickErrorLog ctx x)],
     Thrown (newPlaywrightCommandException
               ("Could not complete click action at [" ++ xpath ctx ++ "]. Reason: " ++
                message x))).
Proof.
  intros Hres. unfold clickAttempt, tryCatch, bind. rewrite Hres. reflexivity.
Qed.

(** X7.  Whatever the page answers, [clickElement] clicks at most twice and
    always the same element.  Either nothing is clicked, and the handler
    throws; or one click is made, with the options of the caller and
    [timeout] set to 5000, and it did not fail with a timeout error; or that
    click failed with a timeout error and exactly one more click follows,
    with the options of the caller and [force] set to [true].  The element
    clicked is the locator of the context, or, for a radio input only, one
    of its four label locators, which matched an element: the label whose
    [for] is the id the page gave, not empty, the ancestor label, the
    following-sibling label, the preceding-sibling label. *)
Theorem clicks_are_bounded ctx w h given :
  callerOptions (args ctx) given ->
  let h1 := Log (clickLog (w_pageUrl w h)) :: h in
  let bounded :=
    {| force := force given; timeout := Some 5000%Z; otherOptions := otherOptions given |} in
  let forced :=
    {| force := Some true; timeout := timeout given; otherOptions := otherOptions given |} in
  let clicks := clicksOf (fst (clickElement ctx w h)) in
  (clicks = [] /\ exists e, snd (clickElement ctx w h) = Thrown e)
  \/ exists target,
       (target = locator ctx
        \/ (w_isRadio w h1 (locator ctx) = Returned true
            /\ (exists n, w_count w h1 target = Returned n /\ (1 <= n)%nat)
            /\ ((exists id,
                   w_inputId w h1 (locator ctx) = Returned id /\ id <> ""
                   /\ target =
                        PageLocator ("label[for=" ++ JsString.dquote ++ id
                                     ++ JsString.dquote ++ "]"))
                \/ target = First (PageLocator ("xpath=" ++ xpath ctx ++ "/ancestor::label"))
                \/ target = First (SubLocator (locator ctx) "xpath=following-sibling::label")
                \/ target = First (SubLocator (locator ctx) "xpath=preceding-sibling::label"))))
       /\ ((exists o, clicks = [Click target bounded o]
                      /\ forall e, o = Some e -> className e <> TimeoutError)
           \/ exists e o2,
                className e = TimeoutError
                /\ clicks = [Click target bounded (Some e); Click target forced o2]).
Proof.
  intros Hgiven h1 bounded forced clicks. subst clicks.
  rewrite clickElement_run. cbv zeta. fold h1.
  pose proof (resolveClickTarget_silent ctx w h1) as Hsilent.
  pose proof (resolveClickTarget_chosen ctx w h1) as Hchosen.
  destruct (resolveClickTarget ctx w h1) as [evs [target | x]] eqn:Hres;
    cbn [fst snd] in Hsilent, Hchosen; subst evs.
  - right. exists target. split; [exact (Hchosen target eq_refl) | ].
    assert (Hnav : forall evs,
      clicksOf (fst (handlePossiblePageNavigation "click" (xpath ctx) (initialUrl ctx)
                       (domSettleTimeoutMs ctx) w (after evs h1))) = []).
    { intros evs. apply no_clicks, watcher_emits. }
    rewrite (clickAttempt_run w ctx h1 target Hres), clickWithRetry_run,
      (clickArgOf_given _ _ Hgiven).
    cbv zeta.
    change (withTimeout given 5000) with bounded.
    change (withForce given true) with forced.
    destruct (w_click w h1 target bounded) as [e | ] eqn:Hfirst.
    + unfold isTimeoutError. destruct (className e) eqn:Hkind.
      * right. exists e.
        destruct (w_click w _ target forced) as [e2 | ] eqn:Hforced.
        -- exists (Some e2). split; [exact Hkind | reflexivity].
        -- exists None. split; [exact Hkind | ].
           cbn [fst]. unfold clicksOf in *. cbn [filter isClick app].
           rewrite Hnav. reflexivity.
      * left. exists (Some e). split; [reflexivity | ]. intros ? [= <-]. congruence.
      * left. exists (Some e). split; [reflexivity | ]. intros ? [= <-]. congruence.
    + left. exists None. split; [ | discriminate].
      cbn [fst]. unfold clicksOf in *. cbn [filter isClick app].
      rewrite Hnav. reflexivity.
  - left. rewrite (clickAttempt_probe_failed w ctx h1 x Hres).
    split; [reflexivity | eexists; reflexivity].
Qed.

Lemma clicks_are_bounded_right_button :
  let given :=
    {| force := Some false; timeout := Some 100%Z; otherOptions := [("button", "right")] |} in
  clicksOf (fst (clickElement (Script.ctx [AOptions given]) Script.stubborn [])) =
    [Click (Handle "target")
       {| force := Some false; timeout := Some 5000%Z;
          otherOptions := [("button", "right")] |}
       (Some (Script.timeoutError "Timeout 5000ms exceeded."));
     Click (Handle "target")
       {| force := Some true; timeout := Some 100%Z;
          otherOptions := [("button", "right")] |}
       (Some (Script.timeoutError "Timeout 5000ms exceeded."))]
  /\ exists target e o2,
       className e = TimeoutError
       /\ clicksOf (fst (clickElement (Script.ctx [AOptions given]) Script.stubborn [])) =
            [Click target
               {| force := Some false; timeout := Some 5000%Z;
                  otherOptions := [("button", "right")] |} (Some e);
             Click target
               {| force := Some true; timeout := Some 100%Z;
                  otherOptions := [("button", "right")] |} o2].
Proof.
  intros given. split; [reflexivity | ].
  destruct (clicks_are_bounded (Script.ctx [AOptions given]) Script.stubborn [] given
              (recordArgument given []))
    as [[Hnone _] | [target [_ [[o [Hone _]] | [e [o2 [Hkind Htwo]]]]]]].
  - discriminate Hnone.
  - discriminate Hone.
  - exists target, e, o2. split; [exact Hkind | exact Htwo].
Defined.

(** X8.  The argument of a percentage scroll, for a resolved element.  When
    it is absent, the scroll goes to the top (offset 0), as for "0%".  When
    it is given and is no string ([null], a record), nothing is scrolled:
    the handler logs the failure and throws a command exception with the
    message of the failure. *)
Theorem percentage_scroll_argument w ctx h n :
  w_getNodeFromXpath w (Log (percentageLog ctx) :: h) (xpath ctx) = Returned (Some n) ->
  nodeType n = ELEMENT_NODE ->
  let h1 := Log (percentageLog ctx) :: h in
  let el := element n in
  (arg0 (args ctx) = AUndefined ->
   exists (offset : Q) (ev : Event),
     (offset == 0)%Q
     /\ scrollElementToPercentage ctx w h = ([Log (percentageLog ctx); ev], Returned tt)
     /\ (ev = WindowScrollTo (smooth (Finite offset) (Finite (w_scrollX w h1)))
         \/ ev = ElementScrollTo el (smooth (Finite offset) (Finite (scrollLeft el)))))
  /\ (arg0 (args ctx) <> AUndefined ->
      (forall s, arg0 (args ctx) <> AString s) ->
      exists l e,
        scrollElementToPercentage ctx w h = ([Log (percentageLog ctx); Log l], Thrown e)
        /\ className e = PlaywrightCommandException
        /\ reportsError l (message e)).
Proof.
  intros Hnode Hty h1 el. split.
  - intros Harg.
    assert (Hy : yArgOf (args ctx) = AString "0%") by (unfold yArgOf; now rewrite Harg).
    rewrite (scrollElementToPercentage_resolved w ctx h n "0%" Hnode Hty Hy).
    fold h1. fold el.
    replace (parsePercent "0%") with (Finite 0) by (vm_compute; reflexivity).
    destruct (String.eqb _ "html").
    + exists ((w_bodyScrollHeight w h1 - w_innerHeight w h1) * (0 / 100))%Q.
      eexists. split; [ | split; [reflexivity | left; reflexivity]].
      unfold Qdiv. now rewrite Qmult_0_l, Qmult_0_r.
    + exists ((scrollHeight el - clientHeight el) * (0 / 100))%Q.
      eexists. split; [ | split; [reflexivity | right; reflexivity]].
      unfold Qdiv. now rewrite Qmult_0_l, Qmult_0_r.
  - intros Hgiven Hnostring.
    unfold scrollElementToPercentage, percentageScript. exec.
    rewrite Hnode, (asElement_resolved _ Hty).
    assert (Hy : yArgOf (args ctx) = arg0 (args ctx)).
    { unfold yArgOf. destruct (arg0 (args ctx)); congruence. }
    rewrite Hy.
    destruct (arg0 (args ctx)) as [ | | s | o] eqn:Harg.
    + congruence.
    + eexists _, _. split; [reflexivity | split; [reflexivity | ]].
      repeat split.
    + now destruct (Hnostring s).
    + eexists _, _. split; [reflexivity | split; [reflexivity | ]].
      repeat split.
Qed.

Lemma percentage_scroll_argument_null :
  exists l e,
    scrollElementToPercentage (Script.ctx [ANull])
      (Script.world (Script.div 120 900 300 5) false "" [] (fun _ => None) None None) [] =
      ([Log (percentageLog (Script.ctx [ANull])); Log l], Thrown e)
    /\ className e = PlaywrightCommandException
    /\ reportsError l (message e).
Proof.
  refine (proj2 (percentage_scroll_argument
            (Script.world (Script.div 120 900 300 5) false "" [] (fun _ => None) None None)
            (Script.ctx [ANull]) []
            {| nodeType := ELEMENT_NODE;
               element := {| tagName := "DIV"; boundingHeight := 120; scrollHeight := 900;
                             clientHeight := 300; scrollLeft := 5 |} |}
            eq_refl eq_refl) _ _); cbn; intros; discriminate.
Defined.

(** ** The evaluation summary *)

Section Percentage.

Local Open Scope Q_scope.

Lemma isZero_ofNat (n : nat) :
  JsNum.isZero (inject_Z (Z.of_nat n)) = match n with O => true | S _ => false end.
Proof. destruct n; reflexivity. Qed.

Lemma percentage_value (s t : nat) :
  (0 < t)%nat ->
  Evals.percentage s t =
    Finite (inject_Z (Qfloor (inject_Z (Z.of_nat s) / inject_Z (Z.of_nat t) * 100
                              + (1 # 2)))).
Proof.
  intros Ht. unfold Evals.percentage, Evals.ofNat, JsNum.div.
  rewrite isZero_ofNat. destruct t; [lia | reflexivity].
Qed.

Lemma percentage_no_results : Evals.percentage 0 0 = NaN.
Proof. reflexivity. Qed.

Lemma ratio_range (s t : nat) :
  (0 < t)%nat -> (s <= t)%nat ->
  0 <= inject_Z (Z.of_nat s) / inject_Z (Z.of_nat t) <= 1.
Proof.
  intros Ht Hst.
  assert (Htq : 0 < inject_Z (Z.of_nat t)).
  { change 0 with (inject_Z 0). rewrite <- Zlt_Qlt. lia. }
  assert (Hs : 0 <= inject_Z (Z.of_nat s)).
  { change 0 with (inject_Z 0). rewrite <- Zle_Qle. lia. }
  assert (Hle : inject_Z (Z.of_nat s) <= inject_Z (Z.of_nat t)).
  { rewrite <- Zle_Qle. lia. }
  split.
  - apply Qle_shift_div_l; [exact Htq | lra].
  - apply Qle_shift_div_r; [exact Htq | lra].
Qed.

Lemma percentage_range (s t : nat) :
  (0 < t)%nat -> (s <= t)%nat ->
  exists p : Z, Evals.percentage s t = Finite (inject_Z p) /\ (0 <= p <= 100)%Z.
Proof.
  intros Ht Hst. rewrite (percentage_value s t Ht).
  eexists. split; [reflexivity | ].
  destruct (ratio_range s t Ht Hst) as [Hlo Hhi].
  generalize dependent (inject_Z (Z.of_nat s) / inject_Z (Z.of_nat t)).
  intros x Hlo Hhi. split.
  - change 0%Z with (Qfloor 0). apply Qfloor_resp_le. lra.
  - apply (Z.le_trans _ (Qfloor (100 + (1 # 2)))); [ | discriminate].
    apply Qfloor_resp_le. lra.
Qed.

Lemma percentage_all (t : nat) :
  (0 < t)%nat -> Evals.percentage t t = Finite (inject_Z 100).
Proof.
  intros Ht. rewrite (percentage_value t t Ht). do 2 f_equal.
  transitivity (Qfloor (100 + (1 # 2))); [ | reflexivity].
  apply Qfloor_comp.
  assert (Htq : ~ inject_Z (Z.of_nat t) == 0).
  { change 0 with (inject_Z 0). rewrite inject_Z_injective. lia. }
  field. exact Htq.
Qed.

Lemma percentage_none (t : nat) :
  (0 < t)%nat -> Evals.percentage 0 t = Finite (inject_Z 0).
Proof.
  intros Ht. rewrite (percentage_value 0 t Ht). do 2 f_equal.
  transitivity (Qfloor (0 + (1 # 2))); [ | reflexivity].
  apply Qfloor_comp.
  assert (Htq : ~ inject_Z (Z.of_nat t) == 0).
  { change 0 with (inject_Z 0). rewrite inject_Z_injective. lia. }
  change (inject_Z (Z.of_nat 0)) with 0. field. exact Htq.
Qed.

End Percentage.

Section Objects.

Context {A : Type}.

Lemma getOwn_cons (k : string) (a : A) (o : Evals.JsObject A) (key : string) :
  Evals.getOwn ((k, a) :: o) key = if String.eqb k key then Some a else Evals.getOwn o key.
Proof. unfold Evals.getOwn. cbn. destruct (String.eqb k key); reflexivity. Qed.

Lemma getOwn_set (o : Evals.JsObject A) (k : string) (v : A) (key : string) :
  Evals.getOwn (Evals.set o k v) key =
  if String.eqb k key then Some v else Evals.getOwn o key.
Proof.
  induction o as [ | [k' a] o IH]; cbn [Evals.set].
  - rewrite getOwn_cons. reflexivity.
  - destruct (String.eqb k' k) eqn:Hk.
    + apply String.eqb_eq in Hk. subst k'. rewrite !getOwn_cons.
      destruct (String.eqb k key); reflexivity.
    + rewrite !getOwn_cons, IH. destruct (String.eqb k' key) eqn:Hkey; [ | reflexivity].
      apply String.eqb_eq in Hkey. subst k'. rewrite String.eqb_sym, Hk. reflexivity.
Qed.

Lemma getOwn_assign (o : Evals.JsObject A) (k : string) (v : A) (key : string) :
  Evals.getOwn (Evals.assign o k v) key =
  if String.eqb k key && negb (String.eqb k "__proto__") then Some v
  else Evals.getOwn o key.
Proof.
  unfold Evals.assign. destruct (String.eqb k "__proto__"); cbn [negb].
  - now rewrite andb_false_r.
  - now rewrite getOwn_set, andb_true_r.
Qed.

Lemma getOwn_In (o : Evals.JsObject A) (key : string) :
  In key (Evals.keys o) <-> Evals.getOwn o key <> None.
Proof.
  induction o as [ | [k a] o IH]; cbn [Evals.keys map fst In].
  - split; [contradiction | intros H; now apply H].
  - rewrite getOwn_cons. destruct (String.eqb k key) eqn:Hk.
    + apply String.eqb_eq in Hk. split; [discriminate | now left].
    + apply String.eqb_neq in Hk. unfold Evals.keys in IH. rewrite <- IH. tauto.
Qed.

(** The rates of a loop [for (const k of l) o[k] = f(k)]. *)
Lemma getOwn_rates (f : string -> A) (l : list string) (o : Evals.JsObject A) (key : string) :
  Evals.getOwn (fold_left (fun o k => Evals.assign o k (f k)) l o) key =
  if Evals.includes l key && negb (String.eqb key "__proto__") then Some (f key)
  else Evals.getOwn o key.
Proof.
  revert o. induction l as [ | k l IH]; intros o; cbn [fold_left]; [reflexivity | ].
  rewrite IH, getOwn_assign. unfold Evals.includes. cbn [existsb].
  rewrite (String.eqb_sym key k).
  destruct (String.eqb k key) eqn:Hk; cbn [orb andb]; [ | reflexivity].
  apply String.eqb_eq in Hk. subst k.
  destruct (existsb _ l); cbn [andb]; [ | reflexivity].
  destruct (String.eqb key "__proto__"); reflexivity.
Qed.

End Objects.

Lemma includes_In (l : list string) (x : string) :
  Evals.includes l x = true <-> In x l.
Proof.
  unfold Evals.includes. rewrite existsb_exists. split.
  - intros [y [Hin Heq]]. apply String.eqb_eq in Heq. now subst.
  - intros Hin. exists x. split; [exact Hin | apply String.eqb_refl].
Qed.

Lemma distinct_In (l : list string) (x : string) : In x (Evals.distinct l) <-> In x l.
Proof.
  induction l as [ | y l IH]; cbn [Evals.distinct In]; [tauto | ].
  rewrite filter_In, IH. destruct (String.eqb x y) eqn:Hxy.
  - apply String.eqb_eq in Hxy. subst. cbn. intuition discriminate.
  - apply String.eqb_neq in Hxy. cbn. intuition congruence.
Qed.

Lemma includes_distinct (l : list string) (x : string) :
  Evals.includes (Evals.distinct l) x = Evals.includes l x.
Proof.
  apply eq_true_iff_eq. now rewrite !includes_In, distinct_In.
Qed.

Section Summary.

Variable tasksByName : Evals.JsObject Evals.Task.

Lemma mapR_returned {A B} (f : A -> Result B) (l : list A) (bs : list B) :
  Evals.mapR f l = Returned bs -> Forall2 (fun a b => f a = Returned b) l bs.
Proof.
  revert bs. induction l as [ | a l IH]; cbn [Evals.mapR]; intros bs.
  - intros [= <-]. constructor.
  - destruct (f a) as [b | e] eqn:Hb; cbn [Evals.andThen]; [ | discriminate].
    destruct (Evals.mapR f l) as [bs' | e]; cbn [Evals.andThen]; [ | discriminate].
    intros [= <-]. constructor; [exact Hb | now apply IH].
Qed.

Lemma mapR_thrown {A B} (f : A -> Result B) (l : list A) (e : Exn) :
  Evals.mapR f l = Thrown e -> exists a, In a l /\ f a = Thrown e.
Proof.
  induction l as [ | a l IH]; cbn [Evals.mapR]; [discriminate | ].
  destruct (f a) as [b | e'] eqn:Hb; cbn [Evals.andThen].
  - destruct (Evals.mapR f l) as [bs' | e']; cbn [Evals.andThen]; [discriminate | ].
    intros [= ->]. destruct (IH eq_refl) as [x [Hin Hx]]. exists x. split; [now right | exact Hx].
  - intros [= ->]. exists a. split; [now left | exact Hb].
Qed.

Lemma mapR_total {A B} (f : A -> Result B) (l : list A) :
  (forall a, In a l -> exists b, f a = Returned b) -> exists bs, Evals.mapR f l = Returned bs.
Proof.
  intros Hall. destruct (Evals.mapR f l) as [bs | e] eqn:Hmap; [now exists bs | ].
  destruct (mapR_thrown f l e Hmap) as [a [Hin Ha]].
  destruct (Hall a Hin) as [b Hb]. congruence.
Qed.

Lemma verdict_returned (r : Evals.SummaryResult) (v : Evals.Verdict) :
  Evals.verdict tasksByName r = Returned v ->
  Evals.eval v = Evals.name (Evals.input r)
  /\ Evals.model v = Evals.modelName (Evals.input r).
Proof.
  unfold Evals.verdict. destruct (Evals.categoriesOf _ _); cbn; [ | discriminate].
  intros [= <-]. split; reflexivity.
Qed.

Lemma verdicts_returned (l : list Evals.SummaryResult) (vs : list Evals.Verdict) :
  Evals.mapR (Evals.verdict tasksByName) l = Returned vs ->
  map Evals.eval vs = map (fun r => Evals.name (Evals.input r)) l
  /\ map Evals.model vs = map (fun r => Evals.modelName (Evals.input r)) l.
Proof.
  intros Hmap. apply mapR_returned in Hmap.
  induction Hmap as [ | r v l vs Hv _ [IHe IHm]]; [split; reflexivity | ].
  destruct (verdict_returned r v Hv) as [He Hm]. cbn [map].
  split; congruence.
Qed.

End Summary.

Section SummaryOf.

Variable tasksByName : Evals.JsObject Evals.Task.
Variable results : list Evals.SummaryResult.

Local Abbreviation modelOf r := (Evals.modelName (Evals.input r)).
Local Abbreviation failing := (fun r : Evals.SummaryResult => negb (Evals.succeeded r)).

(** The three parts of [generateSummary] that can throw, and what the rest
    makes of them. *)
Lemma generateSummary_returned (experimentName : string) (s : Evals.Summary) :
  Evals.generateSummary tasksByName results experimentName = Returned s ->
  Evals.mapR (Evals.verdict tasksByName) (filter Evals.succeeded results)
    = Returned (Evals.passed s)
  /\ Evals.mapR (Evals.verdict tasksByName) (filter failing results)
     = Returned (Evals.failed s)
  /\ (exists counts,
        Evals.foldR (Evals.countTask tasksByName results) (Evals.keys tasksByName) []
          = Returned counts
        /\ Evals.categoryRates s =
             fold_left (fun categories (entry : string * Evals.Counts) =>
                          let (cat, counts) := entry in
                          Evals.assign categories cat
                            (Evals.percentage (Evals.success counts) (Evals.total counts)))
                       counts [])
  /\ Evals.modelRates s =
       fold_left (fun models model =>
                    Evals.assign models model
                      (Evals.percentage
                         (length (filter Evals.succeeded
                                    (filter (fun r => String.eqb (modelOf r) model) results)))
                         (length (filter (fun r => String.eqb (modelOf r) model) results))))
                 (Evals.distinct (map (fun r => modelOf r) results)) [].
Proof.
  unfold Evals.generateSummary.
  destruct (Evals.mapR _ (filter Evals.succeeded results)) as [p | e];
    cbn [Evals.andThen]; [ | discriminate].
  destruct (Evals.mapR _ (filter failing results)) as [f | e];
    cbn [Evals.andThen]; [ | discriminate].
  destruct (Evals.foldR _ _ _) as [counts | e]; cbn [Evals.andThen]; [ | discriminate].
  intros [= <-]. cbn. repeat split. exists counts. split; reflexivity.
Qed.

Lemma reportsModel_passed (experimentName : string) (s : Evals.Summary) (m : string) :
  Evals.generateSummary tasksByName results experimentName = Returned s ->
  (reportsModel (Evals.passed s) m <->
   exists r, In r results /\ Evals.succeeded r = true /\ modelOf r = m)
  /\ (reportsModel (Evals.failed s) m <->
      exists r, In r results /\ Evals.succeeded r = false /\ modelOf r = m).
Proof.
  intros Hs. destruct (generateSummary_returned _ _ Hs) as [Hp [Hf _]].
  apply verdicts_returned in Hp, Hf. destruct Hp as [_ Hp]. destruct Hf as [_ Hf].
  assert (Hin : forall vs, reportsModel vs m <-> In m (map Evals.model vs)).
  { intros vs. unfold reportsModel. rewrite in_map_iff. firstorder. }
  rewrite !Hin, Hp, Hf, !in_map_iff.
  split; split.
  - intros [r [Hm Hr]]. apply filter_In in Hr. exists r. tauto.
  - intros [r [Hr [Hok Hm]]]. exists r. split; [exact Hm | ]. apply filter_In. tauto.
  - intros [r [Hm Hr]]. apply filter_In in Hr. exists r.
    destruct Hr as [Hr Hok]. apply negb_true_iff in Hok. tauto.
  - intros [r [Hr [Hok Hm]]]. exists r. split; [exact Hm | ]. apply filter_In.
    rewrite Hok. tauto.
Qed.

Lemma filter_length_le {A} (p : A -> bool) (l : list A) :
  (length (filter p l) <= length l)%nat.
Proof.
  induction l as [ | a l IH]; cbn; [lia | ]. destruct (p a); cbn; lia.
Qed.

Lemma filter_all {A} (p : A -> bool) (l : list A) :
  (forall a, In a l -> p a = true) -> filter p l = l.
Proof.
  induction l as [ | a l IH]; cbn; [reflexivity | ]. intros Hall.
  rewrite (Hall a (or_introl eq_refl)), IH; [reflexivity | ]. intros x Hx. apply Hall. now right.
Qed.

Lemma filter_none {A} (p : A -> bool) (l : list A) :
  (forall a, In a l -> p a = false) -> filter p l = [].
Proof.
  induction l as [ | a l IH]; cbn; [reflexivity | ]. intros Hall.
  rewrite (Hall a (or_introl eq_refl)), IH; [reflexivity | ]. intros x Hx. apply Hall. now right.
Qed.

End SummaryOf.

(** X9.  The rate of a model in the summary agrees with the verdicts of the
    summary.  A model of which [passed] and [failed] say nothing has no
    rate; a model they report has one, and it is a whole number from 0 to
    100, never NaN: 100 when no verdict in [failed] is about the model, 0 when
    none in [passed] is.  A model named [__proto__] gets no rate at all. *)
Theorem model_rates tasksByName results experimentName s m :
  Evals.generateSummary tasksByName results experimentName = Returned s ->
  let rate := Evals.getOwn (Evals.modelRates s) m in
  (m = "__proto__" -> rate = None)
  /\ (~ reportsModel (Evals.passed s) m -> ~ reportsModel (Evals.failed s) m ->
      rate = None)
  /\ (m <> "__proto__" ->
      reportsModel (Evals.passed s) m \/ reportsModel (Evals.failed s) m ->
      exists p : Z,
        rate = Some (Finite (inject_Z p)) /\ (0 <= p <= 100)%Z
        /\ (~ reportsModel (Evals.failed s) m -> p = 100%Z)
        /\ (~ reportsModel (Evals.passed s) m -> p = 0%Z)).
Proof.
  intros Hs rate. subst rate.
  destruct (reportsModel_passed _ _ _ _ m Hs) as [Hpassed Hfailed].
  destruct (generateSummary_returned _ _ _ _ Hs) as [_ [_ [_ ->]]].
  set (modelOf := fun r : Evals.SummaryResult => Evals.modelName (Evals.input r)) in *.
  rewrite (getOwn_rates
             (fun model =>
                Evals.percentage
                  (length (filter Evals.succeeded
                             (filter (fun r => String.eqb (modelOf r) model) results)))
                  (length (filter (fun r => String.eqb (modelOf r) model) results)))).
  rewrite includes_distinct. cbn [Evals.getOwn find option_map].
  set (ofModel := filter (fun r => String.eqb (modelOf r) m) results).
  assert (HofModel : forall r, In r ofModel <-> In r results /\ modelOf r = m).
  { intros r. unfold ofModel. rewrite filter_In, String.eqb_eq. tauto. }
  split; [ | split].
  - intros ->. now rewrite andb_false_r.
  - intros Hnp Hnf.
    destruct (Evals.includes (map modelOf results) m) eqn:Hinc; [ | reflexivity].
    apply includes_In, in_map_iff in Hinc. destruct Hinc as [r [Hm Hr]].
    destruct (Evals.succeeded r) eqn:Hok.
    + destruct Hnp. apply Hpassed. exists r. tauto.
    + destruct Hnf. apply Hfailed. exists r. tauto.
  - intros Hm Hreported.
    assert (Hsome : exists r, In r ofModel).
    { destruct Hreported as [H | H]; [apply Hpassed in H | apply Hfailed in H];
        destruct H as [r [Hr [_ Hmr]]]; exists r; apply HofModel; tauto. }
    assert (Hinc : Evals.includes (map modelOf results) m = true).
    { destruct Hsome as [r Hr]. apply HofModel in Hr.
      apply includes_In, in_map_iff. exists r. tauto. }
    apply String.eqb_neq in Hm. rewrite Hinc, Hm. cbn [negb andb].
    assert (Hpos : (0 < length ofModel)%nat).
    { destruct Hsome as [r Hr]. destruct ofModel; [contradiction | cbn; lia]. }
    destruct (percentage_range (length (filter Evals.succeeded ofModel)) (length ofModel)
                Hpos (filter_length_le _ _)) as [p [Hp Hrange]].
    exists p. split; [now rewrite Hp | split; [exact Hrange | split]].
    + intros Hnf.
      rewrite filter_all in Hp.
      * rewrite (percentage_all _ Hpos) in Hp. now injection Hp.
      * intros r Hr. destruct (Evals.succeeded r) eqn:Hok; [reflexivity | ].
        destruct Hnf. apply Hfailed. exists r. apply HofModel in Hr. tauto.
    + intros Hnp.
      rewrite filter_none in Hp.
      * cbn [length] in Hp. rewrite (percentage_none _ Hpos) in Hp. now injection Hp.
      * intros r Hr. destruct (Evals.succeeded r) eqn:Hok; [ | reflexivity].
        destruct Hnp. apply Hpassed. exists r. apply HofModel in Hr. tauto.
Qed.

(** ** The counts of the categories *)

Section Counting.

Variable tasksByName : Evals.JsObject Evals.Task.
Variable results : list Evals.SummaryResult.

Lemma addToCategory_counts n s counts cat c :
  inherited c = false ->
  let counts' := Evals.addToCategory n s counts cat in
  recorded counts' c = (String.eqb cat c || recorded counts c)%bool
  /\ totalOf counts' c = (totalOf counts c + if String.eqb cat c then n else 0)%nat
  /\ successOf counts' c = (successOf counts c + if String.eqb cat c then s else 0)%nat.
Proof.
  intros Hc counts'. subst counts'.
  unfold recorded, totalOf, successOf, Evals.addToCategory, Evals.get.
  destruct (String.eqb cat c) eqn:Hcat.
  - apply String.eqb_eq in Hcat. subst cat. fold (inherited c). rewrite Hc.
    destruct (Evals.getOwn counts c) as [k | ];
      rewrite getOwn_set, String.eqb_refl; cbn; repeat split; lia.
  - destruct (Evals.getOwn counts cat) as [k | ].
    + rewrite getOwn_set, Hcat. cbn. repeat split; lia.
    + destruct (existsb _ _).
      * cbn. repeat split; lia.
      * rewrite getOwn_set, Hcat. cbn. repeat split; lia.
Qed.

Lemma addToCategory_keys n s counts cat :
  NoDup (Evals.keys counts) ->
  Forall (fun k => inherited k = false) (Evals.keys counts) ->
  NoDup (Evals.keys (Evals.addToCategory n s counts cat))
  /\ Forall (fun k => inherited k = false) (Evals.keys (Evals.addToCategory n s counts cat)).
Proof.
  assert (Hset : forall (o : Evals.JsObject Evals.Counts) k v,
            Evals.keys (Evals.set o k v) =
              if Evals.includes (Evals.keys o) k then Evals.keys o
              else (Evals.keys o ++ [k])%list).
  { intros o k v. induction o as [ | [k' a] o IH]; [reflexivity | ].
    cbn [Evals.set Evals.keys map fst Evals.includes existsb].
    rewrite (String.eqb_sym k k').
    destruct (String.eqb k' k); [reflexivity | ]. cbn [orb map fst].
    unfold Evals.keys, Evals.includes in IH. rewrite IH.
    destruct (existsb _ _); reflexivity. }
  intros Hnodup Hown.
  assert (Hadd : forall v, inherited cat = false ->
            NoDup (Evals.keys (Evals.set counts cat v))
            /\ Forall (fun k => inherited k = false) (Evals.keys (Evals.set counts cat v))).
  { intros v Hcat. rewrite Hset.
    destruct (Evals.includes (Evals.keys counts) cat) eqn:Hin; [now split | ].
    split.
    - apply NoDup_app; [exact Hnodup | repeat constructor; intros [] | ].
      intros k Hk [<- | []].
      apply includes_In in Hk. congruence.
    - apply Forall_app. split; [exact Hown | now repeat constructor]. }
  unfold Evals.addToCategory, Evals.get.
  destruct (Evals.getOwn counts cat) as [k | ] eqn:Hget.
  - apply Hadd.
    assert (Hin : In cat (Evals.keys counts)) by (apply getOwn_In; congruence).
    rewrite Forall_forall in Hown. exact (Hown _ Hin).
  - fold (inherited cat). destruct (inherited cat) eqn:Hcat; [now split | now apply Hadd].
Qed.

Lemma fold_addToCategory n s cats counts c :
  inherited c = false ->
  let counts' := fold_left (Evals.addToCategory n s) cats counts in
  recorded counts' c = (Evals.includes cats c || recorded counts c)%bool
  /\ totalOf counts' c = (totalOf counts c + count_occ string_dec cats c * n)%nat
  /\ successOf counts' c = (successOf counts c + count_occ string_dec cats c * s)%nat.
Proof.
  intros Hc. revert counts. induction cats as [ | cat cats IH]; intros counts; cbn zeta.
  - cbn. repeat split; lia.
  - cbn [fold_left].
    destruct (IH (Evals.addToCategory n s counts cat)) as [Hr [Ht Hs]].
    destruct (addToCategory_counts n s counts cat c Hc) as [Hr1 [Ht1 Hs1]].
    rewrite Hr, Ht, Hs, Hr1, Ht1, Hs1.
    unfold Evals.includes. cbn [existsb count_occ]. rewrite (String.eqb_sym c cat).
    destruct (string_dec cat c) as [-> | Hne].
    + rewrite String.eqb_refl. rewrite !orb_true_r. cbn [orb]. repeat split; lia.
    + apply String.eqb_neq in Hne. rewrite Hne. cbn [orb]. repeat split; lia.
Qed.

Lemma fold_addToCategory_keys n s cats counts :
  NoDup (Evals.keys counts) ->
  Forall (fun k => inherited k = false) (Evals.keys counts) ->
  NoDup (Evals.keys (fold_left (Evals.addToCategory n s) cats counts))
  /\ Forall (fun k => inherited k = false)
            (Evals.keys (fold_left (Evals.addToCategory n s) cats counts)).
Proof.
  revert counts. induction cats as [ | cat cats IH]; intros counts Hn Ho; [now split | ].
  cbn [fold_left]. destruct (addToCategory_keys n s counts cat Hn Ho) as [Hn' Ho'].
  now apply IH.
Qed.

Lemma totalIn_cons taskName task l c :
  totalIn results ((taskName, task) :: l) c =
    (count_occ string_dec (Evals.categories task) c * length (resultsOf results taskName)
     + totalIn results l c)%nat.
Proof. reflexivity. Qed.

Lemma successIn_cons taskName task l c :
  successIn results ((taskName, task) :: l) c =
    (count_occ string_dec (Evals.categories task) c
       * length (filter Evals.succeeded (resultsOf results taskName))
     + successIn results l c)%nat.
Proof. reflexivity. Qed.

Lemma countTask_own counts taskName task :
  Evals.getOwn tasksByName taskName = Some task ->
  Evals.countTask tasksByName results counts taskName =
    Returned (fold_left
                (Evals.addToCategory
                   (length (resultsOf results taskName))
                   (length (filter Evals.succeeded (resultsOf results taskName))))
                (Evals.categories task) counts).
Proof.
  intros Hown. unfold Evals.countTask, Evals.categoriesOf, Evals.get. rewrite Hown.
  reflexivity.
Qed.

Lemma count_tasks (l : Evals.JsObject Evals.Task) counts :
  (forall kv, In kv l -> Evals.getOwn tasksByName (fst kv) = Some (snd kv)) ->
  NoDup (Evals.keys counts) ->
  Forall (fun k => inherited k = false) (Evals.keys counts) ->
  exists counts',
    Evals.foldR (Evals.countTask tasksByName results) (Evals.keys l) counts
      = Returned counts'
    /\ NoDup (Evals.keys counts')
    /\ Forall (fun k => inherited k = false) (Evals.keys counts')
    /\ forall c, inherited c = false ->
         recorded counts' c
           = (existsb (fun kv => Evals.includes (Evals.categories (snd kv)) c) l
              || recorded counts c)%bool
         /\ totalOf counts' c = (totalOf counts c + totalIn results l c)%nat
         /\ successOf counts' c = (successOf counts c + successIn results l c)%nat.
Proof.
  revert counts. induction l as [ | [taskName task] l IH]; intros counts Hown Hn Ho.
  - exists counts. cbn. repeat split; try assumption; lia.
  - cbn [Evals.keys map fst Evals.foldR].
    rewrite (countTask_own counts taskName task (Hown (taskName, task) (or_introl eq_refl))).
    cbn [Evals.andThen].
    set (n := length (resultsOf results taskName)).
    set (s := length (filter Evals.succeeded (resultsOf results taskName))).
    destruct (fold_addToCategory_keys n s (Evals.categories task) counts Hn Ho)
      as [Hn' Ho'].
    destruct (IH (fold_left (Evals.addToCategory n s) (Evals.categories task) counts))
      as [counts' [Hrun [Hn'' [Ho'' Hsum]]]]; try assumption.
    { intros kv Hkv. apply Hown. now right. }
    exists counts'. split; [exact Hrun | split; [exact Hn'' | split; [exact Ho'' | ]]].
    intros c Hc. destruct (Hsum c Hc) as [Hr [Ht Hs]].
    destruct (fold_addToCategory n s (Evals.categories task) counts c Hc) as [Hr1 [Ht1 Hs1]].
    rewrite Hr, Ht, Hs, Hr1, Ht1, Hs1.
    rewrite totalIn_cons, successIn_cons. cbn [existsb snd]. fold n. fold s.
    split; [ | split; lia].
    destruct (existsb _ l), (Evals.includes _ c), (recorded counts c); reflexivity.
Qed.

Lemma getOwn_NoDup {A} (o : Evals.JsObject A) (kv : string * A) :
  NoDup (Evals.keys o) -> In kv o -> Evals.getOwn o (fst kv) = Some (snd kv).
Proof.
  induction o as [ | [k a] o IH]; [intros _ [] | ].
  cbn [Evals.keys map fst]. intros Hnodup [<- | Hin].
  - rewrite getOwn_cons. cbn [fst snd]. now rewrite String.eqb_refl.
  - inversion Hnodup as [ | ? ? Hk Hrest]. subst.
    rewrite getOwn_cons. destruct (String.eqb k (fst kv)) eqn:Hkv.
    + apply String.eqb_eq in Hkv. subst k. destruct Hk.
      apply in_map_iff. exists kv. split; [reflexivity | exact Hin].
    + now apply IH.
Qed.

Lemma getOwn_category_rates (g : Evals.Counts -> JsNumber)
    (counts : Evals.JsObject Evals.Counts) (o : Evals.JsObject JsNumber) (c : string) :
  NoDup (Evals.keys counts) ->
  Forall (fun k => inherited k = false) (Evals.keys counts) ->
  Evals.getOwn
    (fold_left (fun categories (entry : string * Evals.Counts) =>
                  let (cat, counts) := entry in Evals.assign categories cat (g counts))
               counts o) c =
  match Evals.getOwn counts c with
  | Some k => Some (g k)
  | None => Evals.getOwn o c
  end.
Proof.
  revert o. induction counts as [ | [cat k] counts IH]; intros o Hn Ho; [reflexivity | ].
  cbn [fold_left]. cbn [Evals.keys map fst] in Hn, Ho.
  inversion Hn as [ | ? ? Hcat Hrest]. inversion Ho as [ | ? ? Hown Hothers]. subst.
  rewrite (IH _ Hrest Hothers), getOwn_cons, getOwn_assign.
  assert (Hproto : String.eqb cat "__proto__" = false).
  { destruct (String.eqb cat "__proto__") eqn:Hp; [ | reflexivity].
    apply String.eqb_eq in Hp. subst cat. discriminate Hown. }
  rewrite Hproto. cbn [negb]. rewrite andb_true_r.
  destruct (String.eqb cat c) eqn:Hc.
  - apply String.eqb_eq in Hc. subst cat.
    destruct (Evals.getOwn counts c) eqn:Hget; [ | reflexivity].
    destruct Hcat. apply getOwn_In. unfold Evals.keys. congruence.
  - reflexivity.
Qed.

End Counting.

Section CategorySums.

Variable tasksByName : Evals.JsObject Evals.Task.
Variable results : list Evals.SummaryResult.

Lemma listed_existsb (l : Evals.JsObject Evals.Task) (c : string) :
  existsb (fun kv => Evals.includes (Evals.categories (snd kv)) c) l = true <-> listed l c.
Proof.
  rewrite existsb_exists. unfold listed. split.
  - intros [[taskName task] [Hin Hc]]. apply includes_In in Hc. now exists taskName, task.
  - intros [taskName [task [Hin Hc]]]. exists (taskName, task).
    split; [exact Hin | now apply includes_In].
Qed.

Lemma resultsOf_In (taskName : string) (r : Evals.SummaryResult) :
  In r (resultsOf results taskName) <-> In r results /\ Evals.name (Evals.input r) = taskName.
Proof. unfold resultsOf. rewrite filter_In, String.eqb_eq. tauto. Qed.

Lemma successIn_le (l : Evals.JsObject Evals.Task) (c : string) :
  (successIn results l c <= totalIn results l c)%nat.
Proof.
  induction l as [ | [taskName task] l IH]; [cbn; lia | ].
  rewrite totalIn_cons, successIn_cons.
  pose proof (filter_length_le Evals.succeeded (resultsOf results taskName)). nia.
Qed.

Lemma totalIn_positive (l : Evals.JsObject Evals.Task) (c : string) :
  (0 < totalIn results l c)%nat <-> exists r, In r results /\ countedIn l c r.
Proof.
  induction l as [ | [taskName task] l IH].
  - cbn. split; [lia | ]. intros [r [_ [task [[] _]]]].
  - rewrite totalIn_cons. split.
    + intros Hpos.
      destruct (Nat.eq_dec (totalIn results l c) 0) as [Hzero | Hrest].
      * rewrite Hzero, Nat.add_0_r in Hpos.
        assert (Hc : In c (Evals.categories task)).
        { apply (count_occ_In string_dec). nia. }
        destruct (resultsOf results taskName) as [ | r rest] eqn:Hres;
          [cbn in Hpos; lia | ].
        assert (Hr : In r (resultsOf results taskName)) by (rewrite Hres; now left).
        apply resultsOf_In in Hr. destruct Hr as [Hr Hname].
        exists r. split; [exact Hr | ]. unfold countedIn. exists task. rewrite Hname. split; [now left | exact Hc].
      * destruct (proj1 IH) as [r [Hr [task' [Hin Hc]]]]; [lia | ].
        exists r. split; [exact Hr | ]. exists task'. split; [now right | exact Hc].
    + intros [r [Hr [task' [[Heq | Hin] Hc]]]].
      * injection Heq as -> ->.
        assert (Hocc : (0 < count_occ string_dec (Evals.categories task') c)%nat)
          by now apply count_occ_In.
        assert (Hres : In r (resultsOf results (Evals.name (Evals.input r))))
          by now apply resultsOf_In.
        destruct (resultsOf results (Evals.name (Evals.input r))); [contradiction | ].
        cbn [length]. nia.
      * assert (0 < totalIn results l c)%nat; [ | lia].
        apply IH. exists r. split; [exact Hr | ]. now exists task'.
Qed.

Lemma successIn_all (l : Evals.JsObject Evals.Task) (c : string) :
  (forall r, In r results -> countedIn l c r -> Evals.succeeded r = true) ->
  successIn results l c = totalIn results l c.
Proof.
  induction l as [ | [taskName task] l IH]; [reflexivity | ].
  intros Hall. rewrite totalIn_cons, successIn_cons, IH.
  - destruct (count_occ string_dec (Evals.categories task) c) eqn:Hocc; [reflexivity | ].
    rewrite filter_all; [reflexivity | ].
    intros r Hr. apply resultsOf_In in Hr. destruct Hr as [Hr Hname].
    apply (Hall r Hr). unfold countedIn. exists task. rewrite Hname. split; [now left | ].
    apply (count_occ_In string_dec). lia.
  - intros r Hr [task' [Hin Hc]]. apply (Hall r Hr). exists task'. split; [now right | exact Hc].
Qed.

Lemma successIn_none (l : Evals.JsObject Evals.Task) (c : string) :
  (forall r, In r results -> countedIn l c r -> Evals.succeeded r = false) ->
  successIn results l c = 0%nat.
Proof.
  induction l as [ | [taskName task] l IH]; [reflexivity | ].
  intros Hall. rewrite successIn_cons, IH.
  - destruct (count_occ string_dec (Evals.categories task) c) eqn:Hocc; [reflexivity | ].
    rewrite filter_none; [cbn; lia | ].
    intros r Hr. apply resultsOf_In in Hr. destruct Hr as [Hr Hname].
    apply (Hall r Hr). unfold countedIn. exists task. rewrite Hname. split; [now left | ].
    apply (count_occ_In string_dec). lia.
  - intros r Hr [task' [Hin Hc]]. apply (Hall r Hr). exists task'. split; [now right | exact Hc].
Qed.

(** What the summary holds for a category, by the sums of the loop. *)
Lemma category_rate_value (experimentName : string) (s : Evals.Summary) (c : string) :
  NoDup (Evals.keys tasksByName) ->
  Evals.generateSummary tasksByName results experimentName = Returned s ->
  Evals.getOwn (Evals.categoryRates s) c =
    if negb (inherited c)
       && existsb (fun kv => Evals.includes (Evals.categories (snd kv)) c) tasksByName
    then Some (Evals.percentage (successIn results tasksByName c)
                                (totalIn results tasksByName c))
    else None.
Proof.
  intros Hnodup Hs.
  destruct (generateSummary_returned _ _ _ _ Hs) as [_ [_ [[counts [Hcounts ->]] _]]].
  destruct (count_tasks tasksByName results tasksByName [])
    as [counts' [Hrun [Hn [Ho Hsum]]]].
  { intros kv. now apply getOwn_NoDup. }
  { constructor. }
  { constructor. }
  rewrite Hcounts in Hrun. injection Hrun as <-.
  rewrite (getOwn_category_rates
             (fun k => Evals.percentage (Evals.success k) (Evals.total k)) counts [] c Hn Ho).
  destruct (inherited c) eqn:Hc; cbn [negb andb].
  - destruct (Evals.getOwn counts c) eqn:Hget; [ | reflexivity].
    assert (Hin : In c (Evals.keys counts)) by (apply getOwn_In; congruence).
    rewrite Forall_forall in Ho. specialize (Ho c Hin). cbn beta in Ho. congruence.
  - destruct (Hsum c Hc) as [Hr [Ht Hsuc]].
    unfold recorded, totalOf, successOf in Hr, Ht, Hsuc. cbn in Hr, Ht, Hsuc.
    rewrite orb_false_r in Hr. rewrite <- Hr, <- Ht, <- Hsuc.
    destruct (Evals.getOwn counts c); reflexivity.
Qed.

End CategorySums.

(** X10.  The rate of a category in the summary, when the names of
    [tasksByName] are distinct.  A category that no task lists, or whose name
    plain objects inherit, has no rate.  A category that is listed but of
    whose tasks there is no result has the rate NaN.  Otherwise the rate is
    a whole number from 0 to 100: 100 when each result of a task that lists
    the category succeeded, 0 when none did. *)
Theorem category_rates tasksByName results experimentName s c :
  NoDup (Evals.keys tasksByName) ->
  Evals.generateSummary tasksByName results experimentName = Returned s ->
  let rate := Evals.getOwn (Evals.categoryRates s) c in
  let counted := fun r => In r results /\ countedIn tasksByName c r in
  (inherited c = true \/ ~ listed tasksByName c -> rate = None)
  /\ (inherited c = false -> listed tasksByName c -> (forall r, ~ counted r) ->
      rate = Some NaN)
  /\ (inherited c = false -> (exists r, counted r) ->
      exists p : Z,
        rate = Some (Finite (inject_Z p)) /\ (0 <= p <= 100)%Z
        /\ ((forall r, counted r -> Evals.succeeded r = true) -> p = 100%Z)
        /\ ((forall r, counted r -> Evals.succeeded r = false) -> p = 0%Z)).
Proof.
  intros Hnodup Hs rate counted. subst rate.
  rewrite (category_rate_value _ _ _ _ c Hnodup Hs).
  pose proof (listed_existsb tasksByName c) as Hlisted.
  pose proof (totalIn_positive results tasksByName c) as Hpos.
  split; [ | split].
  - intros [-> | Hno]; [reflexivity | ].
    destruct (existsb _ tasksByName); [ | now rewrite andb_false_r].
    destruct Hno. now apply Hlisted.
  - intros -> Hl Hnone. apply Hlisted in Hl. rewrite Hl. cbn [negb andb].
    assert (Hzero : totalIn results tasksByName c = 0%nat).
    { destruct (totalIn results tasksByName c) eqn:Ht; [reflexivity | ].
      destruct (proj1 Hpos) as [r Hr]; [lia | ]. destruct (Hnone r Hr). }
    pose proof (successIn_le results tasksByName c) as Hle.
    rewrite Hzero in *. replace (successIn results tasksByName c) with 0%nat by lia.
    reflexivity.
  - intros -> Hsome.
    assert (Hl : listed tasksByName c).
    { destruct Hsome as [r [_ [task [Hin Hc]]]]. now exists (Evals.name (Evals.input r)), task. }
    apply Hlisted in Hl. rewrite Hl. cbn [negb andb].
    apply Hpos in Hsome.
    destruct (percentage_range _ _ Hsome (successIn_le results tasksByName c))
      as [p [Hp Hrange]].
    exists p. split; [now rewrite Hp | split; [exact Hrange | split]].
    + intros Hall. rewrite successIn_all in Hp.
      * rewrite (percentage_all _ Hsome) in Hp. now injection Hp.
      * intros r Hr Hc. apply Hall. now split.
    + intros Hall. rewrite successIn_none in Hp.
      * rewrite (percentage_none _ Hsome) in Hp. now injection Hp.
      * intros r Hr Hc. apply Hall. now split.
Qed.

(** ** When [generateSummary] throws *)

Section SummaryErrors.

Variable tasksByName : Evals.JsObject Evals.Task.
Variable results : list Evals.SummaryResult.

Lemma verdict_run (r : Evals.SummaryResult) :
  match Evals.verdict tasksByName r with
  | Returned v =>
      Evals.get tasksByName (Evals.name (Evals.input r)) <> Evals.Absent
      /\ verdictOf tasksByName r v
  | Thrown e =>
      Evals.get tasksByName (Evals.name (Evals.input r)) = Evals.Absent /\ e = noSuchTask
  end.
Proof.
  unfold Evals.verdict, Evals.categoriesOf, Evals.get, verdictOf.
  destruct (Evals.getOwn tasksByName _) as [task | ].
  - cbn. repeat split. discriminate.
  - destruct (existsb _ Evals.objectPrototype); cbn; repeat split. discriminate.
Qed.

Lemma verdicts_run (l : list Evals.SummaryResult) :
  match Evals.mapR (Evals.verdict tasksByName) l with
  | Returned vs =>
      (forall r, In r l -> Evals.get tasksByName (Evals.name (Evals.input r)) <> Evals.Absent)
      /\ Forall2 (verdictOf tasksByName) l vs
  | Thrown e =>
      (exists r, In r l /\ Evals.get tasksByName (Evals.name (Evals.input r)) = Evals.Absent)
      /\ e = noSuchTask
  end.
Proof.
  induction l as [ | r l IH]; cbn [Evals.mapR].
  - split; [intros r [] | constructor].
  - pose proof (verdict_run r) as Hr.
    destruct (Evals.verdict tasksByName r) as [v | e]; cbn [Evals.andThen].
    + destruct (Evals.mapR _ l) as [vs | e]; cbn [Evals.andThen].
      * destruct Hr as [Hr Hv]. destruct IH as [Hall Hvs]. split.
        -- intros x [<- | Hx]; [exact Hr | now apply Hall].
        -- now constructor.
      * destruct IH as [[x [Hx Habsent]] ->]. split; [ | reflexivity].
        exists x. split; [now right | exact Habsent].
    + destruct Hr as [Hr ->]. split; [ | reflexivity]. exists r. split; [now left | exact Hr].
Qed.

Lemma counting_returns (l : list string) (counts : Evals.JsObject Evals.Counts) :
  (forall k, In k l -> In k (Evals.keys tasksByName)) ->
  exists counts', Evals.foldR (Evals.countTask tasksByName results) l counts = Returned counts'.
Proof.
  revert counts. induction l as [ | k l IH]; intros counts Hown; cbn [Evals.foldR].
  - now exists counts.
  - assert (Hk : Evals.getOwn tasksByName k <> None).
    { apply getOwn_In, Hown. now left. }
    destruct (Evals.getOwn tasksByName k) as [task | ] eqn:Hget; [ | contradiction].
    rewrite (countTask_own tasksByName results counts k task Hget). cbn [Evals.andThen].
    apply IH. intros x Hx. apply Hown. now right.
Qed.

End SummaryErrors.

Lemma generateSummary_runs tasksByName results experimentName :
  let unknown := fun r : Evals.SummaryResult =>
    In r results /\ Evals.get tasksByName (Evals.name (Evals.input r)) = Evals.Absent in
  ((exists r, unknown r) <->
   Evals.generateSummary tasksByName results experimentName = Thrown noSuchTask)
  /\ ((forall r, ~ unknown r) <->
      exists s, Evals.generateSummary tasksByName results experimentName = Returned s)
  /\ (forall s,
        Evals.generateSummary tasksByName results experimentName = Returned s ->
        Forall2 (verdictOf tasksByName) (filter Evals.succeeded results) (Evals.passed s)
        /\ Forall2 (verdictOf tasksByName)
                   (filter (fun r => negb (Evals.succeeded r)) results) (Evals.failed s)
        /\ Evals.experimentName s = experimentName).
Proof.
  intros unknown.
  pose proof (verdicts_run tasksByName (filter Evals.succeeded results)) as Hpassed.
  pose proof (verdicts_run tasksByName (filter (fun r => negb (Evals.succeeded r)) results))
    as Hfailed.
  destruct (counting_returns tasksByName results (Evals.keys tasksByName) [])
    as [counts Hcounts]; [auto | ].
  unfold Evals.generateSummary. rewrite Hcounts.
  assert (Hsplit : forall r, In r results ->
            In r (filter Evals.succeeded results)
            \/ In r (filter (fun r => negb (Evals.succeeded r)) results)).
  { intros r Hr. rewrite !filter_In. destruct (Evals.succeeded r); cbn; tauto. }
  destruct (Evals.mapR _ (filter Evals.succeeded results)) as [p | e];
    cbn [Evals.andThen].
  - destruct (Evals.mapR _ (filter (fun r => negb (Evals.succeeded r)) results)) as [f | e];
      cbn [Evals.andThen].
    + destruct Hpassed as [Hp Hvp]. destruct Hfailed as [Hf Hvf].
      assert (Hknown : forall r, ~ unknown r).
      { intros r [Hr Habsent]. destruct (Hsplit r Hr) as [Hin | Hin];
          [exact (Hp r Hin Habsent) | exact (Hf r Hin Habsent)]. }
      split; [ | split].
      * split; [ | discriminate]. intros [r Hr]. destruct (Hknown r Hr).
      * split; [eexists; reflexivity | intros _; exact Hknown].
      * intros s [= <-]. cbn. auto.
    + destruct Hfailed as [[r [Hr Habsent]] ->].
      apply filter_In in Hr. destruct Hr as [Hr _].
      split; [ | split].
      * split; [reflexivity | ]. intros _. exists r. now split.
      * split; [ | intros [s Hs]; discriminate]. intros Hknown. destruct (Hknown r). now split.
      * discriminate.
  - destruct Hpassed as [[r [Hr Habsent]] ->].
    apply filter_In in Hr. destruct Hr as [Hr _].
    split; [ | split].
    * split; [reflexivity | ]. intros _. exists r. now split.
    * split; [ | intros [s Hs]; discriminate]. intros Hknown. destruct (Hknown r). now split.
    * discriminate.
Qed.

(** X11.  What [generateSummary] does, by its results and the file system.
    When some result is of a task that [tasksByName] does not have, not even
    as an inherited name, it throws the TypeError of reading [categories] of
    [undefined], and has written and printed nothing.  Otherwise it calls
    [fs.writeFileSync] once, for [eval-summary.json], with the summary: there
    [passed] holds the verdicts of the results that succeeded and [failed]
    those of the others, each in the order of the results, and the
    experiment name is the one given.  If that write fails, its error is
    thrown as it is and nothing is printed; if it succeeds, the line
    "Evaluation summary written to eval-summary.json" is printed and the
    function returns. *)
Theorem summary_needs_known_tasks tasksByName writeFileSync results experimentName :
  let unknown := fun r : Evals.SummaryResult =>
    In r results /\ Evals.get tasksByName (Evals.name (Evals.input r)) = Evals.Absent in
  let run := Evals.runGenerateSummary tasksByName writeFileSync results experimentName in
  ((exists r, unknown r) -> run = ([], Thrown noSuchTask))
  /\ ((forall r, ~ unknown r) ->
      exists s,
        Evals.generateSummary tasksByName results experimentName = Returned s
        /\ Forall2 (verdictOf tasksByName) (filter Evals.succeeded results) (Evals.passed s)
        /\ Forall2 (verdictOf tasksByName)
                   (filter (fun r => negb (Evals.succeeded r)) results) (Evals.failed s)
        /\ Evals.experimentName s = experimentName
        /\ run =
             match writeFileSync "eval-summary.json" s with
             | Some e => ([Evals.WriteFileSync "eval-summary.json" s (Some e)], Thrown e)
             | None =>
                 ([Evals.WriteFileSync "eval-summary.json" s None;
                   Evals.ConsoleLog "Evaluation summary written to eval-summary.json"],
                  Returned tt)
             end)
  /\ (snd run = Returned tt <->
      (forall r, ~ unknown r)
      /\ exists s, fst run = [Evals.WriteFileSync "eval-summary.json" s None;
                              Evals.ConsoleLog "Evaluation summary written to eval-summary.json"]).
Proof.
  intros unknown run. subst run.
  destruct (generateSummary_runs tasksByName results experimentName)
    as [Hthrown [Hreturned Hparts]].
  fold unknown in Hthrown, Hreturned.
  unfold Evals.runGenerateSummary.
  split; [ | split].
  - intros Hunknown. apply Hthrown in Hunknown. rewrite Hunknown. reflexivity.
  - intros Hknown. apply Hreturned in Hknown. destruct Hknown as [s Hs].
    destruct (Hparts s Hs) as [Hp [Hf Hname]].
    exists s. rewrite Hs.
    split; [reflexivity | split; [exact Hp | split; [exact Hf | split; [exact Hname | ]]]].
    destruct (writeFileSync "eval-summary.json" s); reflexivity.
  - split.
    + destruct (Evals.generateSummary tasksByName results experimentName) as [s | e] eqn:Hs;
        [ | discriminate].
      destruct (writeFileSync "eval-summary.json" s); [discriminate | ].
      intros _. split; [ | exists s; reflexivity].
      apply Hreturned. now exists s.
    + intros [Hknown [s Hrun]]. apply Hreturned in Hknown. destruct Hknown as [s' Hs'].
      rewrite Hs' in *. destruct (writeFileSync "eval-summary.json" s'); [discriminate | ].
      reflexivity.
Qed.

(** ** The testcases *)

Lemma filterR_pure {A} (p : A -> Result bool) (q : A -> bool) (l : list A) :
  (forall a, In a l -> p a = Returned (q a)) -> Evals.filterR p l = Returned (filter q l).
Proof.
  induction l as [ | a l IH]; intros Hp; [reflexivity | ].
  cbn [Evals.filterR filter]. rewrite (Hp a (or_introl eq_refl)), IH.
  - cbn. destruct (q a); reflexivity.
  - intros x Hx. apply Hp. now right.
Qed.

Lemma someR_pure {A} (p : A -> Result bool) (q : A -> bool) (l : list A) :
  (forall a, In a l -> p a = Returned (q a)) -> Evals.someR p l = Returned (existsb q l).
Proof.
  induction l as [ | a l IH]; intros Hp; [reflexivity | ].
  cbn [Evals.someR existsb]. rewrite (Hp a (or_introl eq_refl)). cbn [Evals.andThen].
  destruct (q a); [reflexivity | ]. apply IH. intros x Hx. apply Hp. now right.
Qed.

Lemma filter_flat_map {A B} (p : B -> bool) (f : A -> list B) (l : list A) :
  filter p (flat_map f l) = flat_map (fun a => filter p (f a)) l.
Proof.
  induction l as [ | a l IH]; [reflexivity | ]. cbn [flat_map].
  now rewrite filter_app, IH.
Qed.

Lemma filter_map_swap {A B} (p : B -> bool) (g : A -> B) (l : list A) :
  filter p (map g l) = map g (filter (fun a => p (g a)) l).
Proof.
  induction l as [ | a l IH]; [reflexivity | ]. cbn [map filter].
  destruct (p (g a)); cbn [map]; now rewrite IH.
Qed.

Lemma filter_filter {A} (p q : A -> bool) (l : list A) :
  filter p (filter q l) = filter (fun a => q a && p a) l.
Proof.
  induction l as [ | a l IH]; [reflexivity | ]. cbn [filter].
  destruct (q a); cbn [filter andb]; [destruct (p a) | ]; now rewrite IH.
Qed.

Section Testcases.

Variable tasksByName : Evals.JsObject Evals.Task.
Variable MODELS : list string.
Variable tasksConfig : list Evals.TaskConfig.
Variable DEFAULT_EVAL_CATEGORIES : list string.
Variable filterByCategory : option string.
Variable filterByEvalName : option string.
Variable env : string.

(** The categories of a task that exists, none otherwise. *)
Local Abbreviation categoriesAt taskName :=
  (match Evals.getOwn tasksByName taskName with
   | Some task => Evals.categories task
   | None => []
   end).

Local Abbreviation known t := (In (Evals.testcaseName t) (Evals.keys tasksByName)).

Lemma inCategory_known (t : Evals.Testcase) (category : string) :
  known t ->
  Evals.inCategory tasksByName t category =
    Returned (Evals.includes (categoriesAt (Evals.testcaseName t)) category).
Proof.
  intros Hknown. apply getOwn_In in Hknown.
  unfold Evals.inCategory, Evals.categoriesOf, Evals.get.
  destruct (Evals.getOwn tasksByName _); [reflexivity | contradiction].
Qed.

Lemma generateFilteredTestcases_run :
  Evals.generateFilteredTestcases tasksByName MODELS tasksConfig DEFAULT_EVAL_CATEGORIES
    filterByCategory filterByEvalName env =
  Returned
    (filter (fun t =>
               selects DEFAULT_EVAL_CATEGORIES filterByCategory filterByEvalName env
                 (Evals.testcaseName t) (categoriesAt (Evals.testcaseName t)))
            (flat_map (fun model => map (fun testName => Evals.testcase tasksConfig model testName)
                                        (Evals.keys tasksByName)) MODELS)).
Proof.
  unfold Evals.generateFilteredTestcases.
  set (all := flat_map _ MODELS).
  assert (Hall : forall t, In t all -> known t).
  { intros t Ht. unfold all in Ht. apply in_flat_map in Ht.
    destruct Ht as [model [_ Ht]]. apply in_map_iff in Ht.
    destruct Ht as [testName [<- Hin]]. exact Hin. }
  rewrite (filterR_pure _
             (fun t => existsb (Evals.includes (categoriesAt (Evals.testcaseName t)))
                               DEFAULT_EVAL_CATEGORIES)).
  2:{ intros t Ht. apply someR_pure. intros category _.
      apply inCategory_known, Hall, Ht. }
  cbn [Evals.andThen].
  set (first := filter _ all).
  assert (Hfirst : forall t, In t first -> known t).
  { intros t Ht. apply filter_In in Ht. apply Hall, Ht. }
  assert (Hsecond :
    match Evals.given filterByCategory with
    | Some category =>
        Evals.filterR (fun t => Evals.inCategory tasksByName t category) first
    | None => Returned first
    end =
    Returned (filter (fun t => match Evals.given filterByCategory with
                               | Some category =>
                                   Evals.includes (categoriesAt (Evals.testcaseName t)) category
                               | None => true
                               end) first)).
  { destruct (Evals.given filterByCategory) as [category | ].
    - apply filterR_pure. intros t Ht. apply inCategory_known, Hfirst, Ht.
    - f_equal. symmetry. now apply filter_all. }
  rewrite Hsecond. cbn [Evals.andThen]. f_equal.
  set (second := filter _ first).
  assert (Hthird :
    match Evals.given filterByEvalName with
    | Some evalName =>
        filter (fun t => String.eqb (Evals.testcaseName t) evalName
                         || String.eqb (Evals.name (Evals.testcaseInput t)) evalName) second
    | None => second
    end =
    filter (fun t => match Evals.given filterByEvalName with
                     | Some evalName => String.eqb (Evals.testcaseName t) evalName
                     | None => true
                     end) second).
  { destruct (Evals.given filterByEvalName) as [evalName | ].
    - apply filter_ext_in. intros t Ht.
      assert (Hin : In t all).
      { unfold second, first in Ht. apply filter_In in Ht. destruct Ht as [Ht _].
        apply filter_In in Ht. tauto. }
      unfold all in Hin. apply in_flat_map in Hin. destruct Hin as [model [_ Hin]].
      apply in_map_iff in Hin. destruct Hin as [testName [<- _]]. cbn.
      now rewrite orb_diag.
    - symmetry. now apply filter_all. }
  rewrite Hthird.
  set (third := filter _ second).
  assert (Hfourth :
    (if String.eqb env "BROWSERBASE"
     then filter (fun t => negb (Evals.includes ["peeler_simple"; "stock_x"]
                                   (Evals.testcaseName t))) third
     else third) =
    filter (fun t => if String.eqb env "BROWSERBASE"
                     then negb (Evals.includes ["peeler_simple"; "stock_x"]
                                  (Evals.testcaseName t))
                     else true) third).
  { destruct (String.eqb env "BROWSERBASE"); [reflexivity | ].
    symmetry. now apply filter_all. }
  rewrite Hfourth. unfold third, second, first.
  rewrite !filter_filter. apply filter_ext. intros t. unfold selects.
  now rewrite !andb_assoc.
Qed.

End Testcases.

(** X12.  [generateFilteredTestcases] never throws, and every model is given
    the same tasks: the testcases are, for each model in the order of
    [MODELS], those of the tasks that pass the filters, in the order of the
    keys of [tasksByName]; whether a task passes depends on its name and
    categories only.  So there are as many testcases as models times
    selected tasks. *)
Theorem testcases_are_models_times_tasks tasksByName MODELS tasksConfig
    DEFAULT_EVAL_CATEGORIES filterByCategory filterByEvalName env :
  let tasks := selectedTasks tasksByName DEFAULT_EVAL_CATEGORIES filterByCategory
                 filterByEvalName env in
  exists testcases,
    Evals.generateFilteredTestcases tasksByName MODELS tasksConfig DEFAULT_EVAL_CATEGORIES
      filterByCategory filterByEvalName env = Returned testcases
    /\ testcases =
         flat_map (fun model => map (Evals.testcase tasksConfig model) tasks) MODELS
    /\ length testcases = (length MODELS * length tasks)%nat.
Proof.
  intros tasks. eexists. split; [apply generateFilteredTestcases_run | ].
  assert (Hshape :
    filter (fun t =>
              selects DEFAULT_EVAL_CATEGORIES filterByCategory filterByEvalName env
                (Evals.testcaseName t)
                match Evals.getOwn tasksByName (Evals.testcaseName t) with
                | Some task => Evals.categories task
                | None => []
                end)
           (flat_map (fun model => map (fun testName => Evals.testcase tasksConfig model testName)
                                       (Evals.keys tasksByName)) MODELS) =
    flat_map (fun model => map (Evals.testcase tasksConfig model) tasks) MODELS).
  { rewrite filter_flat_map. apply flat_map_ext. intros model.
    rewrite filter_map_swap. f_equal. unfold tasks, selectedTasks.
    apply filter_ext_in. intros testName Hin. cbn [Evals.testcaseName Evals.testcase].
    apply getOwn_In in Hin.
    destruct (Evals.getOwn tasksByName testName); [reflexivity | contradiction]. }
  split; [exact Hshape | ].
  rewrite Hshape. clear Hshape.
  induction MODELS as [ | model models IH]; [reflexivity | ].
  cbn [flat_map length]. rewrite length_app, length_map, IH. lia.
Qed.

(** ** The example run *)

Lemma model_rates_of_run :
  exists p : Z,
    Evals.getOwn (Evals.modelRates Evals.Run.summary) "gpt-4o" = Some (Finite (inject_Z p))
    /\ (0 <= p <= 100)%Z
    /\ (~ reportsModel (Evals.failed Evals.Run.summary) "gpt-4o" -> p = 100%Z)
    /\ (~ reportsModel (Evals.passed Evals.Run.summary) "gpt-4o" -> p = 0%Z).
Proof.
  refine (proj2 (proj2 (model_rates Evals.Run.tasksByName Evals.Run.results "run"
                          Evals.Run.summary "gpt-4o" _)) _ _).
  - vm_compute. reflexivity.
  - discriminate.
  - left. eexists. split; [left; reflexivity | reflexivity].
Defined.

Lemma category_rates_of_run :
  Evals.getOwn (Evals.categoryRates Evals.Run.summary) "observe" = Some NaN.
Proof.
  refine (proj1 (proj2 (category_rates Evals.Run.tasksByName Evals.Run.results "run"
                          Evals.Run.summary "observe" _ _)) eq_refl _ _).
  - repeat constructor; cbn; intuition discriminate.
  - vm_compute. reflexivity.
  - exists "history". eexists. split; [right; right; left; reflexivity | now left].
  - intros r [Hr [task [Hin Hc]]].
    cbn in Hin. destruct Hin as [Hin | [Hin | [Hin | []]]]; injection Hin as Hname <-;
      cbn in Hc; try (intuition discriminate).
    cbn in Hr. destruct Hr as [<- | [<- | [<- | [<- | []]]]]; discriminate Hname.
Defined.
